(** * A reliable transport over datagrams: packet codec and reliability engines

    Shallow embedding of the Go sources [packet.go], [reliability.go],
    [lockfree_reliability.go], of the address and byte-order helpers of
    [linux_socket.go] and of the packet path and string helpers of
    [ultra_fast_server.go], followed by the properties established about them.

    Conventions of the embedding:
    - Go's fixed-width unsigned integers are integers of [Z]; every
      operation that can leave the width is followed by its wrap-around
      ([u8], [u16], [u32], [u64]).
    - A byte slice is a [list Z] whose elements are bytes; a Go [string] is
      the list of its bytes as characters, a [list ascii].
    - A [time.Time] is an integer counting nanoseconds, a [time.Duration]
      an [int64] of them; the clock read by [time.Now()] is an explicit
      argument [now], and [Time_Sub] is the library's saturating difference
      of two instants.
    - Go maps are [gmap]s; a method with a pointer receiver takes the
      receiver's state and returns the new one.
    - A run-time panic (index out of range, division by zero, a [make]
      beyond the allocation limit) and a loop that exhausts its fuel are
      [None]. *)

From Stdlib Require Import ZArith List Lia Bool Ascii.
From stdpp Require Import base option list gmap strings.

Local Open Scope Z_scope.

(** ** Machine integers *)

Definition u8 (z : Z) : Z := z mod 2 ^ 8.
Definition u16 (z : Z) : Z := z mod 2 ^ 16.
Definition u32 (z : Z) : Z := z mod 2 ^ 32.
Definition u64 (z : Z) : Z := z mod 2 ^ 64.

Definition is_u8 (z : Z) : Prop := 0 <= z < 2 ^ 8.
Definition is_u16 (z : Z) : Prop := 0 <= z < 2 ^ 16.
Definition is_u32 (z : Z) : Prop := 0 <= z < 2 ^ 32.
Definition is_u64 (z : Z) : Prop := 0 <= z < 2 ^ 64.

(** [len(s)] of a slice, as Go's [int]. *)
Definition len {A : Type} (s : list A) : Z := Z.of_nat (length s).

(** Outcome of a fallible call: Go's [(value, error)] pair. *)
Inductive result (E A : Type) : Type :=
  | Ok (a : A)
  | Err (e : E).
Arguments Ok {E A} a.
Arguments Err {E A} e.

(** ** linux_socket.go: network byte order conversion *)

Definition htons (host : Z) : Z :=
  Z.lor (Z.land (u16 (Z.shiftl host 8)) 0xff00)
        (Z.land (Z.shiftr host 8) 0x00ff).

Definition ntohs (network : Z) : Z :=
  Z.lor (Z.land (u16 (Z.shiftl network 8)) 0xff00)
        (Z.land (Z.shiftr network 8) 0x00ff).

Definition htonl (host : Z) : Z :=
  Z.lor (Z.lor (Z.lor (Z.shiftl (Z.land host 0x000000ff) 24)
                      (Z.shiftl (Z.land host 0x0000ff00) 8))
               (Z.shiftr (Z.land host 0x00ff0000) 8))
        (Z.shiftr (Z.land host 0xff000000) 24).

Definition ntohl (network : Z) : Z :=
  Z.lor (Z.lor (Z.lor (Z.shiftl (Z.land network 0x000000ff) 24)
                      (Z.shiftl (Z.land network 0x0000ff00) 8))
               (Z.shiftr (Z.land network 0x00ff0000) 8))
        (Z.shiftr (Z.land network 0xff000000) 24).

(** ** linux_socket.go: parseIPv4 *)

(** The byte [s[i]] of a Go string, as a number. *)
Definition byte_of_char (c : ascii) : Z := Z.of_N (N_of_ascii c).

(** The loop of [parseIPv4] over the characters that remain; [result] is the
    array [[4]byte].  Returning [nil] is [None]; a result that is not [nil]
    is the slice of the four bytes of the array. *)
Fixpoint parseIPv4_from (ip : list ascii) (result : list Z) (octet : Z)
    (octetIndex : Z) : option (list Z) :=
  match ip with
  | [] =>
      if negb (octetIndex =? 3) then None
      else Some (<[Z.to_nat octetIndex := u8 octet]> result)
  | c :: ip' =>
      if (byte_of_char "0" <=? byte_of_char c)
         && (byte_of_char c <=? byte_of_char "9")
      then
        let octet := octet * 10 + (byte_of_char c - byte_of_char "0") in
        if 255 <? octet then None
        else parseIPv4_from ip' result octet octetIndex
      else if bool_decide (c = "."%char) then
        if 3 <=? octetIndex then None
        else parseIPv4_from ip' (<[Z.to_nat octetIndex := u8 octet]> result) 0
                            (octetIndex + 1)
      else None
  end.

Definition parseIPv4 (ip : list ascii) : option (list Z) :=
  parseIPv4_from ip [0; 0; 0; 0] 0 0.

(** ** Raw memory access

    [packet.go] reads and writes the multi-byte header fields through an
    [unsafe.Pointer] to [buf[i]] cast to a pointer to [uint16] or [uint32]:
    a native load or store of the host.  The host is little-endian (the
    amd64 Linux target of the repository), so the least significant byte is
    at the lowest address. *)

(** [buf[i]] once the bounds are known to hold. *)
Definition byte_at (buf : list Z) (i : nat) : Z := default 0 (buf !! i).

Definition le_word16 (b0 b1 : Z) : Z := Z.lor b0 (Z.shiftl b1 8).

Definition le_word32 (b0 b1 b2 b3 : Z) : Z :=
  Z.lor (Z.lor (Z.lor b0 (Z.shiftl b1 8)) (Z.shiftl b2 16)) (Z.shiftl b3 24).

Definition load_uint16 (buf : list Z) (i : nat) : Z :=
  le_word16 (byte_at buf i) (byte_at buf (i + 1)).

Definition load_uint32 (buf : list Z) (i : nat) : Z :=
  le_word32 (byte_at buf i) (byte_at buf (i + 1))
            (byte_at buf (i + 2)) (byte_at buf (i + 3)).

Definition store_uint16 (buf : list Z) (i : nat) (v : Z) : list Z :=
  <[(i + 1)%nat := Z.land (Z.shiftr v 8) 0xff]> (<[i := Z.land v 0xff]> buf).

Definition store_uint32 (buf : list Z) (i : nat) (v : Z) : list Z :=
  <[(i + 3)%nat := Z.land (Z.shiftr v 24) 0xff]>
    (<[(i + 2)%nat := Z.land (Z.shiftr v 16) 0xff]>
       (<[(i + 1)%nat := Z.land (Z.shiftr v 8) 0xff]>
          (<[i := Z.land v 0xff]> buf))).

(** Go's built-in [copy(dst, src)]: the first [min(len(dst), len(src))]
    elements of [dst] are overwritten; the result is the new content of
    [dst]. *)
Definition copy (dst src : list Z) : list Z :=
  take (length dst) src ++ drop (length src) dst.

(** ** packet.go *)

Definition DATA_PACKET : Z := 0x01.
Definition ACK_PACKET : Z := 0x02.
Definition SYN_PACKET : Z := 0x03.
Definition FIN_PACKET : Z := 0x04.
Definition RST_PACKET : Z := 0x05.

Definition ACK_FLAG : Z := 0x01.
Definition SYN_FLAG : Z := 0x02.
Definition FIN_FLAG : Z := 0x04.
Definition RST_FLAG : Z := 0x08.

Definition PROTOCOL_VERSION : Z := 0x01.
Definition PACKET_HEADER_SIZE : Z := 16.
Definition MAX_PAYLOAD_SIZE : Z := 1400.
Definition MAX_PACKET_SIZE : Z := PACKET_HEADER_SIZE + MAX_PAYLOAD_SIZE.

Record Packet : Type := mkPacket {
  Version : Z;      (* uint8 *)
  Type_ : Z;        (* uint8, the field [Type] *)
  Flags : Z;        (* uint8 *)
  Length : Z;       (* uint16 *)
  SeqNum : Z;       (* uint32 *)
  AckNum : Z;       (* uint32 *)
  Checksum : Z;     (* uint32 *)
  Payload : list Z  (* []byte; a nil slice is the empty list *)
}.

Definition set_Checksum (c : Z) (p : Packet) : Packet :=
  mkPacket (Version p) (Type_ p) (Flags p) (Length p) (SeqNum p) (AckNum p)
           c (Payload p).

Definition NewPacket (packetType flags seqNum ackNum : Z) (payload : list Z)
  : Packet :=
  let payload :=
    if MAX_PAYLOAD_SIZE <? len payload
    then take (Z.to_nat MAX_PAYLOAD_SIZE) payload
    else payload in
  {| Version := PROTOCOL_VERSION;
     Type_ := packetType;
     Flags := flags;
     Length := u16 (PACKET_HEADER_SIZE + len payload);
     SeqNum := seqNum;
     AckNum := ackNum;
     Checksum := 0;
     Payload := payload |}.

(** The trailing bytes of a slice whose length is not a multiple of four:
    [word |= uint32(b[j]) << (8 * (3 - (j - i)))] for [j] from [i]. *)
Fixpoint partial_word (bs : list Z) (k : Z) (word : Z) : Z :=
  match bs with
  | [] => word
  | b :: bs' =>
      partial_word bs' (k + 1) (Z.lor word (u32 (Z.shiftl b (8 * (3 - k)))))
  end.

(** One of the two summing loops of [calculateChecksum]: four bytes at a
    time, read as a native word and swapped by [ntohl]. *)
Fixpoint sum_words (bs : list Z) (sum : Z) : Z :=
  match bs with
  | [] => sum
  | b0 :: b1 :: b2 :: b3 :: rest =>
      sum_words rest (u32 (sum + ntohl (le_word32 b0 b1 b2 b3)))
  | _ => u32 (sum + partial_word bs 0 0)
  end.

(** [for (sum >> 16) > 0 { sum = (sum & 0xFFFF) + (sum >> 16) }] *)
Definition fold_step (sum : Z) : Z :=
  u32 (Z.land sum 0xFFFF + Z.shiftr sum 16).

Fixpoint fold_carry (fuel : nat) (sum : Z) : option Z :=
  if 0 <? Z.shiftr sum 16 then
    match fuel with
    | O => None
    | S fuel' => fold_carry fuel' (fold_step sum)
    end
  else Some sum.

(** A 32-bit sum is folded below [2^16] after at most two rounds
    ([fold_carry_terminates]); the loop gets one round to spare. *)
Definition fold_fuel : nat := 3.

Definition calculateChecksum (header payload : list Z) : option Z :=
  let sum := sum_words header 0 in
  let sum := sum_words payload sum in
  sum ← fold_carry fold_fuel sum;
  Some (Z.land (Z.lnot sum) 0xFFFFFFFF).

(** [Serialize] returns the buffer and the packet, whose [Checksum] field it
    assigns.  A packet whose [Length] is below the header size makes the
    header writes or the slice [buffer[PACKET_HEADER_SIZE:]] run out of
    range. *)
Definition Serialize (p : Packet) : option (list Z * Packet) :=
  if Length p <? PACKET_HEADER_SIZE then None
  else
    let buffer := replicate (Z.to_nat (Length p)) 0 in
    let buffer :=
      <[0%nat := Z.lor (u8 (Z.shiftl (Version p) 4)) (Z.land (Type_ p) 0x0F)]>
        buffer in
    let buffer := <[1%nat := Flags p]> buffer in
    let buffer := store_uint16 buffer 2 (htons (Length p)) in
    let buffer := store_uint32 buffer 4 (htonl (SeqNum p)) in
    let buffer := store_uint32 buffer 8 (htonl (AckNum p)) in
    let buffer :=
      if 0 <? len (Payload p)
      then take 16 buffer ++ copy (drop 16 buffer) (Payload p)
      else buffer in
    checksum ← calculateChecksum (take 12 buffer) (drop 16 buffer);
    let buffer := store_uint32 buffer 12 (htonl checksum) in
    Some (buffer, set_Checksum checksum p).

Inductive DecodeError : Type :=
  | PacketTooShort          (* "packet too short: %d bytes" *)
  | PacketLengthMismatch    (* "packet length mismatch: expected %d, got %d" *)
  | UnsupportedVersion      (* "unsupported protocol version: %d" *)
  | ChecksumMismatch.       (* "checksum mismatch: expected ..., got ..." *)

(** The header fields as [DeserializePacket] unpacks them. *)
Definition wire_version (data : list Z) : Z :=
  Z.land (Z.shiftr (byte_at data 0) 4) 0x0F.
Definition wire_type (data : list Z) : Z := Z.land (byte_at data 0) 0x0F.
Definition wire_length (data : list Z) : Z := ntohs (load_uint16 data 2).
Definition wire_checksum (data : list Z) : Z := ntohl (load_uint32 data 12).

Definition DeserializePacket (data : list Z)
  : option (result DecodeError Packet) :=
  if len data <? PACKET_HEADER_SIZE then Some (Err PacketTooShort)
  else
    let p_Version := wire_version data in
    let p_Type := wire_type data in
    let p_Flags := byte_at data 1 in
    let p_Length := wire_length data in
    let p_SeqNum := ntohl (load_uint32 data 4) in
    let p_AckNum := ntohl (load_uint32 data 8) in
    let p_Checksum := wire_checksum data in
    if negb (p_Length =? len data) then Some (Err PacketLengthMismatch)
    else if negb (p_Version =? PROTOCOL_VERSION)
    then Some (Err UnsupportedVersion)
    else
      let p_Payload :=
        if PACKET_HEADER_SIZE <? p_Length
        then copy (replicate (Z.to_nat (p_Length - PACKET_HEADER_SIZE)) 0)
                  (drop 16 data)
        else [] in
      expectedChecksum ← calculateChecksum (take 12 data) (drop 16 data);
      if negb (p_Checksum =? expectedChecksum) then Some (Err ChecksumMismatch)
      else Some (Ok (mkPacket p_Version p_Type p_Flags p_Length p_SeqNum
                              p_AckNum p_Checksum p_Payload)).

Definition IsDataPacket (p : Packet) : bool := Type_ p =? DATA_PACKET.
Definition IsAckPacket (p : Packet) : bool := Type_ p =? ACK_PACKET.
Definition IsSynPacket (p : Packet) : bool := Type_ p =? SYN_PACKET.
Definition IsFinPacket (p : Packet) : bool := Type_ p =? FIN_PACKET.
Definition IsRstPacket (p : Packet) : bool := Type_ p =? RST_PACKET.

Definition HasAck (p : Packet) : bool := negb (Z.land (Flags p) ACK_FLAG =? 0).
Definition HasSyn (p : Packet) : bool := negb (Z.land (Flags p) SYN_FLAG =? 0).
Definition HasFin (p : Packet) : bool := negb (Z.land (Flags p) FIN_FLAG =? 0).
Definition HasRst (p : Packet) : bool := negb (Z.land (Flags p) RST_FLAG =? 0).

(** [joinStrings]: the helper of [Packet.String]. *)
Definition joinStrings (strs : list (list ascii)) (sep : list ascii)
  : list ascii :=
  match strs with
  | [] => []
  | [str] => str
  | str :: rest =>
      fold_left (fun result str => result ++ (sep ++ str)) rest str
  end.

(** ** reliability.go: the lock-protected engine

    The embedding gives each method as it runs when no other goroutine
    interleaves with it: the mutexes it takes and releases do not appear, and
    a call takes the engine from one state to the next. *)

Definition i64 (z : Z) : Z := (z + 2 ^ 63) mod 2 ^ 64 - 2 ^ 63.

(** [time.Millisecond] and [time.Second], in nanoseconds. *)
Definition Millisecond : Z := 1000000.
Definition Second : Z := 1000000000.

(** [time.Time.Sub], which [time.Since] calls with the clock's reading: the
    difference of two instants as a [time.Duration].  A [Duration] is an
    [int64] of nanoseconds and the library saturates it: a difference beyond
    the range is [maxDuration] (the library's [1<<63 - 1]) or [minDuration]
    (its [-1 << 63]), it does not wrap.  An instant is a number of
    nanoseconds on an unbounded line: a [time.Time] reaches far beyond the
    range of a [Duration].  The embedding has one time line, on which the
    wall clock and the monotonic clock of a [time.Time] agree. *)
Definition minDuration : Z := - 2 ^ 63.
Definition maxDuration : Z := 2 ^ 63 - 1.

Definition Time_Sub (t u : Z) : Z :=
  let d := t - u in
  if d <? minDuration then minDuration
  else if maxDuration <? d then maxDuration
  else d.

Module Locked.

Record UnackedPacket : Type := mkUnackedPacket {
  Packet_ : Packet;   (* the field [Packet] *)
  SentTime : Z;       (* time.Time *)
  RetryCount : Z      (* int *)
}.

Record ReliabilityLayer : Type := mkReliabilityLayer {
  nextSeqNum : Z;                          (* uint32 *)
  unackedPackets : gmap Z UnackedPacket;   (* map[uint32]*UnackedPacket *)
  receivedSeqs : gmap Z bool;              (* map[uint32]bool *)
  orderingBuffer : gmap Z Packet;          (* map[uint32]*Packet *)
  nextExpectedSeq : Z;                     (* uint32 *)
  windowSize : Z;                          (* uint32 *)
  congestionWindow : Z;                    (* uint32 *)
  ssthresh : Z;                            (* uint32 *)
  rttSamples : list Z;                     (* []time.Duration *)
  averageRTT : Z;                          (* time.Duration *)
  retransmissionTimeout : Z;               (* time.Duration *)
  maxBufferSize : Z                        (* int *)
}.

Definition set_nextSeqNum (v : Z) (r : ReliabilityLayer) : ReliabilityLayer :=
  mkReliabilityLayer v (unackedPackets r) (receivedSeqs r) (orderingBuffer r)
    (nextExpectedSeq r) (windowSize r) (congestionWindow r) (ssthresh r)
    (rttSamples r) (averageRTT r) (retransmissionTimeout r) (maxBufferSize r).

Definition set_unackedPackets (v : gmap Z UnackedPacket)
    (r : ReliabilityLayer) : ReliabilityLayer :=
  mkReliabilityLayer (nextSeqNum r) v (receivedSeqs r) (orderingBuffer r)
    (nextExpectedSeq r) (windowSize r) (congestionWindow r) (ssthresh r)
    (rttSamples r) (averageRTT r) (retransmissionTimeout r) (maxBufferSize r).

Definition set_receivedSeqs (v : gmap Z bool) (r : ReliabilityLayer)
  : ReliabilityLayer :=
  mkReliabilityLayer (nextSeqNum r) (unackedPackets r) v (orderingBuffer r)
    (nextExpectedSeq r) (windowSize r) (congestionWindow r) (ssthresh r)
    (rttSamples r) (averageRTT r) (retransmissionTimeout r) (maxBufferSize r).

(** The ordering buffer and the next expected sequence number, which
    [GetOrderedPackets] updates together. *)
Definition set_ordering (buf : gmap Z Packet) (next : Z)
    (r : ReliabilityLayer) : ReliabilityLayer :=
  mkReliabilityLayer (nextSeqNum r) (unackedPackets r) (receivedSeqs r) buf
    next (windowSize r) (congestionWindow r) (ssthresh r)
    (rttSamples r) (averageRTT r) (retransmissionTimeout r) (maxBufferSize r).

Definition set_windowSize (v : Z) (r : ReliabilityLayer) : ReliabilityLayer :=
  mkReliabilityLayer (nextSeqNum r) (unackedPackets r) (receivedSeqs r)
    (orderingBuffer r) (nextExpectedSeq r) v (congestionWindow r) (ssthresh r)
    (rttSamples r) (averageRTT r) (retransmissionTimeout r) (maxBufferSize r).

Definition set_congestion (cwnd thresh : Z) (r : ReliabilityLayer)
  : ReliabilityLayer :=
  mkReliabilityLayer (nextSeqNum r) (unackedPackets r) (receivedSeqs r)
    (orderingBuffer r) (nextExpectedSeq r) (windowSize r) cwnd thresh
    (rttSamples r) (averageRTT r) (retransmissionTimeout r) (maxBufferSize r).

Definition set_rtt (samples : list Z) (average timeout : Z)
    (r : ReliabilityLayer) : ReliabilityLayer :=
  mkReliabilityLayer (nextSeqNum r) (unackedPackets r) (receivedSeqs r)
    (orderingBuffer r) (nextExpectedSeq r) (windowSize r) (congestionWindow r)
    (ssthresh r) samples average timeout (maxBufferSize r).

Definition set_maxBufferSize (v : Z) (r : ReliabilityLayer)
  : ReliabilityLayer :=
  mkReliabilityLayer (nextSeqNum r) (unackedPackets r) (receivedSeqs r)
    (orderingBuffer r) (nextExpectedSeq r) (windowSize r) (congestionWindow r)
    (ssthresh r) (rttSamples r) (averageRTT r) (retransmissionTimeout r) v.

Definition NewReliabilityLayer : ReliabilityLayer :=
  {| nextSeqNum := 1;
     unackedPackets := ∅;
     receivedSeqs := ∅;
     orderingBuffer := ∅;
     nextExpectedSeq := 1;
     windowSize := 32;
     congestionWindow := 1;
     ssthresh := 32;
     retransmissionTimeout := 1000 * Millisecond;
     maxBufferSize := 1000;
     rttSamples := [];
     averageRTT := 100 * Millisecond |}.

Definition NextSeqNum (r : ReliabilityLayer) : Z := nextSeqNum r.

Definition GetNextSeqNum (r : ReliabilityLayer) : Z * ReliabilityLayer :=
  let seq := nextSeqNum r in
  (seq, set_nextSeqNum (u32 (nextSeqNum r + 1)) r).

Definition SendPacketWithTimestamp (packet : Packet) (timestamp : Z)
    (r : ReliabilityLayer) : ReliabilityLayer :=
  if IsDataPacket packet then
    set_unackedPackets
      (<[SeqNum packet := mkUnackedPacket packet timestamp 0]>
         (unackedPackets r)) r
  else r.

(** [SendPacket] stamps the packet with [time.Now()]. *)
Definition SendPacket (now : Z) (packet : Packet) (r : ReliabilityLayer)
  : ReliabilityLayer :=
  SendPacketWithTimestamp packet now r.

Definition HasUnackedPacket (seqNum : Z) (r : ReliabilityLayer) : bool :=
  bool_decide (is_Some (unackedPackets r !! seqNum)).

Definition handleSuccessfulAck (r : ReliabilityLayer) : ReliabilityLayer :=
  if congestionWindow r <? ssthresh r then
    set_congestion (u32 (congestionWindow r + 1)) (ssthresh r) r
  else if 0 <? congestionWindow r then
    set_congestion (u32 (congestionWindow r + 1 / congestionWindow r))
                   (ssthresh r) r
  else r.

Definition SimulatePacketLoss (r : ReliabilityLayer) : ReliabilityLayer :=
  let thresh := congestionWindow r / 2 in
  let thresh := if thresh <? 1 then 1 else thresh in
  set_congestion thresh thresh r.

(** [updateRTT]: the sums and the product are [int64] arithmetic of
    [time.Duration]; Go's integer division truncates toward zero. *)
Definition updateRTT (sample : Z) (r : ReliabilityLayer) : ReliabilityLayer :=
  let samples := rttSamples r ++ [sample] in
  let samples := if 10 <? len samples then drop 1 samples else samples in
  let total := fold_left (fun total rtt => i64 (total + rtt)) samples 0 in
  let average := Z.quot total (len samples) in
  let timeout := i64 (average * 2) in
  let timeout :=
    if timeout <? 100 * Millisecond then 100 * Millisecond else timeout in
  let timeout := if 5 * Second <? timeout then 5 * Second else timeout in
  set_rtt samples average timeout r.

Inductive AckError : Type :=
  (* "packet is not an acknowledgment" *)
  | NotAnAcknowledgment
  (* "ACK for future packet: ack=%d, next_seq=%d" *)
  | AckForFuturePacket (ack next_seq : Z).

(** [HandleAck] returns Go's [error]: [None] is [nil].  [now] is the clock
    read by [time.Since]. *)
Definition HandleAck (now : Z) (ackPacket : Packet) (r : ReliabilityLayer)
  : option AckError * ReliabilityLayer :=
  if negb (HasAck ackPacket) then (Some NotAnAcknowledgment, r)
  else
    let ackNum := AckNum ackPacket in
    let seqNum := u32 (ackNum - 1) in
    match unackedPackets r !! seqNum with
    | None =>
        if nextSeqNum r <? seqNum
        then (Some (AckForFuturePacket ackNum (nextSeqNum r)), r)
        else (None, r)
    | Some unackedPacket =>
        let rtt := Time_Sub now (SentTime unackedPacket) in
        let r := updateRTT rtt r in
        let r := set_unackedPackets (delete seqNum (unackedPackets r)) r in
        let r := handleSuccessfulAck r in
        (None, r)
    end.

(** [GetTimedOutPackets] holds the read lock and changes nothing; the state
    is returned for uniformity with the lock-free engine.  Go ranges over a
    map in an unspecified order: the order of the result carries no
    meaning. *)
Definition GetTimedOutPackets (now : Z) (r : ReliabilityLayer)
  : list Packet * ReliabilityLayer :=
  let timedOut :=
    omap (fun kv : Z * UnackedPacket =>
            if retransmissionTimeout r <? Time_Sub now (SentTime kv.2)
            then Some (Packet_ kv.2) else None)
         (map_to_list (unackedPackets r)) in
  (timedOut, r).

Definition IsPacketDuplicate (packet : Packet) (r : ReliabilityLayer) : bool :=
  default false (receivedSeqs r !! SeqNum packet).

Definition MarkPacketReceived (packet : Packet) (r : ReliabilityLayer)
  : ReliabilityLayer :=
  set_receivedSeqs (<[SeqNum packet := true]> (receivedSeqs r)) r.

Inductive ReceiveError : Type :=
  (* "receive buffer overflow: size=%d, max=%d" *)
  | ReceiveBufferOverflow (size max : Z).

Definition ReceivePacket (packet : Packet) (r : ReliabilityLayer)
  : option ReceiveError * ReliabilityLayer :=
  let bufferSize := Z.of_nat (size (orderingBuffer r)) in
  if maxBufferSize r <=? bufferSize
  then (Some (ReceiveBufferOverflow bufferSize (maxBufferSize r)), r)
  else if IsPacketDuplicate packet r then (None, r)
  else
    let r := MarkPacketReceived packet r in
    let r :=
      set_ordering (<[SeqNum packet := packet]> (orderingBuffer r))
                   (nextExpectedSeq r) r in
    (None, r).

(** The loop of [GetOrderedPackets].  Every round removes an entry of the
    buffer, so as many rounds as the buffer has entries suffice
    ([GetOrderedPackets_total]). *)
Fixpoint collect_ordered (fuel : nat) (buf : gmap Z Packet) (next : Z)
    (orderedPackets : list Packet) : option (list Packet * gmap Z Packet * Z) :=
  match buf !! next with
  | None => Some (orderedPackets, buf, next)
  | Some packet =>
      match fuel with
      | O => None
      | S fuel' =>
          collect_ordered fuel' (delete next buf) (u32 (next + 1))
                          (orderedPackets ++ [packet])
      end
  end.

Definition GetOrderedPackets (r : ReliabilityLayer)
  : option (list Packet * ReliabilityLayer) :=
  '(orderedPackets, buf, next) ←
    collect_ordered (size (orderingBuffer r)) (orderingBuffer r)
                    (nextExpectedSeq r) [];
  Some (orderedPackets, set_ordering buf next r).

Definition CanSendPacket (r : ReliabilityLayer) : bool :=
  u32 (Z.of_nat (size (unackedPackets r))) <? windowSize r.

Definition SetWindowSize (size : Z) (r : ReliabilityLayer) : ReliabilityLayer :=
  set_windowSize size r.

Definition GetCongestionWindow (r : ReliabilityLayer) : Z := congestionWindow r.

Definition GetAverageRTT (r : ReliabilityLayer) : Z := averageRTT r.

Definition SetRetransmissionTimeout (timeout : Z) (r : ReliabilityLayer)
  : ReliabilityLayer :=
  set_rtt (rttSamples r) (averageRTT r) timeout r.

Definition SetMaxBufferSize (size : Z) (r : ReliabilityLayer)
  : ReliabilityLayer :=
  set_maxBufferSize size r.

End Locked.

(** ** lockfree_reliability.go: the engine built from atomic operations

    The embedding gives each method as it runs when no other goroutine
    interferes: an atomic load reads the field, and a compare-and-swap finds
    the value that was just loaded and succeeds.  The retry loops are kept;
    the ones whose exit depends on the data structure take fuel.  An
    [unsafe.Pointer] to a packet or to an entry is the value it points to, a
    nil pointer is [None]; the nodes of the queue, which point to each other,
    live in a store indexed by address.  Go gives every struct its own field
    names; here the fields of the table, of the queue, of its nodes and of the
    ring buffer carry a prefix ([ht_], [q_], [n_], [rb_]). *)

Module LockFree.

Record UnackedEntry : Type := mkUnackedEntry {
  Packet_ : Packet;   (* the field [Packet] *)
  SendTime : Z;       (* uint64, nanoseconds *)
  RetryCount : Z      (* uint32 *)
}.

(** *** LockFreeHashTable *)

Record LockFreeHashTable (V : Type) : Type := mkLockFreeHashTable {
  ht_buckets : list (option V);   (* buckets []unsafe.Pointer *)
  ht_size : Z;                    (* size uint64 *)
  ht_mask : Z                     (* mask uint64 *)
}.
Arguments mkLockFreeHashTable {V} _ _ _.
Arguments ht_buckets {V} _.
Arguments ht_size {V} _.
Arguments ht_mask {V} _.

(** [make([]unsafe.Pointer, size)] for a [size] of type [uint64].  The Go
    runtime panics ("makeslice: len out of range") when the slice does not
    fit below its allocation limit [maxAlloc], which is 2^48 bytes on the
    64-bit Linux targets this package builds for, a pointer taking
    [PtrSize] = 8 of them; this covers a [size] of 2^63 and more, which is
    negative as an [int].  Below the limit the slice is taken to be
    allocated: a machine that runs out of memory ends the program, which is
    no result of the call. *)
Definition maxAlloc : Z := 2 ^ 48.
Definition PtrSize : Z := 8.

Definition make_pointers {V : Type} (size : Z) : option (list (option V)) :=
  if maxAlloc <? size * PtrSize then None
  else Some (replicate (Z.to_nat size) None).

(** Panics unless [size] is a power of two (or zero), and where [make]
    does. *)
Definition NewLockFreeHashTable {V : Type} (size : Z)
  : option (LockFreeHashTable V) :=
  if negb (Z.land size (u64 (size - 1)) =? 0) then None
  else
    buckets ← make_pointers size;
    Some {| ht_buckets := buckets;
            ht_size := size;
            ht_mask := u64 (size - 1) |}.

Definition Insert {V : Type} (key : Z) (value : V) (ht : LockFreeHashTable V)
  : option (bool * LockFreeHashTable V) :=
  let hash := Z.land key (ht_mask ht) in
  current ← ht_buckets ht !! Z.to_nat hash;
  match current with
  | Some _ => Some (false, ht)
  | None =>
      Some (true,
            mkLockFreeHashTable (<[Z.to_nat hash := Some value]> (ht_buckets ht))
                                (ht_size ht) (ht_mask ht))
  end.

Definition Remove {V : Type} (key : Z) (ht : LockFreeHashTable V)
  : option (option V * LockFreeHashTable V) :=
  let hash := Z.land key (ht_mask ht) in
  current ← ht_buckets ht !! Z.to_nat hash;
  match current with
  | None => Some (None, ht)
  | Some v =>
      Some (Some v,
            mkLockFreeHashTable (<[Z.to_nat hash := None]> (ht_buckets ht))
                                (ht_size ht) (ht_mask ht))
  end.

(** [ForEach]: [n] buckets remain, starting at bucket [i].  The callback of
    the source is a closure that updates the entry it is given through its
    pointer and the variables it captured: here it returns whether to go on,
    the entry and the captured state. *)
Fixpoint ForEach_from {V St : Type} (n i : nat)
    (fn : Z -> V -> St -> option (bool * V * St))
    (ht : LockFreeHashTable V) (s : St) : option (LockFreeHashTable V * St) :=
  match n with
  | O => Some (ht, s)
  | S n' =>
      value ← ht_buckets ht !! i;
      match value with
      | None => ForEach_from n' (S i) fn ht s
      | Some v =>
          '(continue, v', s') ← fn (Z.of_nat i) v s;
          let ht' :=
            mkLockFreeHashTable (<[i := Some v']> (ht_buckets ht))
                                (ht_size ht) (ht_mask ht) in
          if continue : bool then ForEach_from n' (S i) fn ht' s'
          else Some (ht', s')
      end
  end.

Definition ForEach {V St : Type}
    (fn : Z -> V -> St -> option (bool * V * St))
    (ht : LockFreeHashTable V) (s : St) : option (LockFreeHashTable V * St) :=
  ForEach_from (Z.to_nat (ht_size ht)) 0 fn ht s.

(** *** LockFreeQueue *)

Record QueueNode : Type := mkQueueNode {
  n_next : option nat;     (* next unsafe.Pointer *)
  n_data : option Packet   (* data unsafe.Pointer *)
}.

Record LockFreeQueue : Type := mkLockFreeQueue {
  q_nodes : gmap nat QueueNode;   (* the nodes allocated so far, by address *)
  q_alloc : nat;                  (* the address the next allocation returns *)
  q_head : nat;                   (* head unsafe.Pointer *)
  q_tail : nat                    (* tail unsafe.Pointer *)
}.

Definition NewLockFreeQueue (capacity : Z) : LockFreeQueue :=
  let dummy := mkQueueNode None None in
  {| q_nodes := {[ 0%nat := dummy ]}; q_alloc := 1; q_head := 0; q_tail := 0 |}.

Fixpoint Enqueue_loop (fuel : nat) (newNodePtr : nat) (q : LockFreeQueue)
  : option (bool * LockFreeQueue) :=
  match fuel with
  | O => None
  | S fuel' =>
      let tail := q_tail q in
      tailNode ← q_nodes q !! tail;
      match n_next tailNode with
      | None =>
          (* link the new node, then advance the tail *)
          let nodes :=
            <[tail := mkQueueNode (Some newNodePtr) (n_data tailNode)]>
              (q_nodes q) in
          Some (true, mkLockFreeQueue nodes (q_alloc q) (q_head q) newNodePtr)
      | Some next =>
          (* help advance the tail *)
          Enqueue_loop fuel' newNodePtr
            (mkLockFreeQueue (q_nodes q) (q_alloc q) (q_head q) next)
      end
  end.

Definition Enqueue (data : Packet) (q : LockFreeQueue)
  : option (bool * LockFreeQueue) :=
  let newNodePtr := q_alloc q in
  let q :=
    mkLockFreeQueue (<[newNodePtr := mkQueueNode None (Some data)]> (q_nodes q))
                    (S (q_alloc q)) (q_head q) (q_tail q) in
  Enqueue_loop (S (size (q_nodes q))) newNodePtr q.

Fixpoint Dequeue_loop (fuel : nat) (q : LockFreeQueue)
  : option (option Packet * LockFreeQueue) :=
  match fuel with
  | O => None
  | S fuel' =>
      let head := q_head q in
      let tail := q_tail q in
      headNode ← q_nodes q !! head;
      let next := n_next headNode in
      if bool_decide (head = tail) then
        match next with
        | None => Some (None, q)
        | Some next =>
            Dequeue_loop fuel'
              (mkLockFreeQueue (q_nodes q) (q_alloc q) (q_head q) next)
        end
      else
        match next with
        | None => Dequeue_loop fuel' q
        | Some next =>
            nextNode ← q_nodes q !! next;
            Some (n_data nextNode,
                  mkLockFreeQueue (q_nodes q) (q_alloc q) next (q_tail q))
        end
  end.

Definition Dequeue (q : LockFreeQueue)
  : option (option Packet * LockFreeQueue) :=
  Dequeue_loop (S (size (q_nodes q))) q.

(** *** LockFreeRingBuffer *)

Record LockFreeRingBuffer : Type := mkLockFreeRingBuffer {
  rb_buffer : list (option Packet);
  rb_size : Z;
  rb_mask : Z;
  rb_head : Z;
  rb_tail : Z
}.

Definition NewLockFreeRingBuffer (size : Z) : option LockFreeRingBuffer :=
  if negb (Z.land size (u64 (size - 1)) =? 0) then None
  else
    buffer ← make_pointers size;
    Some {| rb_buffer := buffer;
            rb_size := size;
            rb_mask := u64 (size - 1);
            rb_head := 0;
            rb_tail := 0 |}.

(** The methods of the ring buffer; [Ring.Remove] is the method [Remove] of
    [LockFreeRingBuffer], the table has one of the same name. *)
Module Ring.

Definition Put (index : Z) (data : Packet) (rb : LockFreeRingBuffer)
  : option (bool * LockFreeRingBuffer) :=
  let pos := Z.land index (rb_mask rb) in
  current ← rb_buffer rb !! Z.to_nat pos;
  match current with
  | Some _ => Some (false, rb)
  | None =>
      Some (true,
            mkLockFreeRingBuffer (<[Z.to_nat pos := Some data]> (rb_buffer rb))
                                 (rb_size rb) (rb_mask rb) (rb_head rb)
                                 (rb_tail rb))
  end.

Definition Get (index : Z) (rb : LockFreeRingBuffer)
  : option (option Packet) :=
  let pos := Z.land index (rb_mask rb) in
  rb_buffer rb !! Z.to_nat pos.

Definition Remove (index : Z) (rb : LockFreeRingBuffer)
  : option (option Packet * LockFreeRingBuffer) :=
  let pos := Z.land index (rb_mask rb) in
  current ← rb_buffer rb !! Z.to_nat pos;
  match current with
  | None => Some (None, rb)
  | Some data =>
      Some (Some data,
            mkLockFreeRingBuffer (<[Z.to_nat pos := None]> (rb_buffer rb))
                                 (rb_size rb) (rb_mask rb) (rb_head rb)
                                 (rb_tail rb))
  end.

End Ring.

(** *** LockFreeReliabilityLayer *)

Record LockFreeReliabilityLayer : Type := mkLockFreeReliabilityLayer {
  nextSeqNum : Z;                                (* uint64 *)
  unackedTable : LockFreeHashTable UnackedEntry;
  recvQueue : LockFreeQueue;
  orderBuffer : LockFreeRingBuffer;
  windowSize : Z;                                (* uint32 *)
  congWindow : Z;                                (* uint32 *)
  rttEstimate : Z;                               (* uint64, nanoseconds *)
  timeoutBase : Z;                               (* uint64, nanoseconds *)
  packetsSent : Z;                               (* uint64 *)
  packetsRecv : Z;
  packetsLost : Z;
  packetsRetr : Z
}.

Definition set_nextSeqNum (v : Z) (rf : LockFreeReliabilityLayer)
  : LockFreeReliabilityLayer :=
  mkLockFreeReliabilityLayer v (unackedTable rf) (recvQueue rf)
    (orderBuffer rf) (windowSize rf) (congWindow rf) (rttEstimate rf)
    (timeoutBase rf) (packetsSent rf) (packetsRecv rf) (packetsLost rf)
    (packetsRetr rf).

Definition set_unackedTable (v : LockFreeHashTable UnackedEntry)
    (rf : LockFreeReliabilityLayer) : LockFreeReliabilityLayer :=
  mkLockFreeReliabilityLayer (nextSeqNum rf) v (recvQueue rf)
    (orderBuffer rf) (windowSize rf) (congWindow rf) (rttEstimate rf)
    (timeoutBase rf) (packetsSent rf) (packetsRecv rf) (packetsLost rf)
    (packetsRetr rf).

Definition set_recvQueue (v : LockFreeQueue) (rf : LockFreeReliabilityLayer)
  : LockFreeReliabilityLayer :=
  mkLockFreeReliabilityLayer (nextSeqNum rf) (unackedTable rf) v
    (orderBuffer rf) (windowSize rf) (congWindow rf) (rttEstimate rf)
    (timeoutBase rf) (packetsSent rf) (packetsRecv rf) (packetsLost rf)
    (packetsRetr rf).

Definition set_congWindow (v : Z) (rf : LockFreeReliabilityLayer)
  : LockFreeReliabilityLayer :=
  mkLockFreeReliabilityLayer (nextSeqNum rf) (unackedTable rf) (recvQueue rf)
    (orderBuffer rf) (windowSize rf) v (rttEstimate rf)
    (timeoutBase rf) (packetsSent rf) (packetsRecv rf) (packetsLost rf)
    (packetsRetr rf).

Definition set_rttEstimate (v : Z) (rf : LockFreeReliabilityLayer)
  : LockFreeReliabilityLayer :=
  mkLockFreeReliabilityLayer (nextSeqNum rf) (unackedTable rf) (recvQueue rf)
    (orderBuffer rf) (windowSize rf) (congWindow rf) v
    (timeoutBase rf) (packetsSent rf) (packetsRecv rf) (packetsLost rf)
    (packetsRetr rf).

Definition set_timeoutBase (v : Z) (rf : LockFreeReliabilityLayer)
  : LockFreeReliabilityLayer :=
  mkLockFreeReliabilityLayer (nextSeqNum rf) (unackedTable rf) (recvQueue rf)
    (orderBuffer rf) (windowSize rf) (congWindow rf) (rttEstimate rf)
    v (packetsSent rf) (packetsRecv rf) (packetsLost rf) (packetsRetr rf).

(** The four performance counters. *)
Definition set_counters (sent recv lost retr : Z)
    (rf : LockFreeReliabilityLayer) : LockFreeReliabilityLayer :=
  mkLockFreeReliabilityLayer (nextSeqNum rf) (unackedTable rf) (recvQueue rf)
    (orderBuffer rf) (windowSize rf) (congWindow rf) (rttEstimate rf)
    (timeoutBase rf) sent recv lost retr.

Definition NewLockFreeReliabilityLayer : option LockFreeReliabilityLayer :=
  table ← NewLockFreeHashTable 16384;
  let queue := NewLockFreeQueue 8192 in
  ring ← NewLockFreeRingBuffer 4096;
  Some {| nextSeqNum := 1;
          unackedTable := table;
          recvQueue := queue;
          orderBuffer := ring;
          windowSize := 32;
          congWindow := 1;
          rttEstimate := u64 (100 * Millisecond);
          timeoutBase := u64 (1000 * Millisecond);
          packetsSent := 0;
          packetsRecv := 0;
          packetsLost := 0;
          packetsRetr := 0 |}.

Definition GetNextSeqNum (rf : LockFreeReliabilityLayer)
  : Z * LockFreeReliabilityLayer :=
  let new := u64 (nextSeqNum rf + 1) in
  (u32 (u64 (new - 1)), set_nextSeqNum new rf).

Definition SendPacket (now : Z) (packet : Packet)
    (rf : LockFreeReliabilityLayer)
  : option (bool * LockFreeReliabilityLayer) :=
  if negb (IsDataPacket packet) then Some (true, rf)
  else
    let entry := mkUnackedEntry packet now 0 in
    '(success, table) ← Insert (SeqNum packet) entry (unackedTable rf);
    let rf := set_unackedTable table rf in
    let rf :=
      if success : bool
      then set_counters (u64 (packetsSent rf + 1)) (packetsRecv rf)
                        (packetsLost rf) (packetsRetr rf) rf
      else rf in
    Some (success, rf).

Definition updateRTTAtomic (sampleRTT : Z) (rf : LockFreeReliabilityLayer)
  : LockFreeReliabilityLayer :=
  let oldRTT := rttEstimate rf in
  let newRTT := u64 (oldRTT * 7 + sampleRTT) / 8 in
  let rf := set_rttEstimate newRTT rf in
  let newTimeout := u64 (newRTT * 4) in
  let newTimeout :=
    if newTimeout <? u64 (100 * Millisecond) then u64 (100 * Millisecond)
    else newTimeout in
  let newTimeout :=
    if u64 (5 * Second) <? newTimeout then u64 (5 * Second) else newTimeout in
  set_timeoutBase newTimeout rf.

(** [1 / oldWindow] panics when the window is zero. *)
Definition updateCongestionWindow (success : bool)
    (rf : LockFreeReliabilityLayer) : option LockFreeReliabilityLayer :=
  let oldWindow := congWindow rf in
  if success then
    newWindow ←
      (if oldWindow <? windowSize rf / 2 then Some (u32 (oldWindow + 1))
       else if oldWindow =? 0 then None
       else Some (u32 (oldWindow + 1 / oldWindow)));
    let newWindow :=
      if windowSize rf <? newWindow then windowSize rf else newWindow in
    Some (set_congWindow newWindow rf)
  else
    let newWindow := oldWindow / 2 in
    let newWindow := if newWindow <? 1 then 1 else newWindow in
    Some (set_congWindow newWindow rf).

Definition HandleAck (now : Z) (ackPacket : Packet)
    (rf : LockFreeReliabilityLayer)
  : option (bool * LockFreeReliabilityLayer) :=
  if negb (HasAck ackPacket) then Some (false, rf)
  else
    let seqNum := u32 (AckNum ackPacket - 1) in
    '(entryPtr, table) ← Remove seqNum (unackedTable rf);
    let rf := set_unackedTable table rf in
    match entryPtr with
    | None => Some (false, rf)
    | Some entry =>
        let rtt := u64 (now - SendTime entry) in
        let rf := updateRTTAtomic rtt rf in
        rf ← updateCongestionWindow true rf;
        Some (true, rf)
    end.

(** [isDuplicate]: "For now, assume no duplicates". *)
Definition isDuplicate (seqNum : Z) (rf : LockFreeReliabilityLayer) : bool :=
  false.

(** [markReceived]: "TODO: Implement lock-free received packet tracking". *)
Definition markReceived (seqNum : Z) (rf : LockFreeReliabilityLayer)
  : LockFreeReliabilityLayer :=
  rf.

Definition ReceivePacket (packet : Packet) (rf : LockFreeReliabilityLayer)
  : option (bool * LockFreeReliabilityLayer) :=
  if negb (IsDataPacket packet) then Some (true, rf)
  else if isDuplicate (SeqNum packet) rf then Some (false, rf)
  else
    '(success, queue) ← Enqueue packet (recvQueue rf);
    let rf := set_recvQueue queue rf in
    let rf :=
      if success : bool
      then markReceived (SeqNum packet)
             (set_counters (packetsSent rf) (u64 (packetsRecv rf + 1))
                           (packetsLost rf) (packetsRetr rf) rf)
      else rf in
    Some (success, rf).

(** The callback that [GetTimedOutPackets] passes to [ForEach].  It captures
    [now], [timeout], the slice [timedOut] and the engine, whose scalar
    fields it updates. *)
Definition scan_entry (now timeout : Z) (key : Z) (entry : UnackedEntry)
    (captured : list Packet * LockFreeReliabilityLayer)
  : option (bool * UnackedEntry * (list Packet * LockFreeReliabilityLayer)) :=
  let '(timedOut, rf) := captured in
  if timeout <? u64 (now - SendTime entry) then
    let timedOut := timedOut ++ [Packet_ entry] in
    let entry :=
      mkUnackedEntry (Packet_ entry) (SendTime entry)
                     (u32 (RetryCount entry + 1)) in
    let rf :=
      set_counters (packetsSent rf) (packetsRecv rf) (packetsLost rf)
                   (u64 (packetsRetr rf + 1)) rf in
    let entry := mkUnackedEntry (Packet_ entry) now (RetryCount entry) in
    rf ← updateCongestionWindow false rf;
    Some (true, entry, (timedOut, rf))
  else Some (true, entry, (timedOut, rf)).

Definition GetTimedOutPackets (now : Z) (rf : LockFreeReliabilityLayer)
  : option (list Packet * LockFreeReliabilityLayer) :=
  let timeout := timeoutBase rf in
  '(table, (timedOut, rf)) ←
    ForEach (scan_entry now timeout) (unackedTable rf) ([], rf);
  let rf := set_unackedTable table rf in
  let rf :=
    if 0 <? len timedOut
    then set_counters (packetsSent rf) (packetsRecv rf)
                      (u64 (packetsLost rf + len timedOut)) (packetsRetr rf) rf
    else rf in
  Some (timedOut, rf).

(** The loop of [GetOrderedPackets]: dequeue until the queue is empty. *)
Fixpoint dequeue_all (fuel : nat) (q : LockFreeQueue)
    (orderedPackets : list Packet) : option (list Packet * LockFreeQueue) :=
  match fuel with
  | O => None
  | S fuel' =>
      '(packetPtr, q) ← Dequeue q;
      match packetPtr with
      | None => Some (orderedPackets, q)
      | Some packet => dequeue_all fuel' q (orderedPackets ++ [packet])
      end
  end.

Definition GetOrderedPackets (rf : LockFreeReliabilityLayer)
  : option (list Packet * LockFreeReliabilityLayer) :=
  '(orderedPackets, queue) ←
    dequeue_all (S (size (q_nodes (recvQueue rf)))) (recvQueue rf) [];
  Some (orderedPackets, set_recvQueue queue rf).

Record ReliabilityStats : Type := mkReliabilityStats {
  PacketsSent : Z;            (* uint64 *)
  PacketsReceived : Z;
  PacketsLost : Z;
  PacketsRetransmitted : Z;
  CongestionWindow : Z;       (* uint32 *)
  WindowSize : Z;
  RTTEstimate : Z;            (* time.Duration *)
  TimeoutValue : Z
}.

(** [time.Duration(...)] converts the [uint64] to [int64]. *)
Definition GetStats (rf : LockFreeReliabilityLayer) : ReliabilityStats :=
  {| PacketsSent := packetsSent rf;
     PacketsReceived := packetsRecv rf;
     PacketsLost := packetsLost rf;
     PacketsRetransmitted := packetsRetr rf;
     CongestionWindow := congWindow rf;
     WindowSize := windowSize rf;
     RTTEstimate := i64 (rttEstimate rf);
     TimeoutValue := i64 (timeoutBase rf) |}.

(** The bound below which [updateCongestionWindow] is in slow start: the
    engine has no threshold field, it compares the window with half of
    [windowSize]. *)
Definition slow_start_threshold (rf : LockFreeReliabilityLayer) : Z :=
  windowSize rf / 2.

(** The bucket that [seqNum] hashes to holds the entry [entry]: the entry
    that [Remove] hands to [HandleAck] for this sequence number. *)
Definition tracked (seqNum : Z) (entry : UnackedEntry)
    (rf : LockFreeReliabilityLayer) : Prop :=
  ht_buckets (unackedTable rf)
    !! Z.to_nat (Z.land seqNum (ht_mask (unackedTable rf)))
  = Some (Some entry).

(** The timeout scan, entry by entry: whether an entry has been
    unacknowledged for longer than [timeout] at time [now], and the entry once
    the scan has returned it. *)
Definition expired (now timeout : Z) (entry : UnackedEntry) : bool :=
  timeout <? u64 (now - SendTime entry).

Definition refresh (now : Z) (entry : UnackedEntry) : UnackedEntry :=
  mkUnackedEntry (Packet_ entry) now (u32 (RetryCount entry + 1)).

Definition scan_bucket (now timeout : Z) (bucket : option UnackedEntry)
  : option UnackedEntry :=
  (fun entry => if expired now timeout entry then refresh now entry else entry)
    <$> bucket.

Definition expired_packets (now timeout : Z)
    (buckets : list (option UnackedEntry)) : list Packet :=
  omap (fun bucket : option UnackedEntry =>
          entry ← bucket;
          if expired now timeout entry then Some (Packet_ entry) else None)
       buckets.

(** What the scan does to the engine's scalars for one returned entry. *)
Definition loss_step (rf : LockFreeReliabilityLayer)
  : LockFreeReliabilityLayer :=
  let rf :=
    set_counters (packetsSent rf) (packetsRecv rf) (packetsLost rf)
                 (u64 (packetsRetr rf + 1)) rf in
  set_congWindow
    (if congWindow rf / 2 <? 1 then 1 else congWindow rf / 2) rf.

End LockFree.

(** ** ultra_fast_server.go: the packet path and the string helpers

    The server keeps a lock-free engine.  Of the handlers, the embedding has
    what touches the codec and the engine; the socket calls are left out, a
    datagram handed to [SendTo] is returned. *)

(** [sendHTTPResponse], from the serialized response [responseData] on:
    [sendOk] tells whether [SendTo] succeeded.  The datagram is returned with
    the engine. *)
Definition sendHTTPResponse (now : Z) (sendOk : bool) (responseData : list Z)
    (rf : LockFree.LockFreeReliabilityLayer)
  : option (list Z * LockFree.LockFreeReliabilityLayer) :=
  let '(seqNum, rf) := LockFree.GetNextSeqNum rf in
  let packet := NewPacket DATA_PACKET 0 seqNum 0 responseData in
  '(packetData, packet) ← Serialize packet;
  if negb sendOk then Some (packetData, rf)
  else
    '(_, rf) ← LockFree.SendPacket now packet rf;
    Some (packetData, rf).

(** The acknowledgment that [handleDataPacket] sends for a DATA packet
    before it looks at the payload: the datagram [ackData]. *)
Definition handleDataPacket_ack (packet : Packet) : option (list Z) :=
  let ackPacket :=
    NewPacket ACK_PACKET ACK_FLAG 0 (u32 (SeqNum packet + 1)) [] in
  '(ackData, _) ← Serialize ackPacket;
  Some ackData.

(** [s[lo:hi]], which panics unless [0 <= lo <= hi <= len(s)]. *)
Definition slice {A : Type} (s : list A) (lo hi : Z) : option (list A) :=
  if (0 <=? lo) && (lo <=? hi) && (hi <=? len s)
  then Some (take (Z.to_nat (hi - lo)) (drop (Z.to_nat lo) s))
  else None.

(** [s[i]], which panics unless [0 <= i < len(s)]. *)
Definition char_at (s : list ascii) (i : Z) : option ascii :=
  if i <? 0 then None else s !! Z.to_nat i.

(** The loop of [splitString], entered at the test [i <= len(s)-len(sep)].
    With a separator that is not empty [i] grows in every round and
    [len(s) + 1] rounds suffice; with the empty separator [i] stays where it
    is and the loop never ends. *)
Fixpoint splitString_loop (fuel : nat) (s sep : list ascii) (i start : Z)
    (result : list (list ascii)) : option (list (list ascii)) :=
  if i <=? len s - len sep then
    match fuel with
    | O => None
    | S fuel' =>
        window ← slice s i (i + len sep);
        if bool_decide (window = sep) then
          piece ← slice s start i;
          let result := result ++ [piece] in
          let start := i + len sep in
          let i := i + (len sep - 1) in
          splitString_loop fuel' s sep (i + 1) start result
        else splitString_loop fuel' s sep (i + 1) start result
    end
  else
    piece ← slice s start (len s);
    Some (result ++ [piece]).

Definition splitString (s sep : list ascii) : option (list (list ascii)) :=
  if bool_decide (s = []) then Some []
  else splitString_loop (S (length s)) s sep 0 0 [].

Fixpoint findChar_from (s : list ascii) (c : ascii) (i : Z) : Z :=
  match s with
  | [] => -1
  | x :: s' => if bool_decide (x = c) then i else findChar_from s' c (i + 1)
  end.

Definition findChar (s : list ascii) (c : ascii) : Z := findChar_from s c 0.

(** [c == ' ' || c == '\t'] *)
Definition is_blank (c : ascii) : bool :=
  bool_decide (c = " "%char) || bool_decide (c = "009"%char).

(** The two loops of [trimSpace]; [n] is [end - start], the number of rounds
    that the test [start < end] still lets through. *)
Fixpoint trimSpace_start (n : nat) (s : list ascii) (start : Z) : option Z :=
  match n with
  | O => Some start
  | S n' =>
      c ← char_at s start;
      if is_blank c then trimSpace_start n' s (start + 1) else Some start
  end.

Fixpoint trimSpace_end (n : nat) (s : list ascii) (end_ : Z) : option Z :=
  match n with
  | O => Some end_
  | S n' =>
      c ← char_at s (end_ - 1);
      if is_blank c then trimSpace_end n' s (end_ - 1) else Some end_
  end.

Definition trimSpace (s : list ascii) : option (list ascii) :=
  start ← trimSpace_start (Z.to_nat (len s - 0)) s 0;
  end_ ← trimSpace_end (Z.to_nat (len s - start)) s (len s);
  slice s start end_.

(** The wire image of a packet's header, given the checksum bytes [c]:
    what the header writes of [Serialize] leave in the first sixteen bytes of
    the buffer ([Serialize_header]). *)
Definition header_bytes (p : Packet) (c : Z) : list Z :=
  [ Z.lor (u8 (Z.shiftl (Version p) 4)) (Z.land (Type_ p) 0x0F);
    Flags p;
    Z.land (htons (Length p)) 0xff;
    Z.land (Z.shiftr (htons (Length p)) 8) 0xff;
    Z.land (htonl (SeqNum p)) 0xff;
    Z.land (Z.shiftr (htonl (SeqNum p)) 8) 0xff;
    Z.land (Z.shiftr (htonl (SeqNum p)) 16) 0xff;
    Z.land (Z.shiftr (htonl (SeqNum p)) 24) 0xff;
    Z.land (htonl (AckNum p)) 0xff;
    Z.land (Z.shiftr (htonl (AckNum p)) 8) 0xff;
    Z.land (Z.shiftr (htonl (AckNum p)) 16) 0xff;
    Z.land (Z.shiftr (htonl (AckNum p)) 24) 0xff;
    Z.land c 0xff;
    Z.land (Z.shiftr c 8) 0xff;
    Z.land (Z.shiftr c 16) 0xff;
    Z.land (Z.shiftr c 24) 0xff ].

(** The round trip of the codec at one input: the packet built by
    [NewPacket] serializes, the bytes decode, and the decoded packet is the
    sender's packet (as [Serialize] leaves it, checksum filled in), whose
    fields are the arguments, the payload cut at [MAX_PAYLOAD_SIZE]. *)
Definition roundtrip_exact (packetType flags seqNum ackNum : Z)
    (payload : list Z) : Prop :=
  exists (buf : list Z) (sent : Packet),
    Serialize (NewPacket packetType flags seqNum ackNum payload)
      = Some (buf, sent)
    /\ DeserializePacket buf = Some (Ok sent)
    /\ Version sent = PROTOCOL_VERSION
    /\ Type_ sent = packetType
    /\ Flags sent = flags
    /\ Length sent = PACKET_HEADER_SIZE + len (Payload sent)
    /\ SeqNum sent = seqNum
    /\ AckNum sent = ackNum
    /\ Payload sent = take (Z.to_nat MAX_PAYLOAD_SIZE) payload.

(** ** Runs of the receive path

    A run of the receive path of an engine: packets come in through
    [ReceivePacket], and the application drains the engine through
    [GetOrderedPackets] from time to time.  The run returns the engine and
    all the packets delivered to the application, in order of delivery. *)

Inductive ReceiveOp : Type :=
  | OpReceive (packet : Packet)
  | OpDrain.

Fixpoint locked_run (ops : list ReceiveOp) (r : Locked.ReliabilityLayer)
    (delivered : list Packet) : option (Locked.ReliabilityLayer * list Packet) :=
  match ops with
  | [] => Some (r, delivered)
  | OpReceive packet :: ops =>
      locked_run ops (Locked.ReceivePacket packet r).2 delivered
  | OpDrain :: ops =>
      '(orderedPackets, r) ← Locked.GetOrderedPackets r;
      locked_run ops r (delivered ++ orderedPackets)
  end.

Fixpoint lockfree_run (ops : list ReceiveOp)
    (rf : LockFree.LockFreeReliabilityLayer) (delivered : list Packet)
  : option (LockFree.LockFreeReliabilityLayer * list Packet) :=
  match ops with
  | [] => Some (rf, delivered)
  | OpReceive packet :: ops =>
      '(_, rf) ← LockFree.ReceivePacket packet rf;
      lockfree_run ops rf delivered
  | OpDrain :: ops =>
      '(orderedPackets, rf) ← LockFree.GetOrderedPackets rf;
      lockfree_run ops rf (delivered ++ orderedPackets)
  end.

(** [n] consecutive sequence numbers from [next] on, wrapping at 32 bits. *)
Fixpoint consecutive (next : Z) (n : nat) : list Z :=
  match n with
  | O => []
  | S n' => next :: consecutive (u32 (next + 1)) n'
  end.

(** What ties the receive state of the lock-protected engine to the packets
    delivered so far: a buffered packet sits under its own sequence number,
    which is marked as seen; a delivered sequence number is marked as seen and
    no longer buffered; nothing was delivered twice. *)
Definition ordering_inv (seen : gmap Z bool) (buf : gmap Z Packet)
    (delivered : list Packet) : Prop :=
  (forall k p, buf !! k = Some p -> SeqNum p = k /\ seen !! k = Some true)
  /\ (forall p, p ∈ delivered ->
        seen !! SeqNum p = Some true /\ buf !! SeqNum p = None)
  /\ NoDup (SeqNum <$> delivered).

(** ** Reachable states of the lock-free engine *)

(** One call of a method of the lock-free engine that returns. *)
Inductive lockfree_step
  : LockFree.LockFreeReliabilityLayer -> LockFree.LockFreeReliabilityLayer
    -> Prop :=
  | step_GetNextSeqNum rf :
      lockfree_step rf (LockFree.GetNextSeqNum rf).2
  | step_SendPacket now packet rf ok rf' :
      LockFree.SendPacket now packet rf = Some (ok, rf') ->
      lockfree_step rf rf'
  | step_HandleAck now ackPacket rf ok rf' :
      LockFree.HandleAck now ackPacket rf = Some (ok, rf') ->
      lockfree_step rf rf'
  | step_ReceivePacket packet rf ok rf' :
      LockFree.ReceivePacket packet rf = Some (ok, rf') ->
      lockfree_step rf rf'
  | step_GetTimedOutPackets now rf timedOut rf' :
      LockFree.GetTimedOutPackets now rf = Some (timedOut, rf') ->
      lockfree_step rf rf'
  | step_GetOrderedPackets rf orderedPackets rf' :
      LockFree.GetOrderedPackets rf = Some (orderedPackets, rf') ->
      lockfree_step rf rf'.

Inductive lockfree_reachable : LockFree.LockFreeReliabilityLayer -> Prop :=
  | reachable_new rf :
      LockFree.NewLockFreeReliabilityLayer = Some rf ->
      lockfree_reachable rf
  | reachable_step rf rf' :
      lockfree_reachable rf -> lockfree_step rf rf' ->
      lockfree_reachable rf'.

(** What every reachable state satisfies ([lockfree_reachable_inv]): the
    window size is the initial one, the congestion window lies between 1 and
    the window size, the table has as many buckets as its [size] says, and
    the round-trip estimate is not negative. *)
Definition lockfree_inv (rf : LockFree.LockFreeReliabilityLayer) : Prop :=
  LockFree.windowSize rf = 32
  /\ 1 <= LockFree.congWindow rf <= LockFree.windowSize rf
  /\ LockFree.ht_size (LockFree.unackedTable rf)
     = len (LockFree.ht_buckets (LockFree.unackedTable rf))
  /\ 0 <= LockFree.rttEstimate rf.

(** ** Round-trip time estimation, as the statements refer to it *)





(** ** Reachable states of the lock-protected engine *)

(** One call of a public method of the lock-protected engine. *)
Inductive locked_step
  : Locked.ReliabilityLayer -> Locked.ReliabilityLayer -> Prop :=
  | lstep_GetNextSeqNum r :
      locked_step r (Locked.GetNextSeqNum r).2
  | lstep_SendPacket now packet r :
      locked_step r (Locked.SendPacket now packet r)
  | lstep_SendPacketWithTimestamp packet timestamp r :
      locked_step r (Locked.SendPacketWithTimestamp packet timestamp r)
  | lstep_HandleAck now ackPacket r :
      locked_step r (Locked.HandleAck now ackPacket r).2
  | lstep_GetTimedOutPackets now r :
      locked_step r (Locked.GetTimedOutPackets now r).2
  | lstep_MarkPacketReceived packet r :
      locked_step r (Locked.MarkPacketReceived packet r)
  | lstep_ReceivePacket packet r :
      locked_step r (Locked.ReceivePacket packet r).2
  | lstep_GetOrderedPackets r orderedPackets r' :
      Locked.GetOrderedPackets r = Some (orderedPackets, r') ->
      locked_step r r'
  | lstep_SetWindowSize size r :
      locked_step r (Locked.SetWindowSize size r)
  | lstep_SimulatePacketLoss r :
      locked_step r (Locked.SimulatePacketLoss r)
  | lstep_SetRetransmissionTimeout timeout r :
      locked_step r (Locked.SetRetransmissionTimeout timeout r)
  | lstep_SetMaxBufferSize size r :
      locked_step r (Locked.SetMaxBufferSize size r).

Inductive locked_reachable : Locked.ReliabilityLayer -> Prop :=
  | lreachable_new : locked_reachable Locked.NewReliabilityLayer
  | lreachable_step r r' :
      locked_reachable r -> locked_step r r' -> locked_reachable r'.

(** [n] calls of [GetNextSeqNum] in a row: the numbers handed out. *)
Fixpoint locked_seq_nums (n : nat) (r : Locked.ReliabilityLayer)
  : list Z * Locked.ReliabilityLayer :=
  match n with
  | O => ([], r)
  | S n' =>
      let '(seqNum, r) := Locked.GetNextSeqNum r in
      let '(seqNums, r) := locked_seq_nums n' r in
      (seqNum :: seqNums, r)
  end.

Fixpoint lockfree_seq_nums (n : nat) (rf : LockFree.LockFreeReliabilityLayer)
  : list Z * LockFree.LockFreeReliabilityLayer :=
  match n with
  | O => ([], rf)
  | S n' =>
      let '(seqNum, rf) := LockFree.GetNextSeqNum rf in
      let '(seqNums, rf) := lockfree_seq_nums n' rf in
      (seqNum :: seqNums, rf)
  end.

(** The packets of a list sent one after the other at time [now]. *)
Definition send_all (now : Z) (packets : list Packet)
    (r : Locked.ReliabilityLayer) : Locked.ReliabilityLayer :=
  foldl (fun r packet => Locked.SendPacket now packet r) r packets.

(** The packets of a list received one after the other. *)
Definition receive_all (packets : list Packet) (r : Locked.ReliabilityLayer)
  : Locked.ReliabilityLayer :=
  foldl (fun r packet => (Locked.ReceivePacket packet r).2) r packets.

(** What every reachable state of the lock-protected engine satisfies
    ([locked_reachable_bounds]). *)
Definition locked_inv (r : Locked.ReliabilityLayer) : Prop :=
  1 <= Locked.congestionWindow r <= 32
  /\ 1 <= Locked.ssthresh r <= 32
  /\ (Locked.congestionWindow r <= Locked.ssthresh r
      \/ Locked.congestionWindow r <= 2)
  /\ len (Locked.rttSamples r) <= 10
  /\ is_u32 (Locked.nextSeqNum r)
  /\ is_u32 (Locked.nextExpectedSeq r)
  /\ (forall k p, Locked.orderingBuffer r !! k = Some p ->
        SeqNum p = k /\ Locked.receivedSeqs r !! k = Some true).

(** ** The queue of the lock-free engine as a list

    The nodes from [a] to [last] carry [items]: the node at [a] is the dummy
    (its packet was handed out already), every node points to one allocated
    after it, and [last] has no successor. *)
Fixpoint chain (nodes : gmap nat LockFree.QueueNode) (a : nat)
    (items : list Packet) (last : nat) : Prop :=
  match items with
  | [] => a = last /\ (LockFree.n_next <$> nodes !! a) = Some None
  | x :: items' =>
      exists b : nat,
        (LockFree.n_next <$> nodes !! a) = Some (Some b)
        /\ (a < b)%nat
        /\ (LockFree.n_data <$> nodes !! b) = Some (Some x)
        /\ chain nodes b items' last
  end.

(** The queue holds [items], oldest first. *)
Definition queue_repr (q : LockFree.LockFreeQueue) (items : list Packet)
  : Prop :=
  chain (LockFree.q_nodes q) (LockFree.q_head q) items (LockFree.q_tail q)
  /\ (LockFree.q_tail q < LockFree.q_alloc q)%nat
  /\ (forall a, (LockFree.q_alloc q <= a)%nat -> LockFree.q_nodes q !! a = None)
  /\ size (LockFree.q_nodes q) = LockFree.q_alloc q.

(** The DATA packets among the packets received in a run. *)
Fixpoint received_data (ops : list ReceiveOp) : list Packet :=
  match ops with
  | [] => []
  | OpReceive packet :: ops =>
      if IsDataPacket packet then packet :: received_data ops
      else received_data ops
  | OpDrain :: ops => received_data ops
  end.

(** ** What the lock-free engine keeps

    Beyond [lockfree_inv]: the congestion window stays at or below half of
    the window size, the table keeps its 16384 buckets and its mask, the
    timeout stays between 100 milliseconds and 5 seconds, the round-trip
    estimate stays below [2^61], the scan counts as many lost packets as
    retransmissions, and the receive queue is a well-formed list. *)
Definition lockfree_safe (rf : LockFree.LockFreeReliabilityLayer) : Prop :=
  lockfree_inv rf
  /\ LockFree.congWindow rf <= 16
  /\ LockFree.ht_mask (LockFree.unackedTable rf) = 16383
  /\ len (LockFree.ht_buckets (LockFree.unackedTable rf)) = 16384
  /\ 100 * Millisecond <= LockFree.timeoutBase rf <= 5 * Second
  /\ LockFree.rttEstimate rf < 2 ^ 61
  /\ LockFree.packetsLost rf = LockFree.packetsRetr rf
  /\ exists items, queue_repr (LockFree.recvQueue rf) items.

(** The index computed from a key stays inside the buckets. *)
Definition table_wf {V : Type} (ht : LockFree.LockFreeHashTable V) : Prop :=
  0 <= LockFree.ht_mask ht < len (LockFree.ht_buckets ht).

Definition ring_wf (rb : LockFree.LockFreeRingBuffer) : Prop :=
  0 <= LockFree.rb_mask rb < len (LockFree.rb_buffer rb).

(** ** Dotted-decimal text of an address

    [Bind] and [RecvFrom] print an address with
    [fmt.Sprintf("%d.%d.%d.%d", ...)]; [SendTo] reads such a text back with
    [parseIPv4].  [format_byte] is the text that ["%d"] gives for a byte:
    its decimal digits without leading zeros. *)
Definition digit_char (d : Z) : ascii := ascii_of_N (Z.to_N (48 + d)).

Definition format_byte (n : Z) : list ascii :=
  if n <? 10 then [digit_char n]
  else if n <? 100 then [digit_char (n / 10); digit_char (n mod 10)]
  else [digit_char (n / 100); digit_char (n / 10 mod 10); digit_char (n mod 10)].

Definition format_ipv4 (a b c d : Z) : list ascii :=
  format_byte a ++ "."%char :: format_byte b ++ "."%char :: format_byte c
    ++ "."%char :: format_byte d.

(** The characters [parseIPv4] lets through. *)
Definition is_digit (c : ascii) : Prop := 48 <= byte_of_char c <= 57.

(** The pieces of [splitString], each followed by the separator. *)
Fixpoint pieces_with_sep (pieces : list (list ascii)) (sep : list ascii)
  : list ascii :=
  match pieces with
  | [] => []
  | piece :: pieces' => piece ++ sep ++ pieces_with_sep pieces' sep
  end.

(** An octet of a dotted-decimal text that may be left empty. *)
Definition format_octet (octet : option Z) : list ascii :=
  match octet with
  | Some n => format_byte n
  | None => []
  end.

(** ** Packets and engine states used as concrete inputs *)

(** A header-sized datagram announcing protocol version 2 and a total length
    of 17 bytes. *)
Definition bad_version_and_length : list Z :=
  [0x21; 0; 0; 17; 0; 0; 0; 0; 0; 0; 0; 0; 0; 0; 0; 0].

Definition data_packet (seqNum : Z) : Packet :=
  NewPacket DATA_PACKET 0 seqNum 0 [].

Definition ack_packet (ackNum : Z) : Packet :=
  NewPacket ACK_PACKET ACK_FLAG 0 ackNum [].

(** A lock-protected engine in congestion avoidance (window 5, threshold 4)
    with the DATA packet 100, sent at time 0, in flight. *)
Definition locked_in_avoidance : Locked.ReliabilityLayer :=
  Locked.SendPacketWithTimestamp (data_packet 100) 0
    (Locked.set_congestion 5 4 Locked.NewReliabilityLayer).

(** A lock-free engine over a table of four buckets, with the given
    congestion window and the DATA packet 1, sent at time 0, in flight. *)
Definition lockfree_small (congWindow : Z)
  : LockFree.LockFreeReliabilityLayer :=
  {| LockFree.nextSeqNum := 2;
     LockFree.unackedTable :=
       LockFree.mkLockFreeHashTable
         [None; Some (LockFree.mkUnackedEntry (data_packet 1) 0 0); None; None]
         4 3;
     LockFree.recvQueue := LockFree.NewLockFreeQueue 8192;
     LockFree.orderBuffer := LockFree.mkLockFreeRingBuffer [None] 1 0 0 0;
     LockFree.windowSize := 32;
     LockFree.congWindow := congWindow;
     LockFree.rttEstimate := 100 * Millisecond;
     LockFree.timeoutBase := 1000 * Millisecond;
     LockFree.packetsSent := 1;
     LockFree.packetsRecv := 0;
     LockFree.packetsLost := 0;
     LockFree.packetsRetr := 0 |}.

(** A lock-protected engine whose ordering buffer is limited to two
    packets, after it received the DATA packet 900, and after 901 too. *)
Definition locked_one_of_two : Locked.ReliabilityLayer :=
  (Locked.ReceivePacket (data_packet 900)
     (Locked.SetMaxBufferSize 2 Locked.NewReliabilityLayer)).2.

Definition locked_full : Locked.ReliabilityLayer :=
  (Locked.ReceivePacket (data_packet 901) locked_one_of_two).2.

(** A fresh lock-protected engine that sent the DATA packet [seqNum] at
    time 0. *)
Definition locked_sent (seqNum : Z) : Locked.ReliabilityLayer :=
  Locked.SendPacketWithTimestamp (data_packet seqNum) 0
    Locked.NewReliabilityLayer.

(** A fresh lock-protected engine after the DATA packets 503, 501 and 502
    arrived in that order. *)
Definition locked_received_503_501_502 : Locked.ReliabilityLayer :=
  (Locked.ReceivePacket (data_packet 502)
     (Locked.ReceivePacket (data_packet 501)
        (Locked.ReceivePacket (data_packet 503)
           Locked.NewReliabilityLayer).2).2).2.

(** The same arrivals at an engine whose next expected sequence number
    is 501 (the field has no setter in the source; a fresh engine has 1). *)
Definition locked_expecting_501 : Locked.ReliabilityLayer :=
  Locked.set_ordering ∅ 501 Locked.NewReliabilityLayer.

(** The run of the receive path in which the DATA packet 7 arrives twice and
    the application then drains the engine. *)
Definition duplicate_run : list ReceiveOp :=
  [OpReceive (data_packet 7); OpReceive (data_packet 7); OpDrain].


(** The datagram of the DATA packet 7 with the payload ["hi"]. *)
Definition datagram_hi : list Z :=
  [17; 0; 0; 18; 0; 0; 0; 7; 0; 0; 0; 0; 255; 255; 134; 125; 104; 105].

(** A table and a ring buffer of four empty slots. *)
Definition table_of_four : LockFree.LockFreeHashTable Z :=
  LockFree.mkLockFreeHashTable [None; None; None; None] 4 3.

Definition ring_of_four : LockFree.LockFreeRingBuffer :=
  LockFree.mkLockFreeRingBuffer [None; None; None; None] 4 3 0 0.


(** * Properties *)

(** Closes a closed goal by evaluation. *)
Ltac by_compute :=
  vm_compute; repeat split; first [discriminate | reflexivity].

(** ** Bit-level facts about the byte-order helpers *)

Lemma testbit_above v k n :
  0 <= v < 2 ^ k -> 0 <= k <= n -> Z.testbit v n = false.
Proof.
  intros Hv Hk. rewrite <- (Z.mod_small v (2 ^ k)) by lia.
  apply Z.mod_pow2_bits_high. lia.
Qed.

Lemma below_pow2_of_bits v k :
  0 <= k -> 0 <= v -> (forall n, k <= n -> Z.testbit v n = false) -> v < 2 ^ k.
Proof.
  intros Hk Hv Hb.
  destruct (Z.eq_dec v 0) as [->|Hne]; [apply Z.pow_pos_nonneg; lia|].
  assert (Hpos : 0 < v) by lia.
  pose proof (Z.bit_log2 v Hpos) as Hl.
  destruct (Z_lt_le_dec (Z.log2 v) k) as [Hlt|Hge].
  - apply Z.log2_lt_pow2; lia.
  - rewrite Hb in Hl by lia. discriminate.
Qed.

(** The masks of the source as runs of ones, so that their bits are known. *)
Ltac mask_consts :=
  change 0x000000ff with (Z.ones 8);
  change 0x0000ff00 with (Z.shiftl (Z.ones 8) 8);
  change 0x00ff0000 with (Z.shiftl (Z.ones 8) 16);
  change 0xff000000 with (Z.shiftl (Z.ones 8) 24).

Ltac to_bits :=
  repeat first
    [ rewrite Z.lor_spec | rewrite Z.land_spec
    | rewrite Z.shiftl_spec by lia | rewrite Z.shiftr_spec by lia
    | rewrite Z.testbit_ones by lia
    | rewrite Z.testbit_neg_r by lia ].

Ltac decide_cmp :=
  repeat match goal with
  | |- context [?a <? ?b] =>
      first [ rewrite (proj2 (Z.ltb_lt a b)) by lia
            | rewrite (proj2 (Z.ltb_ge a b)) by lia ]
  | |- context [?a <=? ?b] =>
      first [ rewrite (proj2 (Z.leb_le a b)) by lia
            | rewrite (proj2 (Z.leb_gt a b)) by lia ]
  end.

Ltac bool_simpl :=
  repeat first
    [ rewrite andb_true_r | rewrite andb_false_r | rewrite orb_false_r
    | rewrite orb_false_l | rewrite andb_true_l | rewrite andb_false_l ].

Ltac bits_case :=
  to_bits; decide_cmp; bool_simpl; try reflexivity; try (f_equal; lia).

Ltac nonneg_bits :=
  repeat (apply (proj2 (Z.lor_nonneg _ _)); split);
  try apply (proj2 (Z.shiftl_nonneg _ _));
  try apply (proj2 (Z.shiftr_nonneg _ _));
  try (apply Z.land_nonneg; lia); try lia.

Lemma ntohl_eq_htonl v : ntohl v = htonl v.
Proof. reflexivity. Qed.

Lemma ntohs_eq_htons v : ntohs v = htons v.
Proof. reflexivity. Qed.

Lemma htonl_testbit v n :
  0 <= n ->
  Z.testbit (htonl v) n =
    if n <? 8 then Z.testbit v (n + 24)
    else if n <? 16 then Z.testbit v (n + 8)
    else if n <? 24 then Z.testbit v (n - 8)
    else if n <? 32 then Z.testbit v (n - 24) else false.
Proof.
  intros Hn. unfold htonl. mask_consts.
  assert (Hc : n < 8 \/ 8 <= n < 16 \/ 16 <= n < 24 \/ 24 <= n < 32 \/ 32 <= n)
    by lia.
  destruct Hc as [Hc|[Hc|[Hc|[Hc|Hc]]]]; bits_case.
Qed.

Lemma htonl_nonneg v : 0 <= v -> 0 <= htonl v.
Proof. intros Hv. unfold htonl. nonneg_bits. Qed.

Lemma htonl_range v : 0 <= v -> is_u32 (htonl v).
Proof.
  intros Hv. split; [by apply htonl_nonneg|].
  apply below_pow2_of_bits; [lia|by apply htonl_nonneg|].
  intros n Hn. rewrite htonl_testbit by lia. decide_cmp. reflexivity.
Qed.

Lemma ntohl_htonl v : is_u32 v -> ntohl (htonl v) = v.
Proof.
  intros Hv. rewrite ntohl_eq_htonl. apply Z.bits_inj'. intros n Hn.
  rewrite htonl_testbit by lia.
  assert (Hc : n < 8 \/ 8 <= n < 16 \/ 16 <= n < 24 \/ 24 <= n < 32 \/ 32 <= n)
    by lia.
  destruct Hc as [Hc|[Hc|[Hc|[Hc|Hc]]]]; decide_cmp;
    try (rewrite htonl_testbit by lia; decide_cmp; f_equal; lia).
  symmetry. apply (testbit_above v 32); [exact Hv|lia].
Qed.

Lemma htons_testbit v n :
  0 <= n ->
  Z.testbit (htons v) n =
    if n <? 8 then Z.testbit v (n + 8)
    else if n <? 16 then Z.testbit v (n - 8) else false.
Proof.
  intros Hn. unfold htons, u16. rewrite <- Z.land_ones by lia. mask_consts.
  assert (Hc : n < 8 \/ 8 <= n < 16 \/ 16 <= n) by lia.
  destruct Hc as [Hc|[Hc|Hc]]; bits_case.
Qed.

Lemma htons_nonneg v : 0 <= v -> 0 <= htons v.
Proof.
  intros Hv. unfold htons, u16. nonneg_bits.
Qed.

Lemma htons_range v : 0 <= v -> is_u16 (htons v).
Proof.
  intros Hv. split; [by apply htons_nonneg|].
  apply below_pow2_of_bits; [lia|by apply htons_nonneg|].
  intros n Hn. rewrite htons_testbit by lia. decide_cmp. reflexivity.
Qed.

Lemma ntohs_htons v : is_u16 v -> ntohs (htons v) = v.
Proof.
  intros Hv. rewrite ntohs_eq_htons. apply Z.bits_inj'. intros n Hn.
  rewrite htons_testbit by lia.
  assert (Hc : n < 8 \/ 8 <= n < 16 \/ 16 <= n) by lia.
  destruct Hc as [Hc|[Hc|Hc]]; decide_cmp;
    try (rewrite htons_testbit by lia; decide_cmp; f_equal; lia).
  symmetry. apply (testbit_above v 16); [exact Hv|lia].
Qed.

(** A native store followed by a native load gives the word back. *)
Lemma le_word32_bytes v :
  is_u32 v ->
  le_word32 (Z.land v 0xff) (Z.land (Z.shiftr v 8) 0xff)
            (Z.land (Z.shiftr v 16) 0xff) (Z.land (Z.shiftr v 24) 0xff) = v.
Proof.
  intros Hv. unfold le_word32. mask_consts. apply Z.bits_inj'. intros n Hn.
  assert (Hc : n < 8 \/ 8 <= n < 16 \/ 16 <= n < 24 \/ 24 <= n < 32 \/ 32 <= n)
    by lia.
  destruct Hc as [Hc|[Hc|[Hc|[Hc|Hc]]]]; bits_case.
  symmetry. apply (testbit_above v 32); [exact Hv|lia].
Qed.

Lemma le_word16_bytes v :
  is_u16 v -> le_word16 (Z.land v 0xff) (Z.land (Z.shiftr v 8) 0xff) = v.
Proof.
  intros Hv. unfold le_word16. mask_consts. apply Z.bits_inj'. intros n Hn.
  assert (Hc : n < 8 \/ 8 <= n < 16 \/ 16 <= n) by lia.
  destruct Hc as [Hc|[Hc|Hc]]; bits_case.
  symmetry. apply (testbit_above v 16); [exact Hv|lia].
Qed.

(** The first header byte: version in the high nibble, type in the low. *)
Lemma version_nibble t :
  Z.land (Z.shiftr (Z.lor (u8 (Z.shiftl PROTOCOL_VERSION 4)) (Z.land t 0x0F)) 4)
         0x0F = PROTOCOL_VERSION.
Proof.
  change (u8 (Z.shiftl PROTOCOL_VERSION 4)) with (Z.shiftl (Z.ones 1) 4).
  change 0x0F with (Z.ones 4). change PROTOCOL_VERSION with (Z.ones 1).
  apply Z.bits_inj'. intros n Hn.
  assert (Hc : n < 1 \/ 1 <= n < 4 \/ 4 <= n) by lia.
  destruct Hc as [Hc|[Hc|Hc]]; bits_case.
Qed.

Lemma type_nibble t :
  Z.land (Z.lor (u8 (Z.shiftl PROTOCOL_VERSION 4)) (Z.land t 0x0F)) 0x0F
  = Z.land t 0x0F.
Proof.
  change (u8 (Z.shiftl PROTOCOL_VERSION 4)) with (Z.shiftl (Z.ones 1) 4).
  change 0x0F with (Z.ones 4).
  apply Z.bits_inj'. intros n Hn.
  assert (Hc : n < 4 \/ 4 <= n) by lia.
  destruct Hc as [Hc|Hc]; bits_case.
Qed.

Lemma land_nibble_small t : 0 <= t < 16 -> Z.land t 0x0F = t.
Proof.
  intros Ht. change 0x0F with (Z.ones 4). rewrite Z.land_ones by lia.
  apply Z.mod_small. lia.
Qed.

(** ** The checksum always returns *)

Lemma list_ind4 {A : Type} (P : list A -> Prop) :
  P [] ->
  (forall a, P [a]) ->
  (forall a b, P [a; b]) ->
  (forall a b c, P [a; b; c]) ->
  (forall a b c d rest, P rest -> P (a :: b :: c :: d :: rest)) ->
  forall l, P l.
Proof.
  intros H0 H1 H2 H3 H4.
  assert (Hall : forall n (l : list A), (length l <= n)%nat -> P l).
  { induction n as [|n IH]; intros l Hl.
    - destruct l; [exact H0|simpl in Hl; lia].
    - destruct l as [|a [|b [|c [|d rest]]]]; auto.
      apply H4, IH. simpl in Hl. lia. }
  intros l. by apply (Hall (length l)).
Qed.

Lemma u32_range z : is_u32 (u32 z).
Proof. unfold is_u32, u32. apply Z.mod_pos_bound. lia. Qed.

Lemma u32_small z : is_u32 z -> u32 z = z.
Proof. intros H. unfold u32. by apply Z.mod_small. Qed.

Lemma sum_words_range bs : forall sum, is_u32 sum -> is_u32 (sum_words bs sum).
Proof.
  induction bs as [|a|a b|a b c|a b c d rest IH] using list_ind4;
    intros sum Hs; try exact Hs; try apply u32_range.
  change (is_u32 (sum_words rest (u32 (sum + ntohl (le_word32 a b c d))))).
  apply IH, u32_range.
Qed.

Lemma fold_carry_S fuel s :
  fold_carry (S fuel) s
  = if 0 <? Z.shiftr s 16 then fold_carry fuel (fold_step s) else Some s.
Proof. reflexivity. Qed.

Lemma fold_carry_small fuel s :
  0 <= s < 2 ^ 16 -> fold_carry fuel s = Some s.
Proof.
  intros Hs.
  assert (Hz : Z.shiftr s 16 = 0)
    by (rewrite Z.shiftr_div_pow2 by lia; apply Z.div_small; lia).
  destruct fuel; simpl; by rewrite Hz.
Qed.

Lemma fold_step_spec s :
  0 <= s < 2 ^ 32 ->
  fold_step s = s mod 65536 + s / 65536 /\ Z.shiftr s 16 = s / 65536.
Proof.
  intros Hs. unfold fold_step. change 0xFFFF with (Z.ones 16).
  rewrite Z.land_ones, Z.shiftr_div_pow2 by lia.
  change (2 ^ 16) with 65536. split; [|done].
  unfold u32. apply Z.mod_small. change (2 ^ 32) with 4294967296 in *.
  Z.div_mod_to_equations. lia.
Qed.

Lemma fold_carry_terminates sum :
  is_u32 sum ->
  exists r, fold_carry fold_fuel sum = Some r /\ 0 <= r < 2 ^ 16.
Proof.
  intros Hs. unfold is_u32 in Hs. unfold fold_fuel.
  change (2 ^ 16) with 65536. change (2 ^ 32) with 4294967296 in Hs.
  destruct (Z_lt_dec sum 65536) as [Hsmall|Hbig].
  { exists sum. split; [apply fold_carry_small|]; change (2 ^ 16) with 65536; lia. }
  destruct (fold_step_spec sum) as [Hst Hsh];
    [change (2 ^ 32) with 4294967296; lia|].
  rewrite fold_carry_S, Hsh.
  assert (Hq : 0 < sum / 65536) by (Z.div_mod_to_equations; lia).
  rewrite (proj2 (Z.ltb_lt _ _) Hq).
  set (s1 := fold_step sum) in *.
  assert (Hs1 : 0 <= s1 <= 131070) by (rewrite Hst; Z.div_mod_to_equations; lia).
  destruct (Z_lt_dec s1 65536) as [Hsmall1|Hbig1].
  { exists s1. split; [apply fold_carry_small|]; change (2 ^ 16) with 65536; lia. }
  destruct (fold_step_spec s1) as [Hst1 Hsh1];
    [change (2 ^ 32) with 4294967296; lia|].
  rewrite fold_carry_S, Hsh1.
  assert (Hq1 : 0 < s1 / 65536) by (Z.div_mod_to_equations; lia).
  rewrite (proj2 (Z.ltb_lt _ _) Hq1).
  set (s2 := fold_step s1) in *.
  assert (Hs2 : 0 <= s2 < 65536) by (rewrite Hst1; Z.div_mod_to_equations; lia).
  exists s2. split; [apply fold_carry_small; change (2 ^ 16) with 65536; lia|lia].
Qed.

Lemma calculateChecksum_total header payload :
  exists c, calculateChecksum header payload = Some c /\ is_u32 c.
Proof.
  unfold calculateChecksum.
  destruct (fold_carry_terminates (sum_words payload (sum_words header 0)))
    as (r & Hr & _).
  { apply sum_words_range, sum_words_range. unfold is_u32. lia. }
  rewrite Hr. simpl. eexists. split; [reflexivity|].
  change 0xFFFFFFFF with (Z.ones 32). rewrite Z.land_ones by lia.
  apply Z.mod_pos_bound. lia.
Qed.

(** ** The buffer built by [Serialize] *)

Lemma copy_zeroes (n : nat) (src : list Z) :
  length src = n -> copy (replicate n 0) src = src.
Proof.
  intros Hn. unfold copy. rewrite length_replicate, <- Hn.
  rewrite firstn_all, drop_replicate, Nat.sub_diag. simpl. apply app_nil_r.
Qed.

Lemma Serialize_header (p : Packet) :
  Length p = PACKET_HEADER_SIZE + len (Payload p) ->
  exists c,
    calculateChecksum (take 12 (header_bytes p 0)) (Payload p) = Some c
    /\ is_u32 c
    /\ Serialize p = Some (header_bytes p (htonl c) ++ Payload p,
                           set_Checksum c p).
Proof.
  intros HL.
  destruct (calculateChecksum_total (take 12 (header_bytes p 0)) (Payload p))
    as (c & Hc & Hrange).
  exists c. split; [exact Hc|]. split; [exact Hrange|].
  unfold PACKET_HEADER_SIZE, len in HL.
  assert (Hlt : (Length p <? PACKET_HEADER_SIZE) = false)
    by (apply Z.ltb_ge; unfold PACKET_HEADER_SIZE; lia).
  assert (Hnat : Z.to_nat (Length p) = (16 + length (Payload p))%nat) by lia.
  unfold Serialize. rewrite Hlt, Hnat.
  set (n := length (Payload p)).
  change (replicate (16 + n) 0)
    with (0 :: 0 :: 0 :: 0 :: 0 :: 0 :: 0 :: 0 :: 0 :: 0 :: 0 :: 0 :: 0 :: 0
            :: 0 :: 0 :: replicate n 0).
  cbv [store_uint16 store_uint32 insert list_insert Nat.add].
  cbn [take drop app].
  match goal with
  | |- context [if ?b then ?x else ?y] =>
      assert (Hbuf : (if b then x else y) = header_bytes p 0 ++ Payload p)
  end.
  { destruct (0 <? len (Payload p)) eqn:Hpos.
    - change (drop 0 (replicate n 0)) with (replicate n 0).
      rewrite copy_zeroes by reflexivity. reflexivity.
    - apply Z.ltb_ge in Hpos. unfold len in Hpos.
      destruct (Payload p) eqn:Hp; [reflexivity|simpl in Hpos; lia]. }
  rewrite Hbuf.
  change (take 12 (header_bytes p 0 ++ Payload p))
    with (take 12 (header_bytes p 0)).
  change (drop 16 (header_bytes p 0 ++ Payload p)) with (Payload p).
  rewrite Hc. reflexivity.
Qed.

(** ** Reading the header back *)

Section WireImage.
Variables (p : Packet) (c : Z) (rest : list Z).
Let data := header_bytes p c ++ rest.

Lemma wire_len : len data = PACKET_HEADER_SIZE + len rest.
Proof.
  unfold data, len, PACKET_HEADER_SIZE. rewrite length_app. simpl length. lia.
Qed.

Lemma wire_version_image :
  Version p = PROTOCOL_VERSION -> wire_version data = PROTOCOL_VERSION.
Proof.
  intros Hv.
  change (wire_version data)
    with (Z.land (Z.shiftr (Z.lor (u8 (Z.shiftl (Version p) 4))
                                  (Z.land (Type_ p) 0x0F)) 4) 0x0F).
  rewrite Hv. apply version_nibble.
Qed.

Lemma wire_type_image :
  Version p = PROTOCOL_VERSION -> wire_type data = Z.land (Type_ p) 0x0F.
Proof.
  intros Hv.
  change (wire_type data)
    with (Z.land (Z.lor (u8 (Z.shiftl (Version p) 4))
                        (Z.land (Type_ p) 0x0F)) 0x0F).
  rewrite Hv. apply type_nibble.
Qed.

Lemma wire_flags_image : byte_at data 1 = Flags p.
Proof. reflexivity. Qed.

Lemma wire_length_image : is_u16 (Length p) -> wire_length data = Length p.
Proof.
  intros HL.
  change (wire_length data)
    with (ntohs (le_word16 (Z.land (htons (Length p)) 0xff)
                           (Z.land (Z.shiftr (htons (Length p)) 8) 0xff))).
  rewrite le_word16_bytes by (apply htons_range, HL).
  by apply ntohs_htons.
Qed.

Lemma wire_seq_image :
  is_u32 (SeqNum p) -> ntohl (load_uint32 data 4) = SeqNum p.
Proof.
  intros Hs.
  change (load_uint32 data 4)
    with (le_word32 (Z.land (htonl (SeqNum p)) 0xff)
                    (Z.land (Z.shiftr (htonl (SeqNum p)) 8) 0xff)
                    (Z.land (Z.shiftr (htonl (SeqNum p)) 16) 0xff)
                    (Z.land (Z.shiftr (htonl (SeqNum p)) 24) 0xff)).
  rewrite le_word32_bytes by (apply htonl_range, Hs).
  by apply ntohl_htonl.
Qed.

Lemma wire_ack_image :
  is_u32 (AckNum p) -> ntohl (load_uint32 data 8) = AckNum p.
Proof.
  intros Hs.
  change (load_uint32 data 8)
    with (le_word32 (Z.land (htonl (AckNum p)) 0xff)
                    (Z.land (Z.shiftr (htonl (AckNum p)) 8) 0xff)
                    (Z.land (Z.shiftr (htonl (AckNum p)) 16) 0xff)
                    (Z.land (Z.shiftr (htonl (AckNum p)) 24) 0xff)).
  rewrite le_word32_bytes by (apply htonl_range, Hs).
  by apply ntohl_htonl.
Qed.

Lemma wire_checksum_raw :
  wire_checksum data
  = ntohl (le_word32 (Z.land c 0xff) (Z.land (Z.shiftr c 8) 0xff)
                     (Z.land (Z.shiftr c 16) 0xff)
                     (Z.land (Z.shiftr c 24) 0xff)).
Proof. reflexivity. Qed.

Lemma wire_summed_header : take 12 data = take 12 (header_bytes p 0).
Proof. reflexivity. Qed.

Lemma wire_payload : drop 16 data = rest.
Proof. reflexivity. Qed.
End WireImage.

Lemma wire_checksum_image p c rest :
  is_u32 c -> wire_checksum (header_bytes p (htonl c) ++ rest) = c.
Proof.
  intros Hc. rewrite wire_checksum_raw.
  rewrite le_word32_bytes by (apply htonl_range, Hc).
  by apply ntohl_htonl.
Qed.

(** Decoding the wire image of a well-formed packet gives the packet back,
    with its type reduced to the four bits the header has for it. *)
Lemma DeserializePacket_image (p : Packet) (c : Z) :
  Version p = PROTOCOL_VERSION ->
  is_u16 (Length p) ->
  Length p = PACKET_HEADER_SIZE + len (Payload p) ->
  is_u32 (SeqNum p) -> is_u32 (AckNum p) -> is_u32 c ->
  calculateChecksum (take 12 (header_bytes p 0)) (Payload p) = Some c ->
  DeserializePacket (header_bytes p (htonl c) ++ Payload p)
  = Some (Ok (mkPacket PROTOCOL_VERSION (Z.land (Type_ p) 0x0F) (Flags p)
                       (Length p) (SeqNum p) (AckNum p) c (Payload p))).
Proof.
  intros Hv HL16 HL Hs Ha Hc Hsum. unfold DeserializePacket.
  rewrite wire_len, wire_version_image, wire_type_image, wire_flags_image,
    wire_length_image, wire_seq_image, wire_ack_image, wire_checksum_image,
    wire_summed_header, wire_payload by assumption.
  rewrite Hsum. cbn [mbind option_bind].
  rewrite HL, !Z.eqb_refl. cbn [negb].
  replace (PACKET_HEADER_SIZE + len (Payload p) <? PACKET_HEADER_SIZE)
    with false by (symmetry; apply Z.ltb_ge; unfold len; lia).
  replace (Z.to_nat (PACKET_HEADER_SIZE + len (Payload p) - PACKET_HEADER_SIZE))
    with (length (Payload p)) by (unfold len; lia).
  rewrite copy_zeroes by reflexivity.
  destruct (PACKET_HEADER_SIZE <? PACKET_HEADER_SIZE + len (Payload p)) eqn:Hpos;
    [reflexivity|].
  apply Z.ltb_ge in Hpos. unfold len in Hpos.
  destruct (Payload p); [reflexivity|simpl in Hpos; lia].
Qed.

(** ** Round trip of the codec *)

Lemma NewPacket_payload t f s a payload :
  Payload (NewPacket t f s a payload) = take (Z.to_nat MAX_PAYLOAD_SIZE) payload
  /\ len (Payload (NewPacket t f s a payload)) <= MAX_PAYLOAD_SIZE.
Proof.
  unfold NewPacket, len, MAX_PAYLOAD_SIZE. cbn [Payload].
  destruct (1400 <? Z.of_nat (length payload)) eqn:Hlen.
  - apply Z.ltb_lt in Hlen. split; [reflexivity|].
    rewrite length_take. lia.
  - apply Z.ltb_ge in Hlen. split; [|lia].
    symmetry. apply take_ge. lia.
Qed.

Lemma NewPacket_Length t f s a payload :
  Length (NewPacket t f s a payload)
  = PACKET_HEADER_SIZE + len (Payload (NewPacket t f s a payload))
  /\ is_u16 (Length (NewPacket t f s a payload)).
Proof.
  destruct (NewPacket_payload t f s a payload) as [_ Hle].
  assert (Hlen : 0 <= len (Payload (NewPacket t f s a payload)))
    by (unfold len; lia).
  unfold MAX_PAYLOAD_SIZE in Hle.
  assert (HL : Length (NewPacket t f s a payload)
               = u16 (PACKET_HEADER_SIZE
                      + len (Payload (NewPacket t f s a payload))))
    by reflexivity.
  rewrite HL. unfold u16, is_u16, PACKET_HEADER_SIZE.
  rewrite Z.mod_small by lia. lia.
Qed.

(** What the codec does for every packet type: the round trip succeeds and
    the decoded packet differs from the sender's in the type alone, of which
    the low four bits survive. *)
Lemma roundtrip_general t f s a payload :
  is_u32 s -> is_u32 a ->
  exists buf sent,
    Serialize (NewPacket t f s a payload) = Some (buf, sent)
    /\ sent = set_Checksum (Checksum sent) (NewPacket t f s a payload)
    /\ DeserializePacket buf
       = Some (Ok (mkPacket PROTOCOL_VERSION (Z.land t 0x0F) f (Length sent) s a
                            (Checksum sent) (Payload sent))).
Proof.
  intros Hs Ha.
  set (p := NewPacket t f s a payload).
  destruct (NewPacket_Length t f s a payload) as [HL HL16]. fold p in HL, HL16.
  destruct (Serialize_header p HL) as (c & Hc & Hrange & HS).
  exists (header_bytes p (htonl c) ++ Payload p), (set_Checksum c p).
  split; [exact HS|]. split; [reflexivity|].
  by apply (DeserializePacket_image p c).
Qed.

(** C2 (amended).  For every packet type that fits the four bits the header
    gives it (in particular the five defined types), every flags byte,
    sequence number, acknowledgment number and payload, the serialization of
    the newly constructed packet decodes successfully and the decoded packet
    reproduces every field of the sender's packet (version, type, flags,
    length, sequence number, acknowledgment number, checksum and payload),
    the payload being the input cut to 1400 bytes. *)
Theorem codec_roundtrip (t f s a : Z) (payload : list Z) :
  0 <= t < 16 -> is_u8 f -> is_u32 s -> is_u32 a -> Forall is_u8 payload ->
  roundtrip_exact t f s a payload.
Proof.
  intros Ht _ Hs Ha _.
  destruct (roundtrip_general t f s a payload Hs Ha)
    as (buf & sent & HS & Hsent & HD).
  destruct (NewPacket_payload t f s a payload) as [Hpay _].
  destruct (NewPacket_Length t f s a payload) as [HL _].
  exists buf, sent. split; [exact HS|].
  rewrite land_nibble_small in HD by exact Ht.
  rewrite Hsent in *. cbn [set_Checksum Checksum Length Payload Version Type_
    Flags SeqNum AckNum] in *.
  repeat split; try reflexivity; try assumption.
Qed.

Lemma codec_roundtrip_witness :
  (0 <= DATA_PACKET < 16 /\ is_u8 0 /\ is_u32 1000 /\ is_u32 2000
   /\ Forall is_u8 (replicate 1500 7))
  /\ roundtrip_exact DATA_PACKET 0 1000 2000 (replicate 1500 7).
Proof.
  assert (H : 0 <= DATA_PACKET < 16 /\ is_u8 0 /\ is_u32 1000 /\ is_u32 2000
              /\ Forall is_u8 (replicate 1500 7)).
  { unfold DATA_PACKET, is_u8, is_u32. repeat split; try lia.
    apply Forall_replicate. lia. }
  split; [exact H|].
  destruct H as (Ht & Hf & Hs & Ha & Hp).
  exact (codec_roundtrip DATA_PACKET 0 1000 2000 (replicate 1500 7)
           Ht Hf Hs Ha Hp).
Defined.

(** C2, as stated, fails: the packet type is a [uint8] but the header keeps
    its low four bits only, so type 17 comes back as type 1. *)
Lemma codec_roundtrip_type_counterexample :
  is_u8 17
  /\ (exists buf sent received,
        Serialize (NewPacket 17 0 0 0 []) = Some (buf, sent)
        /\ DeserializePacket buf = Some (Ok received)
        /\ Type_ sent = 17 /\ Type_ received = 1)
  /\ ~ roundtrip_exact 17 0 0 0 [].
Proof.
  split; [unfold is_u8; lia|]. split.
  - eexists _, _, _. split; [vm_compute; reflexivity|].
    split; [vm_compute; reflexivity|]. split; reflexivity.
  - intros (buf & sent & HS & HD & _).
    vm_compute in HS. injection HS as <- <-.
    vm_compute in HD. discriminate HD.
Qed.

(** ** Order of the validation checks of [DeserializePacket] *)

(** C3 (amended).  Decode evaluates its four checks in the order: too-short
    input first, then declared-length mismatch, then unsupported protocol
    version, then checksum mismatch.  In particular an input of at least
    header size whose version field is wrong and whose declared length
    disagrees with the length of the byte slice is rejected with the
    length-mismatch error. *)
Theorem decode_check_order (data : list Z) :
  (len data < PACKET_HEADER_SIZE ->
     DeserializePacket data = Some (Err PacketTooShort))
  /\ (PACKET_HEADER_SIZE <= len data -> wire_length data <> len data ->
      DeserializePacket data = Some (Err PacketLengthMismatch))
  /\ (PACKET_HEADER_SIZE <= len data -> wire_length data = len data ->
      wire_version data <> PROTOCOL_VERSION ->
      DeserializePacket data = Some (Err UnsupportedVersion))
  /\ (PACKET_HEADER_SIZE <= len data -> wire_length data = len data ->
      wire_version data = PROTOCOL_VERSION ->
      exists c,
        calculateChecksum (take 12 data) (drop 16 data) = Some c
        /\ (wire_checksum data <> c ->
            DeserializePacket data = Some (Err ChecksumMismatch))
        /\ (wire_checksum data = c ->
            exists p, DeserializePacket data = Some (Ok p)))
  /\ (PACKET_HEADER_SIZE <= len data -> wire_version data <> PROTOCOL_VERSION ->
      wire_length data <> len data ->
      DeserializePacket data = Some (Err PacketLengthMismatch)).
Proof.
  assert (Hlen : PACKET_HEADER_SIZE <= len data -> wire_length data <> len data ->
                 DeserializePacket data = Some (Err PacketLengthMismatch)).
  { intros Hge Hne. unfold DeserializePacket.
    rewrite (proj2 (Z.ltb_ge _ _) Hge), (proj2 (Z.eqb_neq _ _) Hne).
    reflexivity. }
  repeat split.
  - intros Hlt. unfold DeserializePacket.
    by rewrite (proj2 (Z.ltb_lt _ _) Hlt).
  - exact Hlen.
  - intros Hge Heq Hv. unfold DeserializePacket.
    rewrite (proj2 (Z.ltb_ge _ _) Hge), (proj2 (Z.eqb_eq _ _) Heq),
      (proj2 (Z.eqb_neq _ _) Hv).
    reflexivity.
  - intros Hge Heq Hv.
    destruct (calculateChecksum_total (take 12 data) (drop 16 data))
      as (c & Hc & _).
    exists c. split; [exact Hc|].
    unfold DeserializePacket.
    rewrite (proj2 (Z.ltb_ge _ _) Hge), (proj2 (Z.eqb_eq _ _) Heq),
      (proj2 (Z.eqb_eq _ _) Hv), Hc.
    cbn [negb mbind option_bind]. split.
    + intros Hne. by rewrite (proj2 (Z.eqb_neq _ _) Hne).
    + intros He. rewrite (proj2 (Z.eqb_eq _ _) He). cbn [negb]. eauto.
  - intros Hge _ Hne. by apply Hlen.
Qed.

Lemma decode_check_order_witness :
  DeserializePacket bad_version_and_length = Some (Err PacketLengthMismatch).
Proof.
  apply (decode_check_order bad_version_and_length).
  - vm_compute. discriminate.
  - vm_compute. discriminate.
  - vm_compute. discriminate.
Defined.

(** C3, as stated, fails: the length check precedes the version check, so
    this input, wrong in both, is not rejected as an unsupported version. *)
Lemma decode_version_first_counterexample :
  PACKET_HEADER_SIZE <= len bad_version_and_length
  /\ wire_version bad_version_and_length <> PROTOCOL_VERSION
  /\ wire_length bad_version_and_length <> len bad_version_and_length
  /\ DeserializePacket bad_version_and_length <> Some (Err UnsupportedVersion).
Proof.
  repeat split; vm_compute; discriminate.
Qed.

(** ** Congestion window *)



Lemma Locked_HandleAck_processed now ack r up :
  HasAck ack = true ->
  Locked.unackedPackets r !! u32 (AckNum ack - 1) = Some up ->
  Locked.HandleAck now ack r
  = (None,
     Locked.handleSuccessfulAck
       (Locked.set_unackedPackets
          (delete (u32 (AckNum ack - 1)) (Locked.unackedPackets r))
          (Locked.updateRTT (Time_Sub now (Locked.SentTime up)) r))).
Proof.
  intros Hack Hup. unfold Locked.HandleAck. rewrite Hack. cbn [negb].
  rewrite Hup. reflexivity.
Qed.

Lemma LockFree_HandleAck_processed now ack rf e :
  HasAck ack = true ->
  LockFree.tracked (u32 (AckNum ack - 1)) e rf ->
  exists table,
    LockFree.HandleAck now ack rf
    = (rf' ← LockFree.updateCongestionWindow true
               (LockFree.updateRTTAtomic (u64 (now - LockFree.SendTime e))
                  (LockFree.set_unackedTable table rf));
       Some (true, rf')).
Proof.
  intros Hack He. unfold LockFree.tracked in He.
  unfold LockFree.HandleAck, LockFree.Remove. rewrite Hack. cbn [negb].
  rewrite He. cbn [mbind option_bind]. eexists. reflexivity.
Qed.

Lemma locked_window_growth r :
  is_u32 (Locked.congestionWindow r) -> is_u32 (Locked.ssthresh r) ->
  (Locked.congestionWindow r < Locked.ssthresh r ->
   Locked.congestionWindow (Locked.handleSuccessfulAck r)
   = Locked.congestionWindow r + 1)
  /\ (Locked.ssthresh r <= Locked.congestionWindow r ->
      1 < Locked.congestionWindow r ->
      Locked.congestionWindow (Locked.handleSuccessfulAck r)
      = Locked.congestionWindow r).
Proof.
  intros Hc Ht. unfold is_u32 in *. unfold Locked.handleSuccessfulAck. split.
  - intros Hlt. rewrite (proj2 (Z.ltb_lt _ _) Hlt). cbn.
    apply u32_small. unfold is_u32. lia.
  - intros Hge Hgt. rewrite (proj2 (Z.ltb_ge _ _) Hge).
    rewrite (proj2 (Z.ltb_lt 0 _)) by lia. cbn.
    rewrite Z.div_small by lia. rewrite Z.add_0_r.
    apply u32_small. exact Hc.
Qed.

Lemma lockfree_window_growth rf :
  1 <= LockFree.congWindow rf <= LockFree.windowSize rf ->
  is_u32 (LockFree.windowSize rf) ->
  exists rf',
    LockFree.updateCongestionWindow true rf = Some rf'
    /\ (LockFree.congWindow rf < LockFree.windowSize rf / 2 ->
        LockFree.congWindow rf' = LockFree.congWindow rf + 1)
    /\ (LockFree.windowSize rf / 2 <= LockFree.congWindow rf ->
        1 < LockFree.congWindow rf ->
        LockFree.congWindow rf' = LockFree.congWindow rf).
Proof.
  intros Hc Hw. unfold is_u32 in Hw. unfold LockFree.updateCongestionWindow.
  destruct (LockFree.congWindow rf <? LockFree.windowSize rf / 2) eqn:Hss.
  - apply Z.ltb_lt in Hss. cbn [mbind option_bind].
    assert (Hhalf : LockFree.windowSize rf / 2 <= LockFree.windowSize rf)
      by (Z.div_mod_to_equations; lia).
    rewrite u32_small by (unfold is_u32; lia).
    rewrite (proj2 (Z.ltb_ge _ _)) by lia.
    eexists. split; [reflexivity|]. cbn. split; [reflexivity|lia].
  - apply Z.ltb_ge in Hss.
    rewrite (proj2 (Z.eqb_neq _ 0)) by lia. cbn [mbind option_bind].
    eexists. split; [reflexivity|]. cbn. split; [lia|].
    intros _ Hgt. rewrite Z.div_small by lia. rewrite Z.add_0_r.
    rewrite u32_small by (unfold is_u32; lia).
    by rewrite (proj2 (Z.ltb_ge _ _)) by lia.
Qed.

(** C8.  Processing a successful acknowledgment leaves the congestion window
    unchanged whenever the window is at or above the slow-start threshold and
    strictly greater than 1 (the increment [1 / congestionWindow] is an
    integer division and yields 0), and increments it by exactly 1 in the
    slow-start phase (window below the threshold).  In the lock-protected
    engine the threshold is [ssthresh]; in the lock-free engine it is half of
    [windowSize], which also caps the window. *)
Theorem ack_congestion_window :
  (forall (now : Z) (ack : Packet) (r : Locked.ReliabilityLayer)
          (up : Locked.UnackedPacket),
      HasAck ack = true ->
      Locked.unackedPackets r !! u32 (AckNum ack - 1) = Some up ->
      is_u32 (Locked.congestionWindow r) -> is_u32 (Locked.ssthresh r) ->
      (Locked.HandleAck now ack r).1 = None
      /\ (Locked.congestionWindow r < Locked.ssthresh r ->
          Locked.congestionWindow (Locked.HandleAck now ack r).2
          = Locked.congestionWindow r + 1)
      /\ (Locked.ssthresh r <= Locked.congestionWindow r ->
          1 < Locked.congestionWindow r ->
          Locked.congestionWindow (Locked.HandleAck now ack r).2
          = Locked.congestionWindow r))
  /\ (forall (now : Z) (ack : Packet) (rf : LockFree.LockFreeReliabilityLayer)
             (e : LockFree.UnackedEntry),
         HasAck ack = true ->
         LockFree.tracked (u32 (AckNum ack - 1)) e rf ->
         1 <= LockFree.congWindow rf <= LockFree.windowSize rf ->
         is_u32 (LockFree.windowSize rf) ->
         exists rf',
           LockFree.HandleAck now ack rf = Some (true, rf')
           /\ (LockFree.congWindow rf < LockFree.windowSize rf / 2 ->
               LockFree.congWindow rf' = LockFree.congWindow rf + 1)
           /\ (LockFree.windowSize rf / 2 <= LockFree.congWindow rf ->
               1 < LockFree.congWindow rf ->
               LockFree.congWindow rf' = LockFree.congWindow rf)).
Proof.
  split.
  - intros now ack r up Hack Hup Hc Ht.
    rewrite (Locked_HandleAck_processed now ack r up Hack Hup).
    split; [reflexivity|]. cbn [snd].
    exact (locked_window_growth
             (Locked.set_unackedPackets
                (delete (u32 (AckNum ack - 1)) (Locked.unackedPackets r))
                (Locked.updateRTT (Time_Sub now (Locked.SentTime up)) r))
             Hc Ht).
  - intros now ack rf e Hack He Hc Hw.
    destruct (LockFree_HandleAck_processed now ack rf e Hack He) as [table HA].
    destruct (lockfree_window_growth
                (LockFree.updateRTTAtomic (u64 (now - LockFree.SendTime e))
                   (LockFree.set_unackedTable table rf)) Hc Hw)
      as (rf' & Hup & Hslow & Havoid).
    exists rf'. rewrite HA, Hup. split; [reflexivity|]. split; assumption.
Qed.

Lemma ack_congestion_window_witness :
  Locked.congestionWindow
    (Locked.HandleAck 7 (ack_packet 101) locked_in_avoidance).2 = 5
  /\ (exists rf',
        LockFree.HandleAck 7 (ack_packet 2) (lockfree_small 20)
        = Some (true, rf')
        /\ LockFree.congWindow rf' = 20).
Proof.
  split.
  - assert (Hack : HasAck (ack_packet 101) = true) by reflexivity.
    assert (Hup : Locked.unackedPackets locked_in_avoidance
                    !! u32 (AckNum (ack_packet 101) - 1)
                  = Some (Locked.mkUnackedPacket (data_packet 100) 0 0))
      by reflexivity.
    assert (Hc : is_u32 (Locked.congestionWindow locked_in_avoidance))
      by by_compute.
    assert (Ht : is_u32 (Locked.ssthresh locked_in_avoidance)) by by_compute.
    destruct (proj1 ack_congestion_window 7 (ack_packet 101)
                locked_in_avoidance
                (Locked.mkUnackedPacket (data_packet 100) 0 0)
                Hack Hup Hc Ht) as (_ & _ & Havoid).
    apply Havoid; by_compute.
  - assert (Hack : HasAck (ack_packet 2) = true) by reflexivity.
    assert (He : LockFree.tracked (u32 (AckNum (ack_packet 2) - 1))
                   (LockFree.mkUnackedEntry (data_packet 1) 0 0)
                   (lockfree_small 20)) by reflexivity.
    assert (Hcw : 1 <= LockFree.congWindow (lockfree_small 20)
                  <= LockFree.windowSize (lockfree_small 20)) by by_compute.
    assert (Hw : is_u32 (LockFree.windowSize (lockfree_small 20)))
      by by_compute.
    destruct (proj2 ack_congestion_window 7 (ack_packet 2) (lockfree_small 20)
                (LockFree.mkUnackedEntry (data_packet 1) 0 0)
                Hack He Hcw Hw)
      as (rf' & HA & _ & Havoid).
    exists rf'. split; [exact HA|]. apply Havoid; by_compute.
Defined.

(** C9 (amended).  In the lock-protected engine a detected loss sets the
    slow-start threshold to [max(1, window / 2)] and the congestion window to
    that threshold.  In the lock-free engine a detected loss sets the
    congestion window to [max(1, window / 2)] and leaves the slow-start
    threshold, half of the window size, as it is.  In both, the window after
    a loss is never below 1. *)
Theorem loss_halves_window :
  (forall r : Locked.ReliabilityLayer,
      Locked.ssthresh (Locked.SimulatePacketLoss r)
      = Z.max 1 (Locked.congestionWindow r / 2)
      /\ Locked.congestionWindow (Locked.SimulatePacketLoss r)
         = Locked.ssthresh (Locked.SimulatePacketLoss r)
      /\ 1 <= Locked.congestionWindow (Locked.SimulatePacketLoss r))
  /\ (forall rf : LockFree.LockFreeReliabilityLayer,
         exists rf',
           LockFree.updateCongestionWindow false rf = Some rf'
           /\ LockFree.congWindow rf' = Z.max 1 (LockFree.congWindow rf / 2)
           /\ 1 <= LockFree.congWindow rf'
           /\ LockFree.slow_start_threshold rf'
              = LockFree.slow_start_threshold rf).
Proof.
  split.
  - intros r. unfold Locked.SimulatePacketLoss. cbn.
    destruct (Locked.congestionWindow r / 2 <? 1) eqn:Hlt;
      [apply Z.ltb_lt in Hlt|apply Z.ltb_ge in Hlt]; lia.
  - intros rf. unfold LockFree.updateCongestionWindow.
    eexists. split; [reflexivity|]. cbn.
    destruct (LockFree.congWindow rf / 2 <? 1) eqn:Hlt;
      [apply Z.ltb_lt in Hlt|apply Z.ltb_ge in Hlt];
      repeat split; try reflexivity; lia.
Qed.

(** C9, as stated, fails for the lock-free engine, the one that detects
    losses (in its timeout scan): with a window of 10 and a window size of
    32, a loss brings the window to 5 and leaves the slow-start threshold at
    16, so the next acknowledgment grows the window to 6.  The lock-protected
    engine, in the same configuration, sets window and threshold to 5 and the
    next acknowledgment leaves the window at 5. *)
Lemma lockfree_loss_counterexample :
  (exists rf' rf'',
     LockFree.updateCongestionWindow false (lockfree_small 10) = Some rf'
     /\ LockFree.congWindow rf' = 5
     /\ LockFree.slow_start_threshold rf' = 16
     /\ LockFree.slow_start_threshold rf'
        <> Z.max 1 (LockFree.congWindow (lockfree_small 10) / 2)
     /\ LockFree.congWindow rf' <> LockFree.slow_start_threshold rf'
     /\ LockFree.updateCongestionWindow true rf' = Some rf''
     /\ LockFree.congWindow rf'' = 6)
  /\ Locked.ssthresh
       (Locked.SimulatePacketLoss
          (Locked.set_congestion 10 32 Locked.NewReliabilityLayer)) = 5
  /\ Locked.congestionWindow
       (Locked.handleSuccessfulAck
          (Locked.SimulatePacketLoss
             (Locked.set_congestion 10 32 Locked.NewReliabilityLayer))) = 5.
Proof.
  split; [|split; reflexivity].
  eexists _, _. split; [reflexivity|]. split; [reflexivity|].
  split; [reflexivity|]. split; [by_compute|]. split; [by_compute|].
  split; reflexivity.
Qed.

(** ** Receive buffer overflow *)

(** C10.  In the lock-protected engine, when the ordering buffer holds (at
    least) the configured maximum number of packets, [ReceivePacket] returns
    the overflow error for every incoming packet, one with an already seen
    sequence number included, and leaves the engine (the seen set, the
    ordering buffer and the next expected sequence number with it)
    unchanged; below capacity a packet with an already seen sequence number
    is ignored without an error. *)
Theorem receive_overflow_precedes_duplicates (packet : Packet)
    (r : Locked.ReliabilityLayer) :
  (Locked.maxBufferSize r <= Z.of_nat (size (Locked.orderingBuffer r)) ->
   Locked.ReceivePacket packet r
   = (Some (Locked.ReceiveBufferOverflow
              (Z.of_nat (size (Locked.orderingBuffer r)))
              (Locked.maxBufferSize r)), r))
  /\ (Z.of_nat (size (Locked.orderingBuffer r)) < Locked.maxBufferSize r ->
      Locked.IsPacketDuplicate packet r = true ->
      Locked.ReceivePacket packet r = (None, r)).
Proof.
  unfold Locked.ReceivePacket. split.
  - intros Hfull. by rewrite (proj2 (Z.leb_le _ _) Hfull).
  - intros Hroom Hdup. by rewrite (proj2 (Z.leb_gt _ _) Hroom), Hdup.
Qed.

Lemma receive_overflow_precedes_duplicates_witness :
  Locked.IsPacketDuplicate (data_packet 900) locked_full = true
  /\ Locked.ReceivePacket (data_packet 900) locked_full
     = (Some (Locked.ReceiveBufferOverflow
                (Z.of_nat (size (Locked.orderingBuffer locked_full)))
                (Locked.maxBufferSize locked_full)), locked_full)
  /\ Locked.ReceivePacket (data_packet 900) locked_one_of_two
     = (None, locked_one_of_two).
Proof.
  split; [by_compute|]. split.
  - apply (proj1 (receive_overflow_precedes_duplicates (data_packet 900)
                    locked_full)).
    by_compute.
  - apply (proj2 (receive_overflow_precedes_duplicates (data_packet 900)
                    locked_one_of_two)); by_compute.
Defined.

(** ** Acknowledging twice *)

Lemma u32_pred_succ s : is_u32 s -> u32 (u32 (s + 1) - 1) = s.
Proof.
  intros Hs. unfold u32. rewrite Zminus_mod_idemp_l.
  replace (s + 1 - 1) with s by lia. by apply Z.mod_small.
Qed.

(** C7 (amended).  For every DATA packet recorded as in flight,
    acknowledging its sequence number (acknowledgment number = sequence
    number + 1) succeeds and removes the entry; acknowledging it a second
    time leaves the engine unchanged, and is not reported as an error
    provided the sequence number does not exceed the engine's next sequence
    number.  A second acknowledgment of a sequence number above the next
    sequence number is reported as an acknowledgment for a future packet. *)
Theorem ack_twice (now1 now2 timestamp : Z) (packet ack : Packet)
    (r0 : Locked.ReliabilityLayer) :
  IsDataPacket packet = true ->
  is_u32 (SeqNum packet) ->
  HasAck ack = true ->
  AckNum ack = u32 (SeqNum packet + 1) ->
  let r := Locked.SendPacketWithTimestamp packet timestamp r0 in
  let first := Locked.HandleAck now1 ack r in
  let second := Locked.HandleAck now2 ack first.2 in
  Locked.HasUnackedPacket (SeqNum packet) r = true
  /\ first.1 = None
  /\ Locked.unackedPackets first.2
     = delete (SeqNum packet) (Locked.unackedPackets r)
  /\ Locked.HasUnackedPacket (SeqNum packet) first.2 = false
  /\ second.2 = first.2
  /\ (SeqNum packet <= Locked.nextSeqNum r0 -> second.1 = None)
  /\ (Locked.nextSeqNum r0 < SeqNum packet ->
      second.1 = Some (Locked.AckForFuturePacket (AckNum ack)
                                                 (Locked.nextSeqNum r0))).
Proof.
  intros Hdata Hseq Hack Hnum r first second.
  assert (Hkey : u32 (AckNum ack - 1) = SeqNum packet)
    by (rewrite Hnum; by apply u32_pred_succ).
  assert (Hup : Locked.unackedPackets r !! u32 (AckNum ack - 1)
                = Some (Locked.mkUnackedPacket packet timestamp 0)).
  { rewrite Hkey. unfold r, Locked.SendPacketWithTimestamp. rewrite Hdata.
    cbn. apply lookup_insert_eq. }
  assert (Hfirst : first
            = (None,
               Locked.handleSuccessfulAck
                 (Locked.set_unackedPackets
                    (delete (SeqNum packet) (Locked.unackedPackets r))
                    (Locked.updateRTT (Time_Sub now1 timestamp) r)))).
  { unfold first.
    rewrite (Locked_HandleAck_processed now1 ack r _ Hack Hup), Hkey.
    reflexivity. }
  assert (Hgone : Locked.unackedPackets first.2 !! SeqNum packet = None).
  { rewrite Hfirst. cbn [snd]. unfold Locked.handleSuccessfulAck.
    repeat case_match; cbn; apply lookup_delete_eq. }
  assert (Hnext : Locked.nextSeqNum first.2 = Locked.nextSeqNum r0).
  { rewrite Hfirst. cbn [snd]. unfold Locked.handleSuccessfulAck, r,
      Locked.SendPacketWithTimestamp. rewrite Hdata.
    repeat case_match; reflexivity. }
  assert (Hsecond : second
            = (if Locked.nextSeqNum r0 <? SeqNum packet
               then Some (Locked.AckForFuturePacket (AckNum ack)
                                                    (Locked.nextSeqNum r0))
               else None, first.2)).
  { unfold second, Locked.HandleAck. rewrite Hack. cbn [negb].
    rewrite Hkey, Hgone, Hnext. by case_match. }
  split.
  { unfold Locked.HasUnackedPacket. rewrite <- Hkey, Hup.
    apply bool_decide_eq_true. by eexists. }
  split; [by rewrite Hfirst|].
  split.
  { rewrite Hfirst. cbn [snd]. unfold Locked.handleSuccessfulAck.
    repeat case_match; reflexivity. }
  split.
  { unfold Locked.HasUnackedPacket. rewrite Hgone.
    apply bool_decide_eq_false. by intros [? ?]. }
  split; [by rewrite Hsecond|].
  rewrite Hsecond. cbn [fst]. split.
  - intros Hle. by rewrite (proj2 (Z.ltb_ge _ _) Hle).
  - intros Hlt. by rewrite (proj2 (Z.ltb_lt _ _) Hlt).
Qed.

Lemma ack_twice_witness :
  (Locked.HandleAck 5 (ack_packet 2)
     (Locked.SendPacketWithTimestamp (data_packet 1) 0
        Locked.NewReliabilityLayer)).1 = None
  /\ (Locked.HandleAck 9 (ack_packet 2)
        (Locked.HandleAck 5 (ack_packet 2)
           (Locked.SendPacketWithTimestamp (data_packet 1) 0
              Locked.NewReliabilityLayer)).2).1 = None.
Proof.
  assert (Hdata : IsDataPacket (data_packet 1) = true) by reflexivity.
  assert (Hseq : is_u32 (SeqNum (data_packet 1))) by by_compute.
  assert (Hack : HasAck (ack_packet 2) = true) by reflexivity.
  assert (Hnum : AckNum (ack_packet 2) = u32 (SeqNum (data_packet 1) + 1))
    by reflexivity.
  pose proof (ack_twice 5 9 0 (data_packet 1) (ack_packet 2)
                Locked.NewReliabilityLayer Hdata Hseq Hack Hnum) as H.
  cbv zeta in H. destruct H as (_ & H1 & _ & _ & _ & H2 & _).
  split; [exact H1|]. apply H2. by_compute.
Defined.

(** C7, as stated, fails: a packet may be recorded under a sequence number
    the engine has not reached (as the repository's tests do with 100), and
    then the second acknowledgment is reported as an error. *)
Lemma ack_twice_counterexample :
  (Locked.HandleAck 5 (ack_packet 101) (locked_sent 100)).1 = None
  /\ (Locked.HandleAck 9 (ack_packet 101)
        (Locked.HandleAck 5 (ack_packet 101) (locked_sent 100)).2).1
     = Some (Locked.AckForFuturePacket 101 1).
Proof. split; vm_compute; reflexivity. Qed.

(** ** Round-trip time estimation *)

Lemma i64_small z : - 2 ^ 63 <= z < 2 ^ 63 -> i64 z = z.
Proof. intros Hz. unfold i64. rewrite Z.mod_small by lia. lia. Qed.









Lemma handleSuccessfulAck_rtt r :
  Locked.rttSamples (Locked.handleSuccessfulAck r) = Locked.rttSamples r
  /\ Locked.averageRTT (Locked.handleSuccessfulAck r) = Locked.averageRTT r
  /\ Locked.retransmissionTimeout (Locked.handleSuccessfulAck r)
     = Locked.retransmissionTimeout r.
Proof. unfold Locked.handleSuccessfulAck. by repeat case_match. Qed.

Lemma updateCongestionWindow_rtt success rf rf' :
  LockFree.updateCongestionWindow success rf = Some rf' ->
  LockFree.rttEstimate rf' = LockFree.rttEstimate rf
  /\ LockFree.timeoutBase rf' = LockFree.timeoutBase rf
  /\ LockFree.windowSize rf' = LockFree.windowSize rf
  /\ LockFree.unackedTable rf' = LockFree.unackedTable rf.
Proof.
  unfold LockFree.updateCongestionWindow. intros H.
  repeat case_match; simplify_eq/=; done.
Qed.

Lemma updateCongestionWindow_returns rf :
  0 < LockFree.congWindow rf ->
  is_Some (LockFree.updateCongestionWindow true rf).
Proof.
  intros Hpos. unfold LockFree.updateCongestionWindow.
  rewrite (proj2 (Z.eqb_neq _ 0)) by lia. by case_match.
Qed.




(** ** Ordered delivery in the lock-protected engine *)

Lemma collect_ordered_inv (seen : gmap Z bool) (d : list Packet) :
  forall (fuel : nat) (buf : gmap Z Packet) (next : Z) (acc : list Packet),
    (size buf <= fuel)%nat ->
    ordering_inv seen buf (d ++ acc) ->
    exists out buf' next',
      Locked.collect_ordered fuel buf next acc = Some (out, buf', next')
      /\ buf' !! next' = None
      /\ ordering_inv seen buf' (d ++ out).
Proof.
  induction fuel as [|fuel IH]; intros buf next acc Hsize Hinv.
  - apply Nat.le_0_r, map_size_empty_inv in Hsize. subst buf.
    exists acc, ∅, next. cbn. rewrite lookup_empty. done.
  - cbn [Locked.collect_ordered].
    destruct (buf !! next) as [p|] eqn:Hnext; [|by exists acc, buf, next].
    destruct Hinv as (Hbuf & Hdel & Hnodup).
    destruct (Hbuf next p Hnext) as [Hseq Hseen].
    apply IH.
    + rewrite map_size_delete, Hnext. lia.
    + rewrite app_assoc. split; [|split].
      * intros k q Hq. apply lookup_delete_Some in Hq as [_ Hq]. by apply Hbuf.
      * intros q Hq. apply elem_of_app in Hq as [Hq|Hq].
        -- destruct (Hdel q Hq) as [Hs Hb]. split; [done|].
           by apply lookup_delete_None; right.
        -- apply list_elem_of_singleton in Hq as ->. rewrite Hseq.
           split; [done|]. apply lookup_delete_eq.
      * rewrite fmap_app. apply NoDup_app. split; [done|].
        split; [|apply NoDup_singleton].
        intros k Hk Hk'. cbn in Hk'. apply list_elem_of_singleton in Hk' as ->.
        apply list_elem_of_fmap in Hk as (q & Heq & Hq).
        destruct (Hdel q Hq) as [_ Hb]. rewrite <- Heq, Hseq in Hb. congruence.
Qed.

(** The loop of [GetOrderedPackets] never runs out of fuel, and stops at a
    sequence number that is not buffered. *)
Lemma GetOrderedPackets_total (r : Locked.ReliabilityLayer) :
  exists orderedPackets r',
    Locked.GetOrderedPackets r = Some (orderedPackets, r')
    /\ Locked.orderingBuffer r' !! Locked.nextExpectedSeq r' = None.
Proof.
  unfold Locked.GetOrderedPackets.
  assert (Hgen : forall fuel buf next acc, (size buf <= fuel)%nat ->
            exists out buf' next',
              Locked.collect_ordered fuel buf next acc = Some (out, buf', next')
              /\ buf' !! next' = None).
  { induction fuel as [|fuel IH]; intros buf next acc Hsize.
    - apply Nat.le_0_r, map_size_empty_inv in Hsize. subst buf.
      exists acc, ∅, next. cbn. by rewrite lookup_empty.
    - cbn [Locked.collect_ordered].
      destruct (buf !! next) as [p|] eqn:Hnext; [|by exists acc, buf, next].
      apply IH. rewrite map_size_delete, Hnext. lia. }
  destruct (Hgen (size (Locked.orderingBuffer r)) (Locked.orderingBuffer r)
              (Locked.nextExpectedSeq r) [] (Nat.le_refl _))
    as (out & buf' & next' & Hrun & Hstop).
  rewrite Hrun. cbn. by eexists _, _.
Qed.

(** Nothing is released while the next expected sequence number is
    missing. *)
Lemma GetOrderedPackets_gap (r : Locked.ReliabilityLayer) :
  Locked.orderingBuffer r !! Locked.nextExpectedSeq r = None ->
  Locked.GetOrderedPackets r = Some ([], r).
Proof.
  intros Hgap. unfold Locked.GetOrderedPackets.
  destruct (size (Locked.orderingBuffer r)); cbn; rewrite Hgap; cbn;
    by destruct r.
Qed.

Lemma ReceivePacket_inv packet r delivered :
  ordering_inv (Locked.receivedSeqs r) (Locked.orderingBuffer r) delivered ->
  ordering_inv (Locked.receivedSeqs (Locked.ReceivePacket packet r).2)
               (Locked.orderingBuffer (Locked.ReceivePacket packet r).2)
               delivered.
Proof.
  intros (Hbuf & Hdel & Hnodup). unfold Locked.ReceivePacket.
  destruct (Locked.maxBufferSize r <=? _); [done|].
  destruct (Locked.IsPacketDuplicate packet r) eqn:Hdup; [done|].
  unfold Locked.IsPacketDuplicate in Hdup. cbn.
  assert (Hnew : Locked.receivedSeqs r !! SeqNum packet <> Some true)
    by (intros Heq; rewrite Heq in Hdup; discriminate).
  split; [|split; [|done]].
  - intros k p Hp. apply lookup_insert_Some in Hp as [[<- <-]|[Hne Hp]].
    + split; [done|]. apply lookup_insert_eq.
    + destruct (Hbuf k p Hp) as [Hs Hseen]. split; [done|].
      by rewrite lookup_insert_ne.
  - intros p Hp. destruct (Hdel p Hp) as [Hseen Hb].
    assert (Hne : SeqNum packet <> SeqNum p) by congruence.
    by rewrite !lookup_insert_ne.
Qed.

(** On the lock-protected engine every run of the receive path returns, and
    no sequence number is delivered twice. *)
Lemma locked_run_at_most_once (ops : list ReceiveOp) :
  forall (r : Locked.ReliabilityLayer) (delivered : list Packet),
    ordering_inv (Locked.receivedSeqs r) (Locked.orderingBuffer r) delivered ->
    exists r' delivered',
      locked_run ops r delivered = Some (r', delivered')
      /\ NoDup (SeqNum <$> delivered').
Proof.
  induction ops as [|[packet|] ops IH]; intros r delivered Hinv.
  - exists r, delivered. split; [done|]. apply Hinv.
  - cbn [locked_run]. by apply IH, ReceivePacket_inv.
  - cbn [locked_run]. unfold Locked.GetOrderedPackets.
    destruct (collect_ordered_inv (Locked.receivedSeqs r) delivered
                (size (Locked.orderingBuffer r)) (Locked.orderingBuffer r)
                (Locked.nextExpectedSeq r) [])
      as (out & buf' & next' & Hrun & _ & Hinv').
    { done. } { by rewrite app_nil_r. }
    rewrite Hrun. cbn. by apply IH.
Qed.

Lemma ordering_inv_new :
  ordering_inv (Locked.receivedSeqs Locked.NewReliabilityLayer)
               (Locked.orderingBuffer Locked.NewReliabilityLayer) [].
Proof.
  split; [|split].
  - intros k p Hp. cbn in Hp. by rewrite lookup_empty in Hp.
  - intros p Hp. by apply elem_of_nil in Hp.
  - cbn. apply NoDup_nil_2.
Qed.

(** What one call of [GetOrderedPackets] releases is the run of consecutive
    sequence numbers that starts at the next expected one, up to the first
    that is not buffered. *)
Lemma collect_ordered_consecutive :
  forall (fuel : nat) (buf : gmap Z Packet) (next : Z) (acc out : list Packet)
         (buf' : gmap Z Packet) (next' : Z),
    (forall k p, buf !! k = Some p -> SeqNum p = k) ->
    Locked.collect_ordered fuel buf next acc = Some (out, buf', next') ->
    exists released,
      out = acc ++ released
      /\ SeqNum <$> released = consecutive next (length released)
      /\ buf' !! next' = None.
Proof.
  induction fuel as [|fuel IH]; intros buf next acc out buf' next' Hkeys Hrun;
    cbn [Locked.collect_ordered] in Hrun;
    destruct (buf !! next) as [p|] eqn:Hnext; try discriminate.
  - injection Hrun as <- <- <-. exists []. by rewrite app_nil_r.
  - apply IH in Hrun as (released & -> & Hseq & Hstop).
    + exists (p :: released). rewrite <- app_assoc. split; [done|].
      split; [|done]. cbn. by rewrite (Hkeys next p Hnext), Hseq.
    + intros k q Hq. apply lookup_delete_Some in Hq as [_ Hq]. by apply Hkeys.
  - injection Hrun as <- <- <-. exists []. by rewrite app_nil_r.
Qed.

Lemma GetOrderedPackets_consecutive (r r' : Locked.ReliabilityLayer)
    (released : list Packet) :
  (forall k p, Locked.orderingBuffer r !! k = Some p -> SeqNum p = k) ->
  Locked.GetOrderedPackets r = Some (released, r') ->
  SeqNum <$> released
  = consecutive (Locked.nextExpectedSeq r) (length released)
  /\ Locked.orderingBuffer r' !! Locked.nextExpectedSeq r' = None.
Proof.
  intros Hkeys Hget. unfold Locked.GetOrderedPackets in Hget.
  destruct (Locked.collect_ordered _ _ _ _) as [[[out buf'] next']|] eqn:Hrun;
    [|discriminate].
  cbn in Hget. injection Hget as <- <-.
  by destruct (collect_ordered_consecutive _ _ _ _ _ _ _ Hkeys Hrun)
    as (released & -> & Hseq & Hstop).
Qed.

(** C1 (the code departs from the claim).  On a freshly created engine the
    DATA packets 503, 501 and 502 are accepted, and [GetOrderedPackets] then
    releases nothing: the engine expects sequence number 1 and the three
    packets stay buffered behind the gap. *)
Theorem fresh_engine_withholds_501_502_503 :
  (Locked.ReceivePacket (data_packet 503) Locked.NewReliabilityLayer).1 = None
  /\ Locked.nextExpectedSeq locked_received_503_501_502 = 1
  /\ (Locked.orderingBuffer locked_received_503_501_502 !! 501
      = Some (data_packet 501)
      /\ Locked.orderingBuffer locked_received_503_501_502 !! 502
         = Some (data_packet 502)
      /\ Locked.orderingBuffer locked_received_503_501_502 !! 503
         = Some (data_packet 503))
  /\ Locked.GetOrderedPackets locked_received_503_501_502
     = Some ([], locked_received_503_501_502).
Proof.
  split; [reflexivity|]. split; [reflexivity|]. split.
  - repeat split; vm_compute; reflexivity.
  - apply GetOrderedPackets_gap. reflexivity.
Qed.

(** The ordering mechanism itself does what C1 describes once the engine
    expects 501: nothing is released while 501 is missing, 501 alone while
    502 is missing, and 501, 502, 503 in increasing order in the end. *)
Example expecting_501_releases_in_order :
  (fst <$> Locked.GetOrderedPackets
             (Locked.ReceivePacket (data_packet 503) locked_expecting_501).2)
  = Some []
  /\ (fst <$> Locked.GetOrderedPackets
                (Locked.ReceivePacket (data_packet 501)
                   (Locked.ReceivePacket (data_packet 503)
                      locked_expecting_501).2).2)
     = Some [data_packet 501]
  /\ (fst <$> Locked.GetOrderedPackets
                (Locked.ReceivePacket (data_packet 502)
                   (Locked.ReceivePacket (data_packet 501)
                      (Locked.ReceivePacket (data_packet 503)
                         locked_expecting_501).2).2).2)
     = Some [data_packet 501; data_packet 502; data_packet 503].
Proof. repeat split; vm_compute; reflexivity. Qed.

(** The lock-free engine does not order at all: it hands the packets over
    in the order of their arrival ("TODO: Implement proper ordering using the
    ring buffer"). *)
Example lockfree_releases_in_arrival_order :
  (snd <$> (LockFree.NewLockFreeReliabilityLayer
              ≫= fun rf =>
                   lockfree_run [OpReceive (data_packet 503);
                                 OpReceive (data_packet 501);
                                 OpReceive (data_packet 502); OpDrain] rf []))
  = Some [data_packet 503; data_packet 501; data_packet 502].
Proof. vm_compute. reflexivity. Qed.

(** ** Duplicate suppression *)

(** The lock-protected engine delivers each sequence number at most once,
    whatever the run of the receive path. *)
Lemma locked_delivers_at_most_once (ops : list ReceiveOp) :
  exists r delivered,
    locked_run ops Locked.NewReliabilityLayer [] = Some (r, delivered)
    /\ NoDup (SeqNum <$> delivered).
Proof. apply locked_run_at_most_once, ordering_inv_new. Qed.

(** C4 (the code departs from the claim).  The lock-free engine accepts the
    DATA packet 7 twice and delivers it twice: its duplicate check is a stub
    that answers "not a duplicate". *)
Theorem lockfree_delivers_duplicate_twice :
  (snd <$> (LockFree.NewLockFreeReliabilityLayer
              ≫= fun rf => lockfree_run duplicate_run rf []))
  = Some [data_packet 7; data_packet 7]
  /\ ~ NoDup (SeqNum <$> [data_packet 7; data_packet 7])
  /\ (forall seqNum rf, LockFree.isDuplicate seqNum rf = false).
Proof.
  split; [vm_compute; reflexivity|]. split; [|reflexivity].
  intros Hnd. apply NoDup_cons in Hnd as [Hnotin _].
  apply Hnotin. constructor.
Qed.

(** ** The timeout scan *)

Lemma scan_entry_spec now timeout key e timedOut rf :
  LockFree.scan_entry now timeout key e (timedOut, rf)
  = Some (true,
          (if LockFree.expired now timeout e
           then LockFree.refresh now e else e),
          (if LockFree.expired now timeout e
           then timedOut ++ [LockFree.Packet_ e] else timedOut,
           if LockFree.expired now timeout e
           then LockFree.loss_step rf else rf)).
Proof.
  unfold LockFree.scan_entry, LockFree.expired.
  destruct (timeout <? u64 (now - LockFree.SendTime e)); reflexivity.
Qed.

Lemma ForEach_from_scan now timeout sz mk :
  forall (n i : nat) (bs : list (option LockFree.UnackedEntry))
         (timedOut : list Packet) (rf : LockFree.LockFreeReliabilityLayer),
    (i + n)%nat = length bs ->
    LockFree.ForEach_from n i (LockFree.scan_entry now timeout)
      (LockFree.mkLockFreeHashTable bs sz mk) (timedOut, rf)
    = Some (LockFree.mkLockFreeHashTable
              (take i bs ++ (LockFree.scan_bucket now timeout <$> drop i bs))
              sz mk,
            (timedOut ++ LockFree.expired_packets now timeout (drop i bs),
             Nat.iter
               (length (LockFree.expired_packets now timeout (drop i bs)))
               LockFree.loss_step rf)).
Proof.
  induction n as [|n IH]; intros i bs timedOut rf Hlen.
  - rewrite drop_ge, take_ge by lia. cbn. by rewrite !app_nil_r.
  - destruct (lookup_lt_is_Some_2 bs i) as [b Hb]; [lia|].
    cbn [LockFree.ForEach_from LockFree.ht_buckets LockFree.ht_size
         LockFree.ht_mask].
    rewrite Hb. cbn [mbind option_bind].
    rewrite (drop_S bs b i Hb).
    destruct b as [e|].
    + rewrite scan_entry_spec. cbn [mbind option_bind].
      set (e' := if LockFree.expired now timeout e
                 then LockFree.refresh now e else e).
      rewrite IH by (rewrite length_insert; lia).
      rewrite drop_insert_lt by lia.
      rewrite (take_S_r (<[i:=Some e']> bs) i (Some e'))
        by (apply list_lookup_insert_eq; lia).
      rewrite take_insert_ge by lia.
      rewrite <- app_assoc. cbn [app fmap list_fmap].
      unfold LockFree.expired_packets at 3 4. cbn [omap list_omap mbind option_bind].
      fold (LockFree.expired_packets now timeout (drop (S i) bs)).
      unfold LockFree.scan_bucket at 2. cbn [fmap option_fmap option_map].
      fold e'.
      destruct (LockFree.expired now timeout e).
      * cbn [length]. rewrite Nat.iter_succ_r, <- app_assoc. reflexivity.
      * reflexivity.
    + rewrite IH by lia.
      rewrite (take_S_r bs i None Hb), <- app_assoc. reflexivity.
Qed.

Lemma loss_steps_fields (k : nat) rf :
  LockFree.timeoutBase (Nat.iter k LockFree.loss_step rf)
  = LockFree.timeoutBase rf
  /\ LockFree.windowSize (Nat.iter k LockFree.loss_step rf)
     = LockFree.windowSize rf
  /\ LockFree.rttEstimate (Nat.iter k LockFree.loss_step rf)
     = LockFree.rttEstimate rf.
Proof. induction k as [|k IH]; [done|]. cbn. exact IH. Qed.

(** The lock-free scan, for a table whose [size] is the number of its
    buckets (as [NewLockFreeHashTable] builds it). *)
Lemma LockFree_GetTimedOutPackets_spec now rf :
  LockFree.ht_size (LockFree.unackedTable rf)
  = len (LockFree.ht_buckets (LockFree.unackedTable rf)) ->
  exists rf',
    LockFree.GetTimedOutPackets now rf
    = Some (LockFree.expired_packets now (LockFree.timeoutBase rf)
              (LockFree.ht_buckets (LockFree.unackedTable rf)), rf')
    /\ LockFree.unackedTable rf'
       = LockFree.mkLockFreeHashTable
           (LockFree.scan_bucket now (LockFree.timeoutBase rf)
              <$> LockFree.ht_buckets (LockFree.unackedTable rf))
           (LockFree.ht_size (LockFree.unackedTable rf))
           (LockFree.ht_mask (LockFree.unackedTable rf))
    /\ LockFree.timeoutBase rf' = LockFree.timeoutBase rf
    /\ LockFree.windowSize rf' = LockFree.windowSize rf
    /\ LockFree.rttEstimate rf' = LockFree.rttEstimate rf
    /\ LockFree.congWindow rf'
       = LockFree.congWindow
           (Nat.iter
              (length (LockFree.expired_packets now (LockFree.timeoutBase rf)
                         (LockFree.ht_buckets (LockFree.unackedTable rf))))
              LockFree.loss_step rf).
Proof.
  intros Hwf. unfold LockFree.GetTimedOutPackets, LockFree.ForEach.
  destruct (LockFree.unackedTable rf) as [bs sz mk] eqn:Htable.
  cbn [LockFree.ht_buckets LockFree.ht_size LockFree.ht_mask] in *.
  rewrite ForEach_from_scan by (unfold len in Hwf; lia).
  cbn [mbind option_bind take drop app].
  set (k := length (LockFree.expired_packets now (LockFree.timeoutBase rf) bs)).
  destruct (loss_steps_fields k rf) as (Hto & Hws & Hrtt).
  eexists. split; [reflexivity|].
  destruct (0 <? len _); cbn; by rewrite ?Hto, ?Hws, ?Hrtt.
Qed.









(** ** Invariant of the lock-free engine *)

Lemma loss_steps_window (k : nat) rf :
  1 <= LockFree.congWindow rf <= LockFree.windowSize rf ->
  1 <= LockFree.congWindow (Nat.iter k LockFree.loss_step rf)
    <= LockFree.windowSize rf.
Proof.
  intros Hcw. induction k as [|k IH]; [done|].
  change (Nat.iter (S k) LockFree.loss_step rf)
    with (LockFree.loss_step (Nat.iter k LockFree.loss_step rf)).
  set (rf' := Nat.iter k LockFree.loss_step rf) in *.
  change (LockFree.congWindow (LockFree.loss_step rf'))
    with (if LockFree.congWindow rf' / 2 <? 1 then 1
          else LockFree.congWindow rf' / 2).
  set (w := LockFree.congWindow rf') in *.
  destruct (w / 2 <? 1) eqn:Hlt; [lia|].
  apply Z.ltb_ge in Hlt. split; [lia|].
  assert (w / 2 <= w) by (Z.div_mod_to_equations; lia). lia.
Qed.

Lemma updateCongestionWindow_window rf rf' :
  LockFree.windowSize rf = 32 ->
  1 <= LockFree.congWindow rf <= LockFree.windowSize rf ->
  LockFree.updateCongestionWindow true rf = Some rf' ->
  1 <= LockFree.congWindow rf' <= LockFree.windowSize rf'.
Proof.
  intros Hws Hcw Hup.
  destruct (lockfree_window_growth rf Hcw) as (rf2 & Hup2 & Hslow & Havoid);
    [rewrite Hws; by_compute|].
  rewrite Hup in Hup2. injection Hup2 as <-.
  destruct (updateCongestionWindow_rtt _ _ _ Hup) as (_ & _ & Hws' & _).
  rewrite Hws', Hws in *.
  change (32 / 2) with 16 in *.
  destruct (Z_lt_le_dec (LockFree.congWindow rf) 16) as [Hlt|Hge].
  - rewrite Hslow by exact Hlt. lia.
  - rewrite Havoid by lia. lia.
Qed.

Lemma lockfree_step_inv rf rf' :
  lockfree_inv rf -> lockfree_step rf rf' -> lockfree_inv rf'.
Proof.
  intros (Hws & Hcw & Hwf & Hrtt) Hstep.
  destruct Hstep as [rf|now packet rf ok rf' H|now ack rf ok rf' H
                    |packet rf ok rf' H|now rf timedOut rf' H
                    |rf ordered rf' H].
  - done.
  - unfold LockFree.SendPacket, LockFree.Insert in H.
    destruct (negb (IsDataPacket packet)); [by simplify_eq|].
    destruct (LockFree.ht_buckets (LockFree.unackedTable rf) !! _)
      as [[e|]|] eqn:Hb; simplify_eq/=; [done|].
    unfold lockfree_inv. cbn. repeat split; try done; try lia.
    rewrite Hwf. unfold len. f_equal. symmetry. apply length_insert.
  - unfold LockFree.HandleAck, LockFree.Remove in H.
    destruct (negb (HasAck ack)); [by simplify_eq|].
    destruct (LockFree.ht_buckets (LockFree.unackedTable rf) !! _)
      as [[e|]|] eqn:Hb; cbn [mbind option_bind] in H;
      [|by simplify_eq|discriminate].
    set (rf1 := LockFree.updateRTTAtomic _ _) in H.
    destruct (LockFree.updateCongestionWindow true rf1) as [rf2|] eqn:Hup;
      cbn [mbind option_bind] in H; [|discriminate].
    injection H as _ <-.
    destruct (updateCongestionWindow_rtt _ _ _ Hup) as (Hr & _ & Hw & Ht).
    pose proof (updateCongestionWindow_window rf1 rf2 Hws Hcw Hup) as Hcw'.
    unfold lockfree_inv. rewrite Hw, Ht, Hr in *.
    split; [exact Hws|]. split; [exact Hcw'|]. split.
    + cbn. rewrite Hwf. unfold len. f_equal. symmetry. apply length_insert.
    + cbn. apply Z.div_pos; [|lia]. unfold u64. apply Z.mod_pos_bound. lia.
  - unfold LockFree.ReceivePacket in H.
    destruct (negb (IsDataPacket packet)); [by simplify_eq|].
    cbn [LockFree.isDuplicate] in H.
    destruct (LockFree.Enqueue packet (LockFree.recvQueue rf)) as [[[] q]|];
      cbn [mbind option_bind] in H; [| |discriminate];
      by injection H as _ <-.
  - destruct (LockFree_GetTimedOutPackets_spec now rf Hwf)
      as (rf2 & Hscan & Htable & _ & Hw & Hr & Hc).
    rewrite Hscan in H. injection H as _ <-.
    repeat split.
    + by rewrite Hw.
    + rewrite Hc. by apply loss_steps_window.
    + rewrite Hc, Hw. by apply loss_steps_window.
    + rewrite Htable. cbn. rewrite Hwf. unfold len. f_equal. symmetry.
      apply length_fmap.
    + by rewrite Hr.
  - unfold LockFree.GetOrderedPackets in H.
    destruct (LockFree.dequeue_all _ _ _) as [[ps q]|];
      cbn [mbind option_bind] in H; [|discriminate].
    by injection H as _ <-.
Qed.

Lemma lockfree_new_inv rf :
  LockFree.NewLockFreeReliabilityLayer = Some rf -> lockfree_inv rf.
Proof.
  intros H. vm_compute in H. injection H as <-.
  repeat split; by_compute.
Qed.

(** Every reachable state of the lock-free engine satisfies the conditions
    under which the statements about it are made. *)
Lemma lockfree_reachable_inv rf : lockfree_reachable rf -> lockfree_inv rf.
Proof.
  induction 1 as [rf Hnew|rf rf' _ IH Hstep].
  - by apply lockfree_new_inv.
  - by apply (lockfree_step_inv rf).
Qed.

(** The statements about the lock-free engine, at its reachable states. *)
Lemma reachable_ack_congestion_window now ack rf e :
  lockfree_reachable rf ->
  HasAck ack = true ->
  LockFree.tracked (u32 (AckNum ack - 1)) e rf ->
  exists rf',
    LockFree.HandleAck now ack rf = Some (true, rf')
    /\ (LockFree.congWindow rf < 16 ->
        LockFree.congWindow rf' = LockFree.congWindow rf + 1)
    /\ (16 <= LockFree.congWindow rf ->
        LockFree.congWindow rf' = LockFree.congWindow rf).
Proof.
  intros Hreach Hack He.
  destruct (lockfree_reachable_inv rf Hreach) as (Hws & Hcw & _ & _).
  destruct (LockFree_HandleAck_processed now ack rf e Hack He) as [table HA].
  destruct (lockfree_window_growth
              (LockFree.updateRTTAtomic (u64 (now - LockFree.SendTime e))
                 (LockFree.set_unackedTable table rf)) Hcw)
    as (rf' & Hup & Hslow & Havoid);
    [change (is_u32 (LockFree.windowSize rf)); rewrite Hws; by_compute|].
  cbn [LockFree.windowSize LockFree.congWindow LockFree.updateRTTAtomic
       LockFree.set_unackedTable LockFree.set_timeoutBase
       LockFree.set_rttEstimate] in Hslow, Havoid.
  rewrite Hws in Hslow, Havoid. change (32 / 2) with 16 in *.
  exists rf'. rewrite HA, Hup. split; [reflexivity|]. split; [exact Hslow|].
  intros Hge. apply Havoid; lia.
Qed.

Lemma reachable_timeout_scan now rf :
  lockfree_reachable rf ->
  exists rf',
    LockFree.GetTimedOutPackets now rf
    = Some (LockFree.expired_packets now (LockFree.timeoutBase rf)
              (LockFree.ht_buckets (LockFree.unackedTable rf)), rf')
    /\ LockFree.ht_buckets (LockFree.unackedTable rf')
       = (LockFree.scan_bucket now (LockFree.timeoutBase rf)
            <$> LockFree.ht_buckets (LockFree.unackedTable rf)).
Proof.
  intros Hreach.
  destruct (lockfree_reachable_inv rf Hreach) as (_ & _ & Hwf & _).
  destruct (LockFree_GetTimedOutPackets_spec now rf Hwf)
    as (rf' & Hscan & Htable & _).
  exists rf'. split; [exact Hscan|]. by rewrite Htable.
Qed.

(** * Further properties of the code *)

(** ** Byte order on the wire *)

Lemma htonl_byte v k :
  0 <= k < 4 ->
  Z.land (Z.shiftr (htonl v) (8 * k)) 0xff
  = Z.land (Z.shiftr v (8 * (3 - k))) 0xff.
Proof.
  intros Hk. change 0xff with (Z.ones 8).
  apply Z.bits_inj'. intros n Hn.
  rewrite !Z.land_spec, !Z.shiftr_spec, !Z.testbit_ones by lia.
  destruct (Z_lt_le_dec n 8) as [Hlt|Hge].
  - rewrite htonl_testbit by lia.
    assert (Hc : k = 0 \/ k = 1 \/ k = 2 \/ k = 3) by lia.
    destruct Hc as [-> | [-> | [-> | ->]]]; decide_cmp; bool_simpl; f_equal; lia.
  - decide_cmp. by rewrite !andb_false_r.
Qed.

Lemma htons_byte v k :
  0 <= k < 2 ->
  Z.land (Z.shiftr (htons v) (8 * k)) 0xff
  = Z.land (Z.shiftr v (8 * (1 - k))) 0xff.
Proof.
  intros Hk. change 0xff with (Z.ones 8).
  apply Z.bits_inj'. intros n Hn.
  rewrite !Z.land_spec, !Z.shiftr_spec, !Z.testbit_ones by lia.
  destruct (Z_lt_le_dec n 8) as [Hlt|Hge].
  - rewrite htons_testbit by lia.
    assert (Hc : k = 0 \/ k = 1) by lia.
    destruct Hc as [-> | ->]; decide_cmp; bool_simpl; f_equal; lia.
  - decide_cmp. by rewrite !andb_false_r.
Qed.

(** X1.  [htonl] and [htons] followed by a native store put a word on the
    wire most significant byte first (network byte order, on the
    little-endian host), and [ntohl], [ntohs] undo them: on 32-bit and 16-bit
    words each pair is a pair of inverse bijections. *)
Theorem network_byte_order (v w : Z) :
  is_u32 v -> is_u16 w ->
  store_uint32 [0; 0; 0; 0] 0 (htonl v)
  = [Z.land (Z.shiftr v 24) 0xff; Z.land (Z.shiftr v 16) 0xff;
     Z.land (Z.shiftr v 8) 0xff; Z.land v 0xff]
  /\ store_uint16 [0; 0] 0 (htons w)
     = [Z.land (Z.shiftr w 8) 0xff; Z.land w 0xff]
  /\ is_u32 (htonl v) /\ ntohl (htonl v) = v /\ htonl (ntohl v) = v
  /\ is_u16 (htons w) /\ ntohs (htons w) = w /\ htons (ntohs w) = w.
Proof.
  intros Hv Hw.
  assert (H0 : Z.land (htonl v) 0xff = Z.land (Z.shiftr v 24) 0xff)
    by (apply (htonl_byte v 0); lia).
  assert (H1 : Z.land (Z.shiftr (htonl v) 8) 0xff
               = Z.land (Z.shiftr v 16) 0xff)
    by (apply (htonl_byte v 1); lia).
  assert (H2 : Z.land (Z.shiftr (htonl v) 16) 0xff
               = Z.land (Z.shiftr v 8) 0xff)
    by (apply (htonl_byte v 2); lia).
  assert (H3 : Z.land (Z.shiftr (htonl v) 24) 0xff = Z.land v 0xff)
    by (apply (htonl_byte v 3); lia).
  assert (G0 : Z.land (htons w) 0xff = Z.land (Z.shiftr w 8) 0xff)
    by (apply (htons_byte w 0); lia).
  assert (G1 : Z.land (Z.shiftr (htons w) 8) 0xff = Z.land w 0xff)
    by (apply (htons_byte w 1); lia).
  split.
  { change (store_uint32 [0; 0; 0; 0] 0 (htonl v))
      with [Z.land (htonl v) 0xff; Z.land (Z.shiftr (htonl v) 8) 0xff;
            Z.land (Z.shiftr (htonl v) 16) 0xff;
            Z.land (Z.shiftr (htonl v) 24) 0xff].
    by rewrite H0, H1, H2, H3. }
  split.
  { change (store_uint16 [0; 0] 0 (htons w))
      with [Z.land (htons w) 0xff; Z.land (Z.shiftr (htons w) 8) 0xff].
    by rewrite G0, G1. }
  unfold is_u32 in Hv. unfold is_u16 in Hw.
  split; [apply htonl_range; lia|]. split; [by apply ntohl_htonl|].
  split; [change (htonl (ntohl v)) with (ntohl (htonl v)); by apply ntohl_htonl|].
  split; [apply htons_range; lia|]. split; [by apply ntohs_htons|].
  change (htons (ntohs w)) with (ntohs (htons w)). by apply ntohs_htons.
Qed.

Lemma network_byte_order_witness :
  store_uint32 [0; 0; 0; 0] 0 (htonl 0x01020304) = [1; 2; 3; 4]
  /\ store_uint16 [0; 0] 0 (htons 0x0102) = [1; 2].
Proof.
  assert (Hv : is_u32 0x01020304) by by_compute.
  assert (Hw : is_u16 0x0102) by by_compute.
  destruct (network_byte_order 0x01020304 0x0102 Hv Hw) as (H32 & H16 & _).
  rewrite H32, H16. split; reflexivity.
Defined.

(** ** The codec beyond the round trip *)

Ltac byte_bits :=
  repeat match goal with
  | H : is_u8 ?b |- context [Z.testbit ?b ?k] =>
      rewrite (testbit_above b 8 k) by (first [exact H | lia])
  | |- context [Z.testbit ?b ?k] =>
      rewrite (Z.testbit_neg_r b k) by lia
  end.

Lemma le_word32_byte0 b0 b1 b2 b3 :
  is_u8 b0 -> is_u8 b1 -> is_u8 b2 -> is_u8 b3 ->
  Z.land (le_word32 b0 b1 b2 b3) 0xff = b0
  /\ Z.land (Z.shiftr (le_word32 b0 b1 b2 b3) 8) 0xff = b1
  /\ Z.land (Z.shiftr (le_word32 b0 b1 b2 b3) 16) 0xff = b2
  /\ Z.land (Z.shiftr (le_word32 b0 b1 b2 b3) 24) 0xff = b3.
Proof.
  intros H0 H1 H2 H3. unfold le_word32. change 0xff with (Z.ones 8).
  repeat split; apply Z.bits_inj'; intros n Hn;
    (destruct (Z_lt_le_dec n 8) as [Hc|Hc];
     [ bits_case; byte_bits; bool_simpl; try reflexivity; try (f_equal; lia)
     | bits_case; byte_bits; bool_simpl; try reflexivity ]).
Qed.

Lemma le_word16_split b0 b1 :
  is_u8 b0 -> is_u8 b1 ->
  Z.land (le_word16 b0 b1) 0xff = b0
  /\ Z.land (Z.shiftr (le_word16 b0 b1) 8) 0xff = b1.
Proof.
  intros H0 H1. unfold le_word16. change 0xff with (Z.ones 8).
  repeat split; apply Z.bits_inj'; intros n Hn;
    (destruct (Z_lt_le_dec n 8) as [Hc|Hc];
     [ bits_case; byte_bits; bool_simpl; try reflexivity; try (f_equal; lia)
     | bits_case; byte_bits; bool_simpl; try reflexivity ]).
Qed.

Lemma le_word32_range b0 b1 b2 b3 :
  is_u8 b0 -> is_u8 b1 -> is_u8 b2 -> is_u8 b3 ->
  is_u32 (le_word32 b0 b1 b2 b3).
Proof.
  intros H0 H1 H2 H3. unfold is_u32.
  assert (Hnn : 0 <= le_word32 b0 b1 b2 b3).
  { unfold le_word32, is_u8 in *. nonneg_bits. }
  split; [exact Hnn|]. apply below_pow2_of_bits; [lia|exact Hnn|].
  intros n Hn. unfold le_word32. bits_case; byte_bits; reflexivity.
Qed.

Lemma le_word16_range b0 b1 :
  is_u8 b0 -> is_u8 b1 -> is_u16 (le_word16 b0 b1).
Proof.
  intros H0 H1. unfold is_u16.
  assert (Hnn : 0 <= le_word16 b0 b1).
  { unfold le_word16, is_u8 in *. nonneg_bits. }
  split; [exact Hnn|]. apply below_pow2_of_bits; [lia|exact Hnn|].
  intros n Hn. unfold le_word16. bits_case; byte_bits; reflexivity.
Qed.

(** The first header byte is rebuilt from its two nibbles. *)
Lemma first_byte_nibbles b :
  is_u8 b ->
  Z.lor (u8 (Z.shiftl (Z.land (Z.shiftr b 4) 0x0F) 4)) (Z.land b 0x0F) = b.
Proof.
  intros Hb. unfold u8. rewrite <- Z.land_ones by lia.
  change 0x0F with (Z.ones 4).
  apply Z.bits_inj'. intros n Hn.
  assert (Hc : n < 4 \/ 4 <= n < 8 \/ 8 <= n) by lia.
  destruct Hc as [Hc|[Hc|Hc]]; bits_case; byte_bits; try reflexivity.
Qed.

Lemma decoded_fields (data : list Z) (p : Packet) :
  DeserializePacket data = Some (Ok p) ->
  PACKET_HEADER_SIZE <= len data
  /\ wire_length data = len data
  /\ wire_version data = PROTOCOL_VERSION
  /\ calculateChecksum (take 12 data) (drop 16 data) = Some (wire_checksum data)
  /\ p = mkPacket (wire_version data) (wire_type data) (byte_at data 1)
                  (wire_length data) (ntohl (load_uint32 data 4))
                  (ntohl (load_uint32 data 8)) (wire_checksum data)
                  (drop 16 data).
Proof.
  intros HD. unfold DeserializePacket in HD.
  destruct (len data <? PACKET_HEADER_SIZE) eqn:Hshort; [discriminate|].
  apply Z.ltb_ge in Hshort.
  destruct (wire_length data =? len data) eqn:HL; [|discriminate].
  apply Z.eqb_eq in HL.
  destruct (wire_version data =? PROTOCOL_VERSION) eqn:HV; [|discriminate].
  apply Z.eqb_eq in HV. cbn [negb] in HD.
  destruct (calculateChecksum (take 12 data) (drop 16 data)) as [ec|] eqn:Hsum;
    [|discriminate].
  cbn [mbind option_bind] in HD.
  destruct (wire_checksum data =? ec) eqn:HC; [|discriminate].
  apply Z.eqb_eq in HC. cbn [negb] in HD. subst ec.
  repeat split; try assumption.
  injection HD as <-. f_equal.
  assert (Hlen : length (drop 16 data) = Z.to_nat (wire_length data - PACKET_HEADER_SIZE)).
  { rewrite length_drop, HL. unfold len, PACKET_HEADER_SIZE in *. lia. }
  destruct (PACKET_HEADER_SIZE <? wire_length data) eqn:Hpos.
  - by rewrite copy_zeroes.
  - apply Z.ltb_ge in Hpos. symmetry. apply nil_length_inv. rewrite Hlen. lia.
Qed.

Lemma header_bytes_decoded b0 b1 b2 b3 b4 b5 b6 b7 b8 b9 b10 b11 b12 b13 b14 b15
    rest (x : Z) :
  Forall is_u8 [b0; b1; b2; b3; b4; b5; b6; b7; b8; b9; b10; b11] ->
  let data := b0 :: b1 :: b2 :: b3 :: b4 :: b5 :: b6 :: b7 :: b8 :: b9 :: b10
                 :: b11 :: b12 :: b13 :: b14 :: b15 :: rest in
  header_bytes (mkPacket (wire_version data) (wire_type data) (byte_at data 1)
                  (wire_length data) (ntohl (load_uint32 data 4))
                  (ntohl (load_uint32 data 8)) (wire_checksum data)
                  (drop 16 data)) x
  = [b0; b1; b2; b3; b4; b5; b6; b7; b8; b9; b10; b11;
     Z.land x 0xff; Z.land (Z.shiftr x 8) 0xff; Z.land (Z.shiftr x 16) 0xff;
     Z.land (Z.shiftr x 24) 0xff].
Proof.
  intros Hb data.
  repeat match goal with
  | H : Forall _ (_ :: _) |- _ => apply Forall_cons in H as [? H]
  end.
  unfold header_bytes. cbn [Version Type_ Flags Length SeqNum AckNum].
  change (wire_version data) with (Z.land (Z.shiftr b0 4) 0x0F).
  change (wire_type data) with (Z.land b0 0x0F).
  change (byte_at data 1) with b1.
  change (htons (wire_length data)) with (ntohs (htons (le_word16 b2 b3))).
  change (htonl (ntohl (load_uint32 data 4)))
    with (ntohl (htonl (le_word32 b4 b5 b6 b7))).
  change (htonl (ntohl (load_uint32 data 8)))
    with (ntohl (htonl (le_word32 b8 b9 b10 b11))).
  rewrite <- (Z.land_assoc b0 15 15). change (Z.land 15 15) with 15.
  rewrite first_byte_nibbles by assumption.
  rewrite ntohs_htons by by apply le_word16_range.
  rewrite !ntohl_htonl by by apply le_word32_range.
  destruct (le_word16_split b2 b3) as [-> ->]; [assumption..|].
  destruct (le_word32_byte0 b4 b5 b6 b7) as (-> & -> & -> & ->); [assumption..|].
  destruct (le_word32_byte0 b8 b9 b10 b11) as (-> & -> & -> & ->);
    [assumption..|].
  reflexivity.
Qed.

(** X2.  Encoding undoes decoding: when [DeserializePacket] accepts a
    datagram of bytes, [Serialize] of the decoded packet returns that very
    datagram, byte for byte, and leaves the packet as it is (the checksum it
    computes is the one the datagram carried). *)
Theorem decode_encode (data : list Z) (p : Packet) :
  Forall is_u8 data ->
  DeserializePacket data = Some (Ok p) ->
  Serialize p = Some (data, p).
Proof.
  intros Hb HD.
  destruct (decoded_fields data p HD) as (Hlen & HL & HV & Hsum & Hp).
  unfold PACKET_HEADER_SIZE, len in Hlen.
  destruct data as [|b0 [|b1 [|b2 [|b3 [|b4 [|b5 [|b6 [|b7 [|b8 [|b9 [|b10 [|b11
    [|b12 [|b13 [|b14 [|b15 rest]]]]]]]]]]]]]]]]; try (simpl in Hlen; lia).
  set (data := b0 :: b1 :: b2 :: b3 :: b4 :: b5 :: b6 :: b7 :: b8 :: b9 :: b10
                 :: b11 :: b12 :: b13 :: b14 :: b15 :: rest) in *.
  assert (Hhdr := fun x H => header_bytes_decoded b0 b1 b2 b3 b4 b5 b6 b7 b8 b9
                       b10 b11 b12 b13 b14 b15 rest x H).
  cbv zeta in Hhdr. fold data in Hhdr. rewrite <- Hp in Hhdr.
  assert (Hb12 : Forall is_u8 [b0; b1; b2; b3; b4; b5; b6; b7; b8; b9; b10; b11]).
  { exact (Forall_take _ 12%nat _ Hb). }
  assert (Hc4 : Forall is_u8 [b12; b13; b14; b15]).
  { exact (Forall_take _ 4%nat _ (Forall_drop _ 12%nat _ Hb)). }
  assert (HLp : Length p = PACKET_HEADER_SIZE + len (Payload p)).
  { rewrite Hp. cbn [Length Payload]. rewrite HL. unfold len, PACKET_HEADER_SIZE.
    rewrite length_drop. simpl length. lia. }
  destruct (Serialize_header p HLp) as (c & Hc & Hrange & HS).
  rewrite HS. rewrite !Hhdr by exact Hb12.
  rewrite Hhdr in Hc by exact Hb12.
  assert (Hpay : Payload p = rest) by (rewrite Hp; reflexivity).
  rewrite Hpay in *.
  change (calculateChecksum [b0; b1; b2; b3; b4; b5; b6; b7; b8; b9; b10; b11] rest
          = Some c) in Hc.
  change (calculateChecksum [b0; b1; b2; b3; b4; b5; b6; b7; b8; b9; b10; b11] rest
          = Some (wire_checksum data)) in Hsum.
  assert (Hcw : c = wire_checksum data) by congruence.
  assert (Hcp : set_Checksum c p = p) by (rewrite Hcw, Hp; reflexivity).
  rewrite Hcp. rewrite Hcw.
  change (htonl (wire_checksum data))
    with (ntohl (htonl (le_word32 b12 b13 b14 b15))).
  repeat match goal with
  | H : Forall _ (_ :: _) |- _ => apply Forall_cons in H as [? H]
  end.
  rewrite ntohl_htonl by by apply le_word32_range.
  destruct (le_word32_byte0 b12 b13 b14 b15) as (-> & -> & -> & ->);
    [assumption..|].
  reflexivity.
Qed.

Lemma decode_encode_witness :
  exists p,
    DeserializePacket datagram_hi = Some (Ok p)
    /\ Serialize p = Some (datagram_hi, p).
Proof.
  assert (Hb : Forall is_u8 datagram_hi)
    by (repeat constructor; unfold is_u8; lia).
  eexists.
  assert (HD : DeserializePacket datagram_hi
               = Some (Ok (mkPacket 1 1 0 18 7 0 4294936189 [104; 105])))
    by (vm_compute; reflexivity).
  split; [exact HD|]. exact (decode_encode datagram_hi _ Hb HD).
Defined.


(** X4.  What an accepted datagram guarantees: the decoded packet has
    protocol version 1, a type below 16, a [Length] equal to the size of the
    datagram (at least the header size), the bytes after the header as its
    payload, and a [Checksum] equal to the checksum of the first twelve
    header bytes and the payload. *)
Theorem decoded_packet_valid (data : list Z) (p : Packet) :
  DeserializePacket data = Some (Ok p) ->
  Version p = PROTOCOL_VERSION
  /\ 0 <= Type_ p < 16
  /\ PACKET_HEADER_SIZE <= len data
  /\ Length p = len data
  /\ Payload p = drop 16 data
  /\ Length p = PACKET_HEADER_SIZE + len (Payload p)
  /\ calculateChecksum (take 12 data) (Payload p) = Some (Checksum p).
Proof.
  intros HD.
  destruct (decoded_fields data p HD) as (Hlen & HL & HV & Hsum & ->).
  cbn [Version Type_ Length Payload Checksum].
  repeat split; try assumption.
  - unfold wire_type. apply Z.land_nonneg. right. lia.
  - unfold wire_type. change 0x0F with (Z.ones 4). 
    destruct (Z_lt_le_dec (byte_at data 0) 0) as [Hneg|Hpos].
    + rewrite Z.land_ones by lia. apply Z.mod_pos_bound. lia.
    + rewrite Z.land_ones by lia. apply Z.mod_pos_bound. lia.
  - rewrite HL. unfold len, PACKET_HEADER_SIZE in *. rewrite length_drop. lia.
Qed.

Lemma decoded_packet_valid_witness :
  exists p,
    DeserializePacket datagram_hi = Some (Ok p)
    /\ Version p = PROTOCOL_VERSION /\ Length p = len datagram_hi
    /\ Payload p = [104; 105].
Proof.
  eexists.
  assert (HD : DeserializePacket datagram_hi
               = Some (Ok (mkPacket 1 1 0 18 7 0 4294936189 [104; 105])))
    by (vm_compute; reflexivity).
  destruct (decoded_packet_valid datagram_hi _ HD)
    as (Hv & _ & _ & HL & Hp & _).
  split; [exact HD|]. split; [exact Hv|]. split; [exact HL|exact Hp].
Defined.

Lemma wire_checksum_inj b0 b1 b2 b3 c0 c1 c2 c3 :
  Forall is_u8 [b0; b1; b2; b3] -> Forall is_u8 [c0; c1; c2; c3] ->
  ntohl (le_word32 b0 b1 b2 b3) = ntohl (le_word32 c0 c1 c2 c3) ->
  b0 = c0 /\ b1 = c1 /\ b2 = c2 /\ b3 = c3.
Proof.
  intros Hb Hc Heq.
  repeat match goal with
  | H : Forall _ (_ :: _) |- _ => apply Forall_cons in H as [? H]
  end.
  apply (f_equal htonl) in Heq.
  change (htonl (ntohl ?w)) with (ntohl (htonl w)) in Heq.
  rewrite !ntohl_htonl in Heq by by apply le_word32_range.
  destruct (le_word32_byte0 b0 b1 b2 b3) as (E0 & E1 & E2 & E3); [assumption..|].
  destruct (le_word32_byte0 c0 c1 c2 c3) as (F0 & F1 & F2 & F3); [assumption..|].
  rewrite Heq in E0, E1, E2, E3. repeat split; congruence.
Qed.

(** X5.  Changing one of the four checksum bytes (offsets 12 to 15) of an
    accepted datagram to another byte value makes [DeserializePacket] reject
    it with the checksum-mismatch error. *)
Theorem checksum_field_tamper (data : list Z) (p : Packet) (i : nat) (b : Z) :
  Forall is_u8 data ->
  DeserializePacket data = Some (Ok p) ->
  (12 <= i < 16)%nat -> is_u8 b -> b <> byte_at data i ->
  DeserializePacket (<[i := b]> data) = Some (Err ChecksumMismatch).
Proof.
  intros Hb HD Hi Hbyte Hne.
  destruct (decoded_fields data p HD) as (Hlen & HL & HV & Hsum & _).
  unfold PACKET_HEADER_SIZE, len in Hlen.
  destruct data as [|b0 [|b1 [|b2 [|b3 [|b4 [|b5 [|b6 [|b7 [|b8 [|b9 [|b10 [|b11
    [|b12 [|b13 [|b14 [|b15 rest]]]]]]]]]]]]]]]]; try (simpl in Hlen; lia).
  assert (Hc4 : Forall is_u8 [b12; b13; b14; b15]).
  { exact (Forall_take _ 4%nat _ (Forall_drop _ 12%nat _ Hb)). }
  set (data := b0 :: b1 :: b2 :: b3 :: b4 :: b5 :: b6 :: b7 :: b8 :: b9 :: b10
                 :: b11 :: b12 :: b13 :: b14 :: b15 :: rest) in *.
  set (data' := <[i := b]> data).
  assert (Hsame : len data' = len data /\ wire_length data' = wire_length data
                  /\ wire_version data' = wire_version data
                  /\ take 12 data' = take 12 data
                  /\ drop 16 data' = drop 16 data).
  { assert (Hc : i = 12%nat \/ i = 13%nat \/ i = 14%nat \/ i = 15%nat) by lia.
    subst data'. destruct Hc as [-> | [-> | [-> | ->]]]; repeat split. }
  destruct Hsame as (E1 & E2 & E3 & E4 & E5).
  unfold DeserializePacket. rewrite E1, E2, E3, E4, E5, Hsum.
  rewrite (proj2 (Z.ltb_ge _ _)) by (unfold len, PACKET_HEADER_SIZE; lia).
  rewrite HL, HV, !Z.eqb_refl. cbn [negb mbind option_bind].
  destruct (wire_checksum data' =? wire_checksum data) eqn:Hcs; [|reflexivity].
  exfalso. apply Z.eqb_eq in Hcs.
  repeat match goal with
  | H : Forall _ (_ :: _) |- _ => apply Forall_cons in H as [? H]
  end.
  assert (Hc : i = 12%nat \/ i = 13%nat \/ i = 14%nat \/ i = 15%nat) by lia.
  subst data'.
  destruct Hc as [-> | [-> | [-> | ->]]];
    [ destruct (wire_checksum_inj b b13 b14 b15 b12 b13 b14 b15)
        as (? & ? & ? & ?)
    | destruct (wire_checksum_inj b12 b b14 b15 b12 b13 b14 b15)
        as (? & ? & ? & ?)
    | destruct (wire_checksum_inj b12 b13 b b15 b12 b13 b14 b15)
        as (? & ? & ? & ?)
    | destruct (wire_checksum_inj b12 b13 b14 b b12 b13 b14 b15)
        as (? & ? & ? & ?) ];
    try exact Hcs;
    try (repeat (apply Forall_cons_2; [assumption|]); apply Forall_nil_2);
    apply Hne; assumption.
Qed.

Lemma checksum_field_tamper_witness :
  DeserializePacket (<[15%nat := 0]> datagram_hi) = Some (Err ChecksumMismatch).
Proof.
  assert (Hb : Forall is_u8 datagram_hi)
    by (repeat constructor; unfold is_u8; lia).
  assert (HD : DeserializePacket datagram_hi
               = Some (Ok (mkPacket 1 1 0 18 7 0 4294936189 [104; 105])))
    by (vm_compute; reflexivity).
  apply (checksum_field_tamper datagram_hi _ 15 0 Hb HD).
  - lia.
  - unfold is_u8. lia.
  - by_compute.
Defined.






(** ** Sequence numbers *)

Lemma u32_u64 z : u32 (u64 z) = u32 z.
Proof.
  unfold u32, u64. change (2 ^ 64) with (2 ^ 32 * 2 ^ 32).
  rewrite Z.rem_mul_r by lia.
  rewrite (Z.mul_comm (2 ^ 32) (_ mod _)), Z.mod_add by lia.
  apply Z.mod_mod. lia.
Qed.

Lemma u32_add_l a b : u32 (u32 a + b) = u32 (a + b).
Proof. unfold u32. apply Z.add_mod_idemp_l. lia. Qed.

Lemma locked_seq_nums_spec (n : nat) :
  forall r,
    (locked_seq_nums n r).1 = consecutive (Locked.nextSeqNum r) n
    /\ Locked.nextSeqNum (locked_seq_nums n r).2
       = Nat.iter n (fun s => u32 (s + 1)) (Locked.nextSeqNum r).
Proof.
  induction n as [|n IH]; intros r; [done|].
  cbn [locked_seq_nums]. unfold Locked.GetNextSeqNum.
  set (r1 := Locked.set_nextSeqNum _ r).
  destruct (IH r1) as [IH1 IH2].
  destruct (locked_seq_nums n r1) as [seqs r2]. cbn [fst snd] in *.
  split.
  - cbn [consecutive]. by rewrite IH1.
  - rewrite IH2. change (Locked.nextSeqNum r1) with (u32 (Locked.nextSeqNum r + 1)).
    by rewrite Nat.iter_succ_r.
Qed.

Lemma iter_u32_succ (n : nat) (s : Z) :
  is_u32 s -> Nat.iter n (fun s => u32 (s + 1)) s = u32 (s + Z.of_nat n).
Proof.
  intros Hs. induction n as [|n IH].
  - cbn. rewrite Z.add_0_r. symmetry. by apply u32_small.
  - cbn [Nat.iter nat_rect]. change (nat_rect _ s _ n) with (Nat.iter n (fun s => u32 (s + 1)) s).
    rewrite IH, u32_add_l. f_equal. lia.
Qed.

Lemma lockfree_seq_nums_spec (n : nat) :
  forall rf,
    is_u64 (LockFree.nextSeqNum rf) ->
    (lockfree_seq_nums n rf).1 = consecutive (u32 (LockFree.nextSeqNum rf)) n.
Proof.
  induction n as [|n IH]; intros rf Hrf; [done|].
  cbn [lockfree_seq_nums]. unfold LockFree.GetNextSeqNum.
  set (rf1 := LockFree.set_nextSeqNum _ rf).
  assert (H1 : is_u64 (LockFree.nextSeqNum rf1)).
  { unfold is_u64, rf1, u64. cbn. apply Z.mod_pos_bound. lia. }
  specialize (IH rf1 H1).
  destruct (lockfree_seq_nums n rf1) as [seqs rf2]. cbn [fst snd] in *.
  cbn [consecutive]. rewrite IH.
  change (LockFree.nextSeqNum rf1) with (u64 (LockFree.nextSeqNum rf + 1)).
  rewrite !u32_u64, u32_add_l. f_equal.
  unfold is_u64 in Hrf.
  destruct (Z.eq_dec (LockFree.nextSeqNum rf) (2 ^ 64 - 1)) as [->|Hne].
  - vm_compute. reflexivity.
  - unfold u64. rewrite (Z.mod_small (_ + 1)) by lia. f_equal. lia.
Qed.

(** X7.  Both engines hand out consecutive sequence numbers modulo [2^32]:
    [n] calls of [GetNextSeqNum] return the engine's next sequence number and
    its [n - 1] successors, 0 following 4294967295 (the lock-free engine
    counts in 64 bits and returns the low 32 bits), and the lock-protected
    engine is left with the number after the last one. *)
Theorem sequence_numbers_consecutive (n : nat) :
  (forall r : Locked.ReliabilityLayer,
      is_u32 (Locked.nextSeqNum r) ->
      (locked_seq_nums n r).1 = consecutive (Locked.nextSeqNum r) n
      /\ Locked.NextSeqNum (locked_seq_nums n r).2
         = u32 (Locked.nextSeqNum r + Z.of_nat n))
  /\ (forall rf : LockFree.LockFreeReliabilityLayer,
        is_u64 (LockFree.nextSeqNum rf) ->
        (lockfree_seq_nums n rf).1
        = consecutive (u32 (LockFree.nextSeqNum rf)) n).
Proof.
  split.
  - intros r Hr. destruct (locked_seq_nums_spec n r) as [H1 H2].
    split; [exact H1|]. unfold Locked.NextSeqNum. rewrite H2.
    by apply iter_u32_succ.
  - intros rf Hrf. by apply lockfree_seq_nums_spec.
Qed.

Lemma sequence_numbers_consecutive_witness :
  (locked_seq_nums 3 (Locked.set_nextSeqNum 4294967295 Locked.NewReliabilityLayer)).1
  = [4294967295; 0; 1]
  /\ (exists rf0,
        LockFree.NewLockFreeReliabilityLayer = Some rf0
        /\ (lockfree_seq_nums 3 rf0).1 = [1; 2; 3]).
Proof.
  destruct (sequence_numbers_consecutive 3) as [Hlocked Hfree].
  split.
  - destruct (Hlocked (Locked.set_nextSeqNum 4294967295 Locked.NewReliabilityLayer))
      as [H _]; [by_compute|]. exact H.
  - destruct LockFree.NewLockFreeReliabilityLayer as [rf0|] eqn:Hnew;
      [|by vm_compute in Hnew].
    exists rf0. split; [done|].
    assert (Hnext : LockFree.nextSeqNum rf0 = 1).
    { vm_compute in Hnew. by injection Hnew as <-. }
    rewrite (Hfree rf0) by (rewrite Hnext; by_compute).
    by rewrite Hnext.
Defined.

(** ** Tracking of the packets in flight *)

Lemma SendPacket_fields now p r :
  Locked.unackedPackets (Locked.SendPacket now p r)
  = (if IsDataPacket p
     then <[SeqNum p := Locked.mkUnackedPacket p now 0]> (Locked.unackedPackets r)
     else Locked.unackedPackets r)
  /\ Locked.windowSize (Locked.SendPacket now p r) = Locked.windowSize r.
Proof.
  unfold Locked.SendPacket, Locked.SendPacketWithTimestamp.
  by destruct (IsDataPacket p).
Qed.

Lemma send_all_window now ps :
  forall r, Locked.windowSize (send_all now ps r) = Locked.windowSize r.
Proof.
  induction ps as [|p ps IH]; intros r; [done|].
  cbn [send_all foldl]. fold (send_all now ps (Locked.SendPacket now p r)).
  rewrite IH. apply SendPacket_fields.
Qed.

Lemma send_all_size now ps :
  forall r,
    NoDup (SeqNum <$> filter (fun p => IsDataPacket p = true) ps) ->
    (forall p, p ∈ ps -> IsDataPacket p = true ->
               Locked.unackedPackets r !! SeqNum p = None) ->
    size (Locked.unackedPackets (send_all now ps r))
    = (size (Locked.unackedPackets r)
       + length (filter (fun p => IsDataPacket p = true) ps))%nat.
Proof.
  induction ps as [|p ps IH]; intros r Hnd Hfresh; [cbn; lia|].
  cbn [send_all foldl]. fold (send_all now ps (Locked.SendPacket now p r)).
  destruct (SendPacket_fields now p r) as [Hun _].
  destruct (IsDataPacket p) eqn:Hp.
  - rewrite filter_cons_True in * by exact Hp.
    rewrite fmap_cons in Hnd. apply NoDup_cons in Hnd as [Hnotin Hnd].
    rewrite IH; [|exact Hnd|].
    + rewrite Hun, map_size_insert_None by (apply Hfresh; [left|exact Hp]).
      cbn [length]. lia.
    + intros q Hq Hdata. rewrite Hun.
      rewrite lookup_insert_ne; [apply Hfresh; [by right|exact Hdata]|].
      intros Heq. apply Hnotin. rewrite Heq.
      apply list_elem_of_fmap. exists q. split; [done|].
      apply list_elem_of_filter. by split.
  - rewrite filter_cons_False in * by (rewrite Hp; discriminate).
    rewrite IH; [by rewrite Hun|exact Hnd|].
    intros q Hq Hdata. rewrite Hun. apply Hfresh; [by right|exact Hdata].
Qed.

Lemma send_all_tracked now ps :
  forall r seqNum,
    is_Some (Locked.unackedPackets (send_all now ps r) !! seqNum)
    <-> is_Some (Locked.unackedPackets r !! seqNum)
        \/ exists p, p ∈ ps /\ IsDataPacket p = true /\ SeqNum p = seqNum.
Proof.
  induction ps as [|p ps IH]; intros r seqNum.
  - cbn. split; [by left|]. intros [H|(p & Hp & _)]; [done|].
    by apply elem_of_nil in Hp.
  - cbn [send_all foldl]. fold (send_all now ps (Locked.SendPacket now p r)).
    rewrite IH. destruct (SendPacket_fields now p r) as [Hun _]. rewrite Hun.
    split.
    + intros [H|(q & Hq & Hd & Hs)].
      * destruct (IsDataPacket p) eqn:Hp; [|by left].
        destruct (decide (SeqNum p = seqNum)) as [Heq|Hne].
        -- right. exists p. split; [left|done].
        -- left. by rewrite lookup_insert_ne in H.
      * right. exists q. split; [by right|done].
    + intros [H|(q & Hq & Hd & Hs)].
      * left. destruct (IsDataPacket p); [|done].
        destruct (decide (SeqNum p = seqNum)) as [<-|Hne].
        -- by rewrite lookup_insert_eq.
        -- by rewrite lookup_insert_ne.
      * apply elem_of_cons in Hq as [->|Hq].
        -- left. rewrite Hd, <- Hs. by rewrite lookup_insert_eq.
        -- right. by exists q.
Qed.

(** X8.  Flow control of the lock-protected engine: after the packets of a
    list are sent on an engine with no packet in flight, the DATA packets
    among them having distinct sequence numbers, [HasUnackedPacket] holds of
    exactly the sequence numbers of those DATA packets, and [CanSendPacket]
    tells whether their number is below the window size; packets of other
    types are not counted. *)
Theorem flow_control (now : Z) (packets : list Packet)
    (r : Locked.ReliabilityLayer) :
  Locked.unackedPackets r = ∅ ->
  NoDup (SeqNum <$> filter (fun p => IsDataPacket p = true) packets) ->
  len packets < 2 ^ 32 ->
  Locked.CanSendPacket (send_all now packets r)
  = (len (filter (fun p => IsDataPacket p = true) packets)
     <? Locked.windowSize r)
  /\ (forall seqNum,
        Locked.HasUnackedPacket seqNum (send_all now packets r) = true
        <-> exists p, p ∈ packets /\ IsDataPacket p = true
                      /\ SeqNum p = seqNum).
Proof.
  intros Hempty Hnd Hlen. split.
  - unfold Locked.CanSendPacket. rewrite send_all_window, send_all_size.
    + rewrite Hempty, map_size_empty. cbn [Nat.add].
      rewrite u32_small; [done|].
      pose proof (length_filter (fun p => IsDataPacket p = true) packets).
      unfold is_u32, len in *. lia.
    + exact Hnd.
    + intros p _ _. by rewrite Hempty.
  - intros seqNum. unfold Locked.HasUnackedPacket.
    rewrite bool_decide_eq_true, send_all_tracked, Hempty, lookup_empty.
    split; [|by right]. intros [H|H]; [by destruct H|done].
Qed.

Lemma flow_control_witness :
  Locked.CanSendPacket
    (send_all 0 [data_packet 1; data_packet 2; data_packet 3]
       (Locked.SetWindowSize 3 Locked.NewReliabilityLayer))
  = false.
Proof.
  destruct (flow_control 0 [data_packet 1; data_packet 2; data_packet 3]
              (Locked.SetWindowSize 3 Locked.NewReliabilityLayer)) as [H _].
  - reflexivity.
  - apply (bool_decide_unpack _). vm_compute. exact I.
  - by_compute.
  - exact H.
Defined.

(** X9.  Sending a DATA packet whose sequence number is not in flight and
    then handling the acknowledgment for it (acknowledgment number = sequence
    number + 1, modulo [2^32]) reports no error and restores the set of
    packets in flight, hence the answer of [CanSendPacket]. *)
Theorem send_then_ack (now now' : Z) (packet ack : Packet)
    (r : Locked.ReliabilityLayer) :
  IsDataPacket packet = true ->
  is_u32 (SeqNum packet) ->
  Locked.unackedPackets r !! SeqNum packet = None ->
  HasAck ack = true ->
  AckNum ack = u32 (SeqNum packet + 1) ->
  let r1 := Locked.SendPacket now packet r in
  Locked.HasUnackedPacket (SeqNum packet) r1 = true
  /\ (Locked.HandleAck now' ack r1).1 = None
  /\ Locked.unackedPackets (Locked.HandleAck now' ack r1).2
     = Locked.unackedPackets r
  /\ Locked.CanSendPacket (Locked.HandleAck now' ack r1).2
     = Locked.CanSendPacket r.
Proof.
  intros Hdata Hseq Hfresh Hack Hnum r1.
  destruct (SendPacket_fields now packet r) as [Hun Hw]. rewrite Hdata in Hun.
  fold r1 in Hun, Hw.
  assert (Hlook : Locked.unackedPackets r1 !! u32 (AckNum ack - 1)
                  = Some (Locked.mkUnackedPacket packet now 0)).
  { rewrite Hnum, u32_pred_succ by exact Hseq. by rewrite Hun, lookup_insert_eq. }
  split.
  { unfold Locked.HasUnackedPacket. apply bool_decide_eq_true.
    rewrite Hun, lookup_insert_eq. by eexists. }
  unfold Locked.HandleAck. rewrite Hack. cbn [negb]. cbv zeta. rewrite Hlook.
  cbn [fst snd]. split; [done|].
  set (r2 := Locked.updateRTT _ r1).
  set (r3 := Locked.set_unackedPackets _ r2).
  assert (H3 : Locked.unackedPackets r3 = Locked.unackedPackets r
               /\ Locked.windowSize r3 = Locked.windowSize r).
  { subst r3 r2. cbn. rewrite Hnum, u32_pred_succ by exact Hseq.
    rewrite Hun, delete_insert_eq. split; [|exact Hw].
    by apply delete_id. }
  destruct H3 as [H3 H3w].
  assert (H4 : Locked.unackedPackets (Locked.handleSuccessfulAck r3)
               = Locked.unackedPackets r3
               /\ Locked.windowSize (Locked.handleSuccessfulAck r3)
                  = Locked.windowSize r3).
  { unfold Locked.handleSuccessfulAck. by repeat case_match. }
  destruct H4 as [H4 H4w].
  split; [by rewrite H4|].
  unfold Locked.CanSendPacket. by rewrite H4, H4w, H3, H3w.
Qed.

Lemma send_then_ack_witness :
  Locked.unackedPackets
    (Locked.HandleAck 5 (ack_packet 101)
       (Locked.SendPacket 0 (data_packet 100) Locked.NewReliabilityLayer)).2
  = ∅.
Proof.
  destruct (send_then_ack 0 5 (data_packet 100) (ack_packet 101)
              Locked.NewReliabilityLayer) as (_ & _ & H & _).
  - reflexivity.
  - by_compute.
  - reflexivity.
  - reflexivity.
  - reflexivity.
  - exact H.
Defined.

(** ** The retransmission timeout of the lock-protected engine *)

(** X10.  An acknowledgment that the lock-protected engine processes leaves
    the retransmission timeout between 100 milliseconds and 5 seconds for
    every clock value (also when the 64-bit arithmetic of the average wraps
    around), keeps at most ten round-trip samples, and removes the
    acknowledged entry. *)
Theorem ack_keeps_timeout_in_range (now : Z) (ack : Packet)
    (r : Locked.ReliabilityLayer) :
  HasAck ack = true ->
  Locked.HasUnackedPacket (u32 (AckNum ack - 1)) r = true ->
  let r' := (Locked.HandleAck now ack r).2 in
  100 * Millisecond <= Locked.retransmissionTimeout r' <= 5 * Second
  /\ 1 <= len (Locked.rttSamples r') <= Z.max 10 (len (Locked.rttSamples r))
  /\ Locked.HasUnackedPacket (u32 (AckNum ack - 1)) r' = false.
Proof.
  intros Hack Hhas r'. unfold Locked.HasUnackedPacket in Hhas.
  apply bool_decide_eq_true in Hhas as [up Hup].
  subst r'. rewrite (Locked_HandleAck_processed now ack r up Hack Hup).
  cbn [snd].
  set (r1 := Locked.updateRTT (Time_Sub now (Locked.SentTime up)) r).
  set (r2 := Locked.set_unackedPackets _ r1).
  destruct (handleSuccessfulAck_rtt r2) as (E1 & _ & E2).
  assert (E3 : Locked.unackedPackets (Locked.handleSuccessfulAck r2)
               = Locked.unackedPackets r2).
  { unfold Locked.handleSuccessfulAck. by repeat case_match. }
  unfold Locked.HasUnackedPacket. rewrite E1, E2, E3.
  change (Locked.retransmissionTimeout r2) with (Locked.retransmissionTimeout r1).
  change (Locked.rttSamples r2) with (Locked.rttSamples r1).
  split_and!.
  - subst r1. unfold Locked.updateRTT. cbv zeta. cbn [Locked.retransmissionTimeout Locked.set_rtt].
    repeat case_match; rewrite ?Z.ltb_lt, ?Z.ltb_ge in *; try lia; by_compute.
  - subst r1. unfold Locked.updateRTT. cbv zeta. cbn [Locked.retransmissionTimeout Locked.set_rtt].
    repeat case_match; rewrite ?Z.ltb_lt, ?Z.ltb_ge in *; try lia; by_compute.
  - subst r1. unfold Locked.updateRTT, len. cbn. 
    destruct (10 <? _) eqn:Hlt.
    + apply Z.ltb_lt in Hlt. rewrite length_drop. lia.
    + rewrite length_app. cbn. lia.
  - subst r1. unfold Locked.updateRTT, len. cbn. 
    destruct (10 <? _) eqn:Hlt.
    + rewrite length_drop, length_app. cbn. lia.
    + apply Z.ltb_ge in Hlt. lia.
  - apply bool_decide_eq_false. subst r2. cbn. rewrite lookup_delete_eq.
    by intros [? ?].
Qed.

Lemma ack_keeps_timeout_in_range_witness :
  100 * Millisecond
  <= Locked.retransmissionTimeout
       (Locked.HandleAck (2 ^ 70) (ack_packet 101) (locked_sent 100)).2
  <= 5 * Second.
Proof.
  destruct (ack_keeps_timeout_in_range (2 ^ 70) (ack_packet 101)
              (locked_sent 100)) as (H & _).
  - reflexivity.
  - by_compute.
  - exact H.
Defined.

(** ** Invariants of the lock-protected engine *)

Lemma collect_ordered_shrinks :
  forall (fuel : nat) (buf : gmap Z Packet) (next : Z) (acc out : list Packet)
         (buf' : gmap Z Packet) (next' : Z),
    Locked.collect_ordered fuel buf next acc = Some (out, buf', next') ->
    (forall k p, buf' !! k = Some p -> buf !! k = Some p)
    /\ (is_u32 next -> is_u32 next').
Proof.
  induction fuel as [|fuel IH]; intros buf next acc out buf' next' H.
  - cbn in H. destruct (buf !! next); [discriminate|]. by simplify_eq.
  - cbn [Locked.collect_ordered] in H.
    destruct (buf !! next) as [packet|] eqn:Hnext; [|by simplify_eq].
    apply IH in H as [Hsub Hu]. split.
    + intros k p Hk. apply Hsub in Hk. by apply lookup_delete_Some in Hk as [_ Hk].
    + intros _. apply Hu, u32_range.
Qed.

Lemma handleSuccessfulAck_window r :
  1 <= Locked.congestionWindow r <= 32 ->
  1 <= Locked.ssthresh r <= 32 ->
  (Locked.congestionWindow r <= Locked.ssthresh r
   \/ Locked.congestionWindow r <= 2) ->
  let r' := Locked.handleSuccessfulAck r in
  1 <= Locked.congestionWindow r' <= 32
  /\ Locked.ssthresh r' = Locked.ssthresh r
  /\ (Locked.congestionWindow r' <= Locked.ssthresh r'
      \/ Locked.congestionWindow r' <= 2).
Proof.
  intros Hc Hs Hrel r'. subst r'. unfold Locked.handleSuccessfulAck.
  destruct (Locked.congestionWindow r <? Locked.ssthresh r) eqn:Hlt.
  - apply Z.ltb_lt in Hlt. cbn. rewrite u32_small by (unfold is_u32; lia). lia.
  - apply Z.ltb_ge in Hlt.
    rewrite (proj2 (Z.ltb_lt 0 (Locked.congestionWindow r))) by lia. cbn.
    destruct (Z.eq_dec (Locked.congestionWindow r) 1) as [->|Hne].
    + change (u32 (1 + 1 / 1)) with 2. lia.
    + rewrite Z.div_small by lia. rewrite Z.add_0_r.
      rewrite u32_small by (unfold is_u32; lia). lia.
Qed.

Lemma updateRTT_samples sample r :
  len (Locked.rttSamples r) <= 10 ->
  len (Locked.rttSamples (Locked.updateRTT sample r)) <= 10.
Proof.
  intros H. unfold Locked.updateRTT. cbn. unfold len in *.
  destruct (10 <? _) eqn:Hlt.
  - rewrite length_drop, length_app. cbn. lia.
  - by apply Z.ltb_ge in Hlt.
Qed.

Lemma locked_inv_fields r r' :
  Locked.congestionWindow r' = Locked.congestionWindow r ->
  Locked.ssthresh r' = Locked.ssthresh r ->
  Locked.rttSamples r' = Locked.rttSamples r ->
  Locked.nextSeqNum r' = Locked.nextSeqNum r ->
  Locked.nextExpectedSeq r' = Locked.nextExpectedSeq r ->
  Locked.orderingBuffer r' = Locked.orderingBuffer r ->
  Locked.receivedSeqs r' = Locked.receivedSeqs r ->
  locked_inv r -> locked_inv r'.
Proof. unfold locked_inv. by intros -> -> -> -> -> -> ->. Qed.

Ltac same_fields := eapply locked_inv_fields; [reflexivity..|eassumption].

Lemma handleSuccessfulAck_fields r :
  Locked.rttSamples (Locked.handleSuccessfulAck r) = Locked.rttSamples r
  /\ Locked.nextSeqNum (Locked.handleSuccessfulAck r) = Locked.nextSeqNum r
  /\ Locked.nextExpectedSeq (Locked.handleSuccessfulAck r)
     = Locked.nextExpectedSeq r
  /\ Locked.orderingBuffer (Locked.handleSuccessfulAck r)
     = Locked.orderingBuffer r
  /\ Locked.receivedSeqs (Locked.handleSuccessfulAck r)
     = Locked.receivedSeqs r.
Proof. unfold Locked.handleSuccessfulAck. by repeat case_match. Qed.

Lemma locked_step_inv r r' : locked_inv r -> locked_step r r' -> locked_inv r'.
Proof.
  intros Hinv Hstep.
  destruct Hstep as [r|now p r|p ts r|now ack r|now r|p r|p r|r out r' HG
                    |sz r|r|t r|sz r].
  - (* GetNextSeqNum *)
    destruct Hinv as (Hc & Hs & Hrel & Hn & Hseq & Hexp & Hbuf).
    pose proof (u32_range (Locked.nextSeqNum r + 1)) as Hu.
    unfold locked_inv, is_u32 in *. cbn. split_and!; first [assumption | lia].
  - unfold Locked.SendPacket, Locked.SendPacketWithTimestamp.
    destruct (IsDataPacket p); same_fields.
  - unfold Locked.SendPacketWithTimestamp.
    destruct (IsDataPacket p); same_fields.
  - (* HandleAck *)
    unfold Locked.HandleAck.
    destruct (negb (HasAck ack)); [same_fields|]. cbv zeta.
    destruct (Locked.unackedPackets r !! u32 (AckNum ack - 1)) as [up|].
    + cbn [snd].
      destruct Hinv as (Hc & Hs & Hrel & Hn & Hseq & Hexp & Hbuf).
      set (r2 := Locked.set_unackedPackets _ (Locked.updateRTT _ r)).
      destruct (handleSuccessfulAck_window r2) as (Hc' & Hs' & Hrel');
        [exact Hc|exact Hs|exact Hrel|].
      destruct (handleSuccessfulAck_fields r2) as (E1 & E2 & E3 & E4 & E5).
      pose proof (updateRTT_samples (Time_Sub now (Locked.SentTime up)) r Hn)
        as Hn'.
      unfold locked_inv. rewrite E1, E2, E3, E4, E5, Hs'.
      change (Locked.ssthresh r2) with (Locked.ssthresh r) in *.
      change (Locked.nextSeqNum r2) with (Locked.nextSeqNum r).
      change (Locked.nextExpectedSeq r2) with (Locked.nextExpectedSeq r).
      unfold is_u32 in *. split_and!; first [assumption | lia].
    + destruct (Locked.nextSeqNum r <? u32 (AckNum ack - 1)); same_fields.
  - (* GetTimedOutPackets *) same_fields.
  - (* MarkPacketReceived *)
    destruct Hinv as (Hc & Hs & Hrel & Hn & Hseq & Hexp & Hbuf).
    unfold locked_inv, is_u32 in *. cbn.
    split_and!; try first [assumption | lia].
    intros k q H. destruct (Hbuf k q H) as [Hk Hr]. split; [exact Hk|].
    destruct (decide (SeqNum p = k)) as [->|Hne].
    + by rewrite lookup_insert_eq.
    + by rewrite lookup_insert_ne.
  - (* ReceivePacket *)
    unfold Locked.ReceivePacket. cbv zeta.
    destruct (Locked.maxBufferSize r <=? _); [same_fields|].
    destruct (Locked.IsPacketDuplicate p r); [same_fields|].
    destruct Hinv as (Hc & Hs & Hrel & Hn & Hseq & Hexp & Hbuf).
    unfold locked_inv, is_u32 in *. cbn.
    split_and!; try first [assumption | lia].
    intros k q H. destruct (decide (SeqNum p = k)) as [<-|Hne].
    + rewrite lookup_insert_eq in H. rewrite lookup_insert_eq. by simplify_eq.
    + rewrite lookup_insert_ne in H by done. rewrite lookup_insert_ne by done.
      by apply Hbuf.
  - (* GetOrderedPackets *)
    unfold Locked.GetOrderedPackets in HG.
    destruct (Locked.collect_ordered _ _ _ _) as [[[o b] n]|] eqn:Hcol;
      [|discriminate].
    cbn in HG. injection HG as <- <-.
    apply collect_ordered_shrinks in Hcol as [Hsub Hu].
    destruct Hinv as (Hc & Hs & Hrel & Hn & Hseq & Hexp & Hbuf).
    specialize (Hu Hexp).
    unfold locked_inv, is_u32 in *. cbn.
    split_and!; try first [assumption | lia].
    intros k q H. by apply Hbuf, Hsub.
  - same_fields.
  - (* SimulatePacketLoss *)
    destruct Hinv as (Hc & Hs & Hrel & Hn & Hseq & Hexp & Hbuf).
    unfold Locked.SimulatePacketLoss. cbv zeta.
    assert (Hhalf : 0 <= Locked.congestionWindow r / 2 <= 16)
      by (split; [apply Z.div_pos; lia|apply Z.div_le_upper_bound; lia]).
    unfold locked_inv, is_u32 in *.
    destruct (Locked.congestionWindow r / 2 <? 1) eqn:Hlt;
      [|apply Z.ltb_ge in Hlt]; cbn; split_and!; first [assumption | lia].
  - same_fields.
  - same_fields.
Qed.

(** X11.  In every state that the lock-protected engine reaches from
    [NewReliabilityLayer] through its public methods, the congestion window
    and the slow-start threshold lie between 1 and 32, the window is at most
    the threshold or at most 2, at most ten round-trip samples are kept, both
    sequence counters are 32-bit values, and every buffered packet sits under
    its own sequence number, which is marked as received. *)
Theorem locked_reachable_bounds (r : Locked.ReliabilityLayer) :
  locked_reachable r -> locked_inv r.
Proof.
  induction 1 as [|r r' _ IH Hstep].
  - unfold locked_inv. cbn. unfold is_u32, len. cbn.
    split_and!; try lia. intros k p H. by rewrite lookup_empty in H.
  - by apply (locked_step_inv r r').
Qed.

Lemma locked_reachable_bounds_witness :
  locked_inv
    (Locked.SimulatePacketLoss
       (Locked.HandleAck 5 (ack_packet 101) (locked_sent 100)).2).
Proof.
  apply locked_reachable_bounds.
  eapply lreachable_step; [|apply lstep_SimulatePacketLoss].
  eapply lreachable_step; [|apply lstep_HandleAck].
  eapply lreachable_step;
    [apply lreachable_new
    |apply (lstep_SendPacketWithTimestamp (data_packet 100) 0)].
Defined.

(** ** In-order delivery *)

Lemma receive_all_snoc ps p r :
  receive_all (ps ++ [p]) r = (Locked.ReceivePacket p (receive_all ps r)).2.
Proof. unfold receive_all. by rewrite foldl_snoc. Qed.

Lemma receive_all_spec (ps : list Packet) (r : Locked.ReliabilityLayer) :
  Locked.orderingBuffer r = ∅ ->
  NoDup (SeqNum <$> ps) ->
  (forall p, p ∈ ps -> Locked.IsPacketDuplicate p r = false) ->
  len ps <= Locked.maxBufferSize r ->
  let r' := receive_all ps r in
  (forall k q, Locked.orderingBuffer r' !! k = Some q <-> q ∈ ps /\ SeqNum q = k)
  /\ size (Locked.orderingBuffer r') = length ps
  /\ Locked.nextExpectedSeq r' = Locked.nextExpectedSeq r
  /\ Locked.maxBufferSize r' = Locked.maxBufferSize r
  /\ (forall q, Locked.IsPacketDuplicate q r' = true ->
                SeqNum q ∈ (SeqNum <$> ps)
                \/ Locked.IsPacketDuplicate q r = true).
Proof.
  intros Hempty. induction ps as [|p ps IH] using rev_ind; intros Hnd Hnew Hroom r'.
  - subst r'. cbn. rewrite Hempty. split_and!; try done.
    + intros k q. rewrite lookup_empty. split; [done|].
      intros [H _]. by apply elem_of_nil in H.
    + intros q H. by right.
  - rewrite fmap_app in Hnd. apply NoDup_app in Hnd as (Hnd & Hdisj & _).
    unfold len in Hroom. rewrite length_app in Hroom. cbn in Hroom.
    destruct IH as (Hbuf & Hsize & Hnext & Hmax & Hdup);
      [exact Hnd|intros q Hq; apply Hnew, elem_of_app; by left|unfold len; lia|].
    subst r'. rewrite receive_all_snoc.
    set (r1 := receive_all ps r) in *.
    assert (Hfresh : Locked.IsPacketDuplicate p r1 = false).
    { destruct (Locked.IsPacketDuplicate p r1) eqn:Hd; [|done].
      apply Hdup in Hd as [Hin|Hd].
      - exfalso. apply (Hdisj (SeqNum p) Hin). cbn. left.
      - rewrite Hnew in Hd; [done|]. apply elem_of_app. right. left. }
    unfold Locked.ReceivePacket. cbv zeta. rewrite Hmax, Hsize.
    rewrite (proj2 (Z.leb_gt _ _)) by lia. rewrite Hfresh. cbn [snd].
    cbn [Locked.orderingBuffer Locked.set_ordering Locked.MarkPacketReceived
         Locked.set_receivedSeqs Locked.nextExpectedSeq Locked.maxBufferSize].
    assert (Hnone : Locked.orderingBuffer r1 !! SeqNum p = None).
    { destruct (Locked.orderingBuffer r1 !! SeqNum p) as [q|] eqn:Hq; [|done].
      apply Hbuf in Hq as [Hq Hs]. exfalso. apply (Hdisj (SeqNum p)).
      - rewrite <- Hs. apply list_elem_of_fmap. by exists q.
      - cbn. left. }
    split_and!; try done.
    + intros k q. destruct (decide (SeqNum p = k)) as [<-|Hne].
      * rewrite lookup_insert_eq. split.
        -- intros [= <-]. split; [|done]. apply elem_of_app. right. left.
        -- intros [Hq Hs]. apply elem_of_app in Hq as [Hq|Hq].
           ++ exfalso. apply (Hdisj (SeqNum p)); [|cbn; left].
              rewrite <- Hs. apply list_elem_of_fmap. by exists q.
           ++ apply list_elem_of_singleton in Hq. by subst.
      * rewrite lookup_insert_ne by done. rewrite Hbuf. split.
        -- intros [Hq Hs]. split; [|done]. apply elem_of_app. by left.
        -- intros [Hq Hs]. apply elem_of_app in Hq as [Hq|Hq]; [done|].
           apply list_elem_of_singleton in Hq. by subst.
    + rewrite map_size_insert_None by exact Hnone.
      rewrite length_app. cbn. lia.
    + intros q Hq. unfold Locked.IsPacketDuplicate in Hq. cbn in Hq.
      rewrite fmap_app. cbn.
      destruct (decide (SeqNum p = SeqNum q)) as [Heq|Hne].
      * left. apply elem_of_app. right. rewrite Heq. left.
      * rewrite lookup_insert_ne in Hq by done.
        destruct (Hdup q Hq) as [Hin|Hd]; [|by right].
        left. apply elem_of_app. by left.
Qed.

Lemma collect_ordered_all (n : nat) :
  forall (buf : gmap Z Packet) (next : Z) (acc : list Packet) (fuel : nat),
    (size buf <= fuel)%nat ->
    (forall k, is_Some (buf !! k) <-> k ∈ consecutive next n) ->
    NoDup (consecutive next n) ->
    exists out,
      Locked.collect_ordered fuel buf next acc
      = Some (acc ++ out, ∅, Nat.iter n (fun s => u32 (s + 1)) next)
      /\ (Some <$> out) = ((fun k => buf !! k) <$> consecutive next n).
Proof.
  induction n as [|n IH]; intros buf next acc fuel Hfuel Hdom Hnd.
  - assert (Hbuf : buf = ∅).
    { apply map_empty. intros k. apply eq_None_not_Some. rewrite Hdom.
      cbn. apply not_elem_of_nil. }
    subst buf. exists []. split; [|done].
    destruct fuel; cbn; rewrite lookup_empty; by rewrite app_nil_r.
  - cbn [consecutive] in Hdom, Hnd. apply NoDup_cons in Hnd as [Hnotin Hnd].
    destruct (proj2 (Hdom next)) as [p Hp]; [left|].
    assert (Hsz : size buf = S (size (delete next buf))).
    { rewrite <- (insert_delete_id buf next p Hp) at 1.
      rewrite map_size_insert_None; [done|]. apply lookup_delete_eq. }
    destruct fuel as [|fuel]; [lia|].
    cbn [Locked.collect_ordered]. rewrite Hp.
    destruct (IH (delete next buf) (u32 (next + 1)) (acc ++ [p]) fuel)
      as (out & Hrun & Hout); [lia| |exact Hnd|].
    { intros k. rewrite lookup_delete_is_Some, Hdom. split.
      - intros [Hne Hin]. apply elem_of_cons in Hin as [->|Hin]; done.
      - intros Hin. split; [|by right]. intros ->. done. }
    exists (p :: out). split.
    + rewrite Hrun, <- app_assoc. cbn [app]. by rewrite Nat.iter_succ_r.
    + cbn [consecutive fmap list_fmap]. rewrite Hp. f_equal.
      change (list_fmap _ _ Some out) with (Some <$> out). rewrite Hout.
      apply list_fmap_ext. intros i k Hk.
      rewrite lookup_delete_ne; [done|]. intros ->.
      apply Hnotin. by apply list_elem_of_lookup_2 in Hk.
Qed.

(** X12.  In-order delivery: when the packets of a list arrive in any order
    at a lock-protected engine with an empty ordering buffer, none of them
    seen before, their sequence numbers being the next expected one and its
    successors without repetition, and the buffer has room for them, then
    [GetOrderedPackets] returns exactly these packets in increasing sequence
    order, empties the buffer and advances the next expected number past
    them. *)
Theorem in_order_delivery (packets : list Packet)
    (r : Locked.ReliabilityLayer) :
  Locked.orderingBuffer r = ∅ ->
  (forall p, p ∈ packets -> Locked.IsPacketDuplicate p r = false) ->
  NoDup (SeqNum <$> packets) ->
  SeqNum <$> packets
    ≡ₚ consecutive (Locked.nextExpectedSeq r) (length packets) ->
  len packets <= Locked.maxBufferSize r ->
  exists released r',
    Locked.GetOrderedPackets (receive_all packets r) = Some (released, r')
    /\ SeqNum <$> released
       = consecutive (Locked.nextExpectedSeq r) (length packets)
    /\ released ≡ₚ packets
    /\ Locked.orderingBuffer r' = ∅
    /\ Locked.nextExpectedSeq r'
       = Nat.iter (length packets) (fun s => u32 (s + 1))
                  (Locked.nextExpectedSeq r).
Proof.
  intros Hempty Hnew Hnd Hperm Hroom.
  destruct (receive_all_spec packets r Hempty Hnd Hnew Hroom)
    as (Hbuf & Hsize & Hnext & _ & _).
  set (r1 := receive_all packets r) in *.
  set (next := Locked.nextExpectedSeq r) in *.
  assert (Hnd' : NoDup (consecutive next (length packets)))
    by (by rewrite <- Hperm).
  destruct (collect_ordered_all (length packets) (Locked.orderingBuffer r1)
              next [] (size (Locked.orderingBuffer r1)))
    as (out & Hrun & Hout); [done| |exact Hnd'|].
  { intros k. rewrite <- Hperm. split.
    - intros [q Hq]. apply Hbuf in Hq as [Hq <-].
      apply list_elem_of_fmap. by exists q.
    - intros Hk. apply list_elem_of_fmap in Hk as (q & -> & Hq).
      exists q. by apply Hbuf. }
  assert (Hmem : forall i q, out !! i = Some q ->
                   q ∈ packets
                   /\ consecutive next (length packets) !! i = Some (SeqNum q)).
  { intros i q Hq.
    assert (H1 : (Some <$> out) !! i = Some (Some q))
      by (by rewrite list_lookup_fmap, Hq).
    rewrite Hout, list_lookup_fmap in H1.
    destruct (consecutive next (length packets) !! i) as [k|] eqn:Hk;
      [|discriminate].
    cbn in H1. injection H1 as H1. apply Hbuf in H1 as [H1 <-]. done. }
  assert (Hseqs : SeqNum <$> out = consecutive next (length packets)).
  { apply list_eq. intros i. rewrite list_lookup_fmap.
    destruct (out !! i) as [q|] eqn:Hq.
    - cbn. symmetry. by apply Hmem.
    - cbn. symmetry. apply lookup_ge_None.
      apply lookup_ge_None in Hq.
      assert (Hl : length (Some <$> out)
                   = length ((fun k => Locked.orderingBuffer r1 !! k)
                               <$> consecutive next (length packets)))
        by (by rewrite Hout).
      rewrite !length_fmap in Hl. lia. }
  exists out, (Locked.set_ordering ∅
                 (Nat.iter (length packets) (fun s => u32 (s + 1)) next) r1).
  split.
  { unfold Locked.GetOrderedPackets. rewrite Hnext. fold next. rewrite Hrun.
    reflexivity. }
  split; [exact Hseqs|]. split; [|by split].
  apply NoDup_Permutation.
  - apply (NoDup_fmap_1 SeqNum). by rewrite Hseqs.
  - by apply (NoDup_fmap_1 SeqNum).
  - intros q. split.
    + intros Hq. apply list_elem_of_lookup in Hq as [i Hq].
      by apply Hmem in Hq as [Hq _].
    + intros Hq.
      assert (Hin : SeqNum q ∈ (SeqNum <$> out)).
      { rewrite Hseqs, <- Hperm. apply list_elem_of_fmap. by exists q. }
      apply list_elem_of_fmap in Hin as (q' & Hs & Hq').
      assert (Hq'' : q' ∈ packets).
      { apply list_elem_of_lookup in Hq' as [i Hi].
        by apply Hmem in Hi as [Hi _]. }
      assert (q = q'); [|by subst].
      pose proof (proj1 (Hbuf (SeqNum q) q) ) as _.
      assert (H1 : Locked.orderingBuffer r1 !! SeqNum q = Some q)
        by (by apply Hbuf).
      assert (H2 : Locked.orderingBuffer r1 !! SeqNum q = Some q')
        by (by apply Hbuf).
      congruence.
Qed.

Lemma in_order_delivery_witness :
  exists r',
    Locked.GetOrderedPackets
      (receive_all [data_packet 503; data_packet 501; data_packet 502]
         locked_expecting_501)
    = Some ([data_packet 501; data_packet 502; data_packet 503], r').
Proof.
  destruct (in_order_delivery
              [data_packet 503; data_packet 501; data_packet 502]
              locked_expecting_501)
    as (released & r' & HG & Hseq & _).
  - reflexivity.
  - intros p Hp. reflexivity.
  - apply (bool_decide_unpack _). vm_compute. exact I.
  - vm_compute. apply Permutation_cons_append.
  - by_compute.
  - exists r'. rewrite HG. do 2 f_equal.
    vm_compute in HG. by injection HG as <- _.
Defined.

(** ** Repeated calls on the receive path *)

Lemma ReceivePacket_cases packet r :
  (Locked.ReceivePacket packet r).2 = r
  /\ ((Locked.ReceivePacket packet r).1 = None ->
      Locked.IsPacketDuplicate packet r = true)
  \/ (Locked.ReceivePacket packet r).1 = None
     /\ Locked.IsPacketDuplicate packet (Locked.ReceivePacket packet r).2 = true.
Proof.
  unfold Locked.ReceivePacket. cbv zeta.
  destruct (Locked.maxBufferSize r <=? _); [left; by split|].
  destruct (Locked.IsPacketDuplicate packet r) eqn:Hdup; [left; by split|].
  right. split; [done|]. unfold Locked.IsPacketDuplicate. cbn.
  by rewrite lookup_insert_eq.
Qed.

Lemma ReceivePacket_duplicate packet r :
  Locked.IsPacketDuplicate packet r = true ->
  (Locked.ReceivePacket packet r).2 = r.
Proof.
  intros Hdup. unfold Locked.ReceivePacket. cbv zeta. rewrite Hdup.
  by destruct (Locked.maxBufferSize r <=? _).
Qed.

(** X13.  Repeating a call on the receive path of the lock-protected
    engine changes nothing: a second [ReceivePacket] of the same packet leaves
    the engine as the first one left it, a packet accepted without error is a
    duplicate from then on, [GetOrderedPackets] always returns, and a second
    [GetOrderedPackets] right after it returns no packet and leaves the
    engine unchanged. *)
Theorem receive_and_drain_twice (packet : Packet)
    (r : Locked.ReliabilityLayer) :
  (let r1 := (Locked.ReceivePacket packet r).2 in
   (Locked.ReceivePacket packet r1).2 = r1
   /\ ((Locked.ReceivePacket packet r).1 = None ->
       Locked.IsPacketDuplicate packet r1 = true))
  /\ (exists released r1,
        Locked.GetOrderedPackets r = Some (released, r1)
        /\ Locked.GetOrderedPackets r1 = Some ([], r1)).
Proof.
  split.
  - cbv zeta.
    destruct (ReceivePacket_cases packet r) as [[Hsame Hdup]|[Hnone Hdup]].
    + rewrite Hsame. split; [|exact Hdup].
      destruct (ReceivePacket_cases packet r) as [[H _]|[_ H]]; [done|].
      rewrite Hsame in H. by apply ReceivePacket_duplicate.
    + split; [|done]. by apply ReceivePacket_duplicate.
  - destruct (GetOrderedPackets_total r) as (released & r1 & HG & Hgap).
    exists released, r1. split; [exact HG|]. by apply GetOrderedPackets_gap.
Qed.

(** ** The queue of the lock-free engine is first-in first-out *)

Lemma chain_bound nodes items :
  forall a last, chain nodes a items last -> (a + length items <= last)%nat.
Proof.
  induction items as [|x items IH]; intros a last H; cbn in *.
  - destruct H as [-> _]. lia.
  - destruct H as (b & _ & Hlt & _ & Hc). apply IH in Hc. lia.
Qed.

Lemma chain_last nodes items :
  forall a last,
    chain nodes a items last ->
    (LockFree.n_next <$> nodes !! last) = Some None.
Proof.
  induction items as [|x items IH]; intros a last H; cbn in *.
  - by destruct H as [-> H].
  - destruct H as (b & _ & _ & _ & Hc). by apply IH in Hc.
Qed.

Lemma chain_snoc nodes items d new tailNode :
  forall a last,
    chain nodes a items last ->
    (last < new)%nat ->
    nodes !! last = Some tailNode ->
    chain (<[last := LockFree.mkQueueNode (Some new) (LockFree.n_data tailNode)]>
             (<[new := LockFree.mkQueueNode None (Some d)]> nodes))
          a (items ++ [d]) new.
Proof.
  induction items as [|x items IH]; intros a last H Hlt Htail;
    cbn [chain app] in *.
  - destruct H as [-> H]. exists new.
    rewrite lookup_insert_eq. split; [done|]. split; [done|].
    rewrite lookup_insert_ne by lia. rewrite lookup_insert_eq.
    by split_and!.
  - destruct H as (b & Hnext & Hab & Hdata & Hc).
    pose proof (chain_bound _ _ _ _ Hc) as Hb.
    exists b. split_and!.
    + rewrite !lookup_insert_ne by lia. exact Hnext.
    + exact Hab.
    + destruct (decide (b = last)) as [->|Hne].
      * rewrite lookup_insert_eq. cbn. rewrite Htail in Hdata. exact Hdata.
      * rewrite !lookup_insert_ne by lia. exact Hdata.
    + by apply IH.
Qed.

Lemma Enqueue_repr (d : Packet) (q : LockFree.LockFreeQueue)
    (items : list Packet) :
  queue_repr q items ->
  exists q',
    LockFree.Enqueue d q = Some (true, q') /\ queue_repr q' (items ++ [d]).
Proof.
  intros (Hc & Htail & Hfresh & Hsize).
  pose proof (chain_last _ _ _ _ Hc) as Hlast.
  destruct (LockFree.q_nodes q !! LockFree.q_tail q) as [tailNode|] eqn:Hnode;
    [|discriminate].
  cbn in Hlast. injection Hlast as Hlast.
  unfold LockFree.Enqueue. cbv zeta.
  cbn [LockFree.Enqueue_loop LockFree.q_tail LockFree.q_nodes LockFree.q_alloc
       LockFree.q_head].
  rewrite lookup_insert_ne by lia. rewrite Hnode. cbn [mbind option_bind].
  rewrite Hlast. eexists. split; [reflexivity|].
  unfold queue_repr. cbn. split_and!.
  - apply chain_snoc; [exact Hc|exact Htail|exact Hnode].
  - lia.
  - intros a Ha. rewrite !lookup_insert_ne by lia. apply Hfresh. lia.
  - rewrite map_size_insert_Some.
    + rewrite map_size_insert_None; [by rewrite Hsize|]. by apply Hfresh.
    + rewrite lookup_insert_ne by lia. by rewrite Hnode.
Qed.

Lemma Dequeue_repr (q : LockFree.LockFreeQueue) (items : list Packet) :
  queue_repr q items ->
  exists q',
    LockFree.Dequeue q = Some (head items, q') /\ queue_repr q' (tail items).
Proof.
  intros (Hc & Htail & Hfresh & Hsize).
  unfold LockFree.Dequeue. cbn [LockFree.Dequeue_loop].
  destruct items as [|x items]; cbn in Hc.
  - destruct Hc as [Heq Hnext].
    destruct (LockFree.q_nodes q !! LockFree.q_head q) as [headNode|] eqn:Hnode;
      [|discriminate].
    cbn in Hnext. injection Hnext as Hnext. cbn [mbind option_bind].
    rewrite bool_decide_eq_true_2 by exact Heq. rewrite Hnext.
    exists q. split; [done|]. unfold queue_repr. cbn [chain tail].
    rewrite Hnode. cbn. rewrite Hnext. by split_and!.
  - destruct Hc as (b & Hnext & Hab & Hdata & Hc).
    pose proof (chain_bound _ _ _ _ Hc) as Hb.
    destruct (LockFree.q_nodes q !! LockFree.q_head q) as [headNode|] eqn:Hnode;
      [|discriminate].
    cbn in Hnext. injection Hnext as Hnext. cbn [mbind option_bind].
    rewrite bool_decide_eq_false_2 by lia. rewrite Hnext.
    destruct (LockFree.q_nodes q !! b) as [nextNode|] eqn:Hb'; [|discriminate].
    cbn in Hdata. injection Hdata as Hdata. cbn [mbind option_bind].
    rewrite Hdata. eexists. split; [reflexivity|].
    unfold queue_repr. cbn [tail LockFree.q_nodes LockFree.q_head
                            LockFree.q_tail LockFree.q_alloc].
    by split_and!.
Qed.

Lemma dequeue_all_repr (items : list Packet) :
  forall (fuel : nat) (q : LockFree.LockFreeQueue) (acc : list Packet),
    queue_repr q items ->
    (length items < fuel)%nat ->
    exists q',
      LockFree.dequeue_all fuel q acc = Some (acc ++ items, q')
      /\ queue_repr q' [].
Proof.
  induction items as [|x items IH]; intros fuel q acc Hq Hfuel.
  - destruct fuel as [|fuel]; [cbn in Hfuel; lia|].
    destruct (Dequeue_repr q [] Hq) as (q' & HD & Hq').
    cbn [LockFree.dequeue_all]. rewrite HD. cbn.
    exists q'. by rewrite app_nil_r.
  - destruct fuel as [|fuel]; [cbn in Hfuel; lia|].
    destruct (Dequeue_repr q (x :: items) Hq) as (q' & HD & Hq').
    cbn [LockFree.dequeue_all]. rewrite HD. cbn [mbind option_bind head].
    destruct (IH fuel q' (acc ++ [x]) Hq') as (q'' & Hrun & Hq'');
      [cbn in Hfuel; lia|].
    exists q''. rewrite Hrun, <- app_assoc. done.
Qed.

Lemma queue_repr_length q items :
  queue_repr q items -> (length items < size (LockFree.q_nodes q))%nat.
Proof.
  intros (Hc & Htail & _ & Hsize). apply chain_bound in Hc. lia.
Qed.

Lemma NewLockFreeQueue_repr capacity :
  queue_repr (LockFree.NewLockFreeQueue capacity) [].
Proof.
  unfold queue_repr. cbn. split_and!; try done; try lia.
  intros a Ha. apply lookup_singleton_ne. lia.
Qed.

Lemma LockFree_ReceivePacket_repr packet rf items :
  queue_repr (LockFree.recvQueue rf) items ->
  exists rf',
    LockFree.ReceivePacket packet rf = Some (true, rf')
    /\ queue_repr (LockFree.recvQueue rf')
         (if IsDataPacket packet then items ++ [packet] else items)
    /\ LockFree.unackedTable rf' = LockFree.unackedTable rf
    /\ LockFree.congWindow rf' = LockFree.congWindow rf
    /\ LockFree.timeoutBase rf' = LockFree.timeoutBase rf
    /\ LockFree.rttEstimate rf' = LockFree.rttEstimate rf
    /\ LockFree.packetsLost rf' = LockFree.packetsLost rf
    /\ LockFree.packetsRetr rf' = LockFree.packetsRetr rf.
Proof.
  intros Hq. unfold LockFree.ReceivePacket.
  destruct (IsDataPacket packet); cbn [negb]; [|by exists rf].
  cbn [LockFree.isDuplicate].
  destruct (Enqueue_repr packet _ _ Hq) as (q' & HE & Hq').
  rewrite HE. cbn [mbind option_bind]. eexists. split; [reflexivity|].
  by split_and!.
Qed.

Lemma LockFree_GetOrderedPackets_repr rf items :
  queue_repr (LockFree.recvQueue rf) items ->
  exists rf',
    LockFree.GetOrderedPackets rf = Some (items, rf')
    /\ queue_repr (LockFree.recvQueue rf') []
    /\ LockFree.unackedTable rf' = LockFree.unackedTable rf
    /\ LockFree.congWindow rf' = LockFree.congWindow rf
    /\ LockFree.timeoutBase rf' = LockFree.timeoutBase rf
    /\ LockFree.rttEstimate rf' = LockFree.rttEstimate rf
    /\ LockFree.packetsLost rf' = LockFree.packetsLost rf
    /\ LockFree.packetsRetr rf' = LockFree.packetsRetr rf.
Proof.
  intros Hq. unfold LockFree.GetOrderedPackets.
  destruct (dequeue_all_repr items (S (size (LockFree.q_nodes (LockFree.recvQueue rf))))
              (LockFree.recvQueue rf) [] Hq) as (q' & Hrun & Hq').
  { apply queue_repr_length in Hq. lia. }
  rewrite Hrun. cbn [mbind option_bind]. eexists. split; [reflexivity|].
  by split_and!.
Qed.

Lemma lockfree_run_repr (ops : list ReceiveOp) :
  forall (rf : LockFree.LockFreeReliabilityLayer) (delivered items : list Packet),
    queue_repr (LockFree.recvQueue rf) items ->
    exists rf' delivered' items',
      lockfree_run ops rf delivered = Some (rf', delivered')
      /\ queue_repr (LockFree.recvQueue rf') items'
      /\ delivered' ++ items' = delivered ++ items ++ received_data ops.
Proof.
  induction ops as [|[packet|] ops IH]; intros rf delivered items Hq.
  - exists rf, delivered, items. cbn. by rewrite app_nil_r.
  - destruct (LockFree_ReceivePacket_repr packet rf items Hq)
      as (rf1 & HR & Hq1 & _).
    cbn [lockfree_run received_data]. rewrite HR. cbn [mbind option_bind].
    destruct (IH rf1 delivered _ Hq1) as (rf' & d' & i' & Hrun & Hq' & Heq).
    exists rf', d', i'. split; [exact Hrun|]. split; [exact Hq'|].
    rewrite Heq. destruct (IsDataPacket packet); [|done].
    by rewrite <- !app_assoc.
  - destruct (LockFree_GetOrderedPackets_repr rf items Hq)
      as (rf1 & HG & Hq1 & _).
    cbn [lockfree_run received_data]. rewrite HG. cbn [mbind option_bind].
    destruct (IH rf1 (delivered ++ items) [] Hq1)
      as (rf' & d' & i' & Hrun & Hq' & Heq).
    exists rf', d', i'. split; [exact Hrun|]. split; [exact Hq'|].
    rewrite Heq. cbn [app]. by rewrite <- !app_assoc.
Qed.

Lemma received_data_app ops ops' :
  received_data (ops ++ ops') = received_data ops ++ received_data ops'.
Proof.
  induction ops as [|[packet|] ops IH]; cbn; [done| |done].
  destruct (IsDataPacket packet); [|done]. by rewrite IH.
Qed.

Lemma NewLockFreeReliabilityLayer_queue rf :
  LockFree.NewLockFreeReliabilityLayer = Some rf ->
  queue_repr (LockFree.recvQueue rf) [].
Proof.
  unfold LockFree.NewLockFreeReliabilityLayer.
  destruct (LockFree.NewLockFreeHashTable 16384) as [t|]; [|discriminate].
  destruct (LockFree.NewLockFreeRingBuffer 4096) as [b|]; [|discriminate].
  cbn. intros [= <-]. apply NewLockFreeQueue_repr.
Qed.

(** X14.  The receive path of the lock-free engine is a first-in first-out
    queue: for every run of [ReceivePacket] and [GetOrderedPackets] calls on a
    fresh engine, followed by one more [GetOrderedPackets], no call panics and
    the packets delivered over the run are the DATA packets received, each as
    often as it arrived, in order of arrival. *)
Theorem lockfree_delivers_in_arrival_order (ops : list ReceiveOp) :
  exists rf0 rf,
    LockFree.NewLockFreeReliabilityLayer = Some rf0
    /\ lockfree_run (ops ++ [OpDrain]) rf0 [] = Some (rf, received_data ops).
Proof.
  destruct LockFree.NewLockFreeReliabilityLayer as [rf0|] eqn:Hnew;
    [|by vm_compute in Hnew].
  pose proof (NewLockFreeReliabilityLayer_queue rf0 Hnew) as Hq.
  destruct (lockfree_run_repr ops rf0 [] [] Hq)
    as (rf1 & d1 & i1 & Hrun1 & Hq1 & Heq1).
  destruct (LockFree_GetOrderedPackets_repr rf1 i1 Hq1) as (rf2 & HG & _).
  exists rf0, rf2. split; [done|].
  assert (Happ : forall ops rf d rf' d',
             lockfree_run ops rf d = Some (rf', d') ->
             forall ops', lockfree_run (ops ++ ops') rf d
                          = lockfree_run ops' rf' d').
  { clear. induction ops as [|[packet|] ops IH]; intros rf d rf' d' H ops'.
    - cbn in H. by simplify_eq.
    - cbn [lockfree_run app] in *.
      destruct (LockFree.ReceivePacket packet rf) as [[ok rf1]|];
        [|discriminate].
      cbn [mbind option_bind] in *. by apply IH.
    - cbn [lockfree_run app] in *.
      destruct (LockFree.GetOrderedPackets rf) as [[o rf1]|]; [|discriminate].
      cbn [mbind option_bind] in *. by apply IH. }
  rewrite (Happ _ _ _ _ _ Hrun1). cbn [lockfree_run]. rewrite HG.
  cbn [mbind option_bind]. by rewrite Heq1.
Qed.

(** ** The table of the lock-free engine *)

Lemma land_mask_bound key mask : 0 <= mask -> 0 <= Z.land key mask <= mask.
Proof.
  intros Hm. apply Z.ldiff_le; [exact Hm|].
  apply Z.bits_inj'. intros n Hn.
  rewrite Z.ldiff_spec, Z.land_spec, Z.bits_0.
  destruct (Z.testbit key n), (Z.testbit mask n); reflexivity.
Qed.

Lemma bucket_in_range {V : Type} (bs : list V) key mask :
  0 <= mask < len bs -> (Z.to_nat (Z.land key mask) < length bs)%nat.
Proof.
  intros Hm. pose proof (land_mask_bound key mask (proj1 Hm)).
  unfold len in Hm. lia.
Qed.

Lemma u64_small_pred size : 0 < size < 2 ^ 64 -> u64 (size - 1) = size - 1.
Proof. intros H. unfold u64. apply Z.mod_small. lia. Qed.

(** X15.  The table of the lock-free engine, whose bucket is chosen by
    [key & mask] and which never compares keys: [Insert] on a table whose
    mask is within the buckets returns; it fails, leaving the table unchanged,
    exactly when the bucket is taken; after a successful [Insert], [Remove]
    with any key of the same bucket returns the inserted value and restores
    the table, and another [Insert] into that bucket fails. *)
Theorem table_insert_remove {V : Type} (ht : LockFree.LockFreeHashTable V)
    (key : Z) (value : V) :
  table_wf ht ->
  exists ok ht',
    LockFree.Insert key value ht = Some (ok, ht')
    /\ table_wf ht'
    /\ (ok = false ->
        ht' = ht
        /\ exists other,
             LockFree.ht_buckets ht
               !! Z.to_nat (Z.land key (LockFree.ht_mask ht))
             = Some (Some other))
    /\ (ok = true ->
        LockFree.ht_buckets ht !! Z.to_nat (Z.land key (LockFree.ht_mask ht))
        = Some None
        /\ forall key',
             Z.land key' (LockFree.ht_mask ht)
             = Z.land key (LockFree.ht_mask ht) ->
             LockFree.Remove key' ht' = Some (Some value, ht)
             /\ forall value',
                  LockFree.Insert key' value' ht' = Some (false, ht')).
Proof.
  intros Hwf. destruct ht as [bs sz mk]. unfold table_wf in *.
  cbn [LockFree.ht_buckets LockFree.ht_mask] in *.
  pose proof (bucket_in_range bs key mk Hwf) as Hi.
  destruct (lookup_lt_is_Some_2 bs _ Hi) as [cur Hcur].
  unfold LockFree.Insert. cbn [LockFree.ht_buckets LockFree.ht_mask LockFree.ht_size].
  rewrite Hcur. cbn [mbind option_bind].
  destruct cur as [other|].
  - exists false, (LockFree.mkLockFreeHashTable bs sz mk).
    split; [done|]. split; [done|]. split; [|done].
    intros _. split; [done|]. by exists other.
  - eexists true, _. split; [reflexivity|]. split.
    { cbn. unfold len. by rewrite length_insert. }
    split; [done|].
    intros _. split; [done|]. intros key' Hkey.
    unfold LockFree.Remove, LockFree.Insert.
    cbn [LockFree.ht_buckets LockFree.ht_mask LockFree.ht_size].
    rewrite Hkey. rewrite list_lookup_insert_eq by exact Hi.
    cbn [mbind option_bind]. split; [|done].
    do 3 f_equal. rewrite list_insert_insert_eq. by apply list_insert_id.
Qed.

Lemma table_insert_remove_witness :
  exists ht',
    LockFree.Insert 6 42 table_of_four = Some (true, ht')
    /\ LockFree.Remove 2 ht' = Some (Some 42, table_of_four)
    /\ LockFree.Insert 10 43 ht' = Some (false, ht').
Proof.
  assert (Hwf : table_wf table_of_four) by by_compute.
  destruct (table_insert_remove table_of_four 6 42 Hwf)
    as (ok & ht' & HI & _ & _ & Htrue).
  assert (Hok : ok = true) by (vm_compute in HI; by injection HI as <- _).
  subst ok. exists ht'. split; [exact HI|].
  destruct (Htrue eq_refl) as [_ Hall].
  destruct (Hall 2) as [HR _]; [reflexivity|].
  destruct (Hall 10) as [_ HI2]; [reflexivity|].
  split; [exact HR|apply HI2].
Defined.

(** X16.  [NewLockFreeHashTable] panics on a positive size for which
    [size & (size-1)] is not zero (not a power of two), and on every size
    whose buckets exceed the allocation limit of [make], [maxAlloc] bytes at
    [PtrSize] bytes a bucket (every size above 2^45, 2^63 among them); on a
    positive size that passes both tests it returns a table of that many
    empty buckets with mask [size - 1], which lies within the buckets; size
    0 passes the tests too and gives a table on which every [Insert] and
    [Remove] panics. *)
Theorem new_table_is_well_formed {V : Type} (size : Z) :
  is_u64 size ->
  (Z.land size (size - 1) <> 0 -> 0 < size ->
   LockFree.NewLockFreeHashTable (V := V) size = None)
  /\ (LockFree.maxAlloc < size * LockFree.PtrSize ->
      LockFree.NewLockFreeHashTable (V := V) size = None)
  /\ (Z.land size (size - 1) = 0 -> 0 < size ->
      size * LockFree.PtrSize <= LockFree.maxAlloc ->
      exists ht : LockFree.LockFreeHashTable V,
        LockFree.NewLockFreeHashTable size = Some ht
        /\ table_wf ht
        /\ LockFree.ht_buckets ht = replicate (Z.to_nat size) None
        /\ LockFree.ht_mask ht = size - 1)
  /\ (size = 0 ->
      exists ht : LockFree.LockFreeHashTable V,
        LockFree.NewLockFreeHashTable size = Some ht
        /\ (forall key value, LockFree.Insert key value ht = None)
        /\ (forall key, LockFree.Remove key ht = None)).
Proof.
  intros Hsz. unfold is_u64 in Hsz.
  unfold LockFree.NewLockFreeHashTable, LockFree.make_pointers.
  split_and!.
  - intros Hne Hpos. rewrite (u64_small_pred size) by lia.
    by rewrite (proj2 (Z.eqb_neq _ _) Hne).
  - intros Hbig. destruct (negb _); [done|].
    by rewrite (proj2 (Z.ltb_lt _ _) Hbig).
  - intros Hz Hpos Hfit. rewrite (u64_small_pred size) by lia.
    rewrite Hz. cbn [Z.eqb negb].
    rewrite (proj2 (Z.ltb_ge _ _) Hfit). cbn [mbind option_bind].
    eexists. split; [reflexivity|].
    unfold table_wf, len. cbn. rewrite length_replicate.
    split_and!; try done; lia.
  - intros ->. eexists. split; [vm_compute; reflexivity|]. split; reflexivity.
Qed.

Lemma new_table_is_well_formed_witness :
  LockFree.NewLockFreeHashTable (V := Z) 6 = None
  /\ LockFree.NewLockFreeHashTable (V := Z) (2 ^ 63) = None
  /\ (exists ht : LockFree.LockFreeHashTable Z,
        LockFree.NewLockFreeHashTable 4 = Some ht /\ table_wf ht).
Proof.
  assert (H6 : is_u64 6) by by_compute. assert (H4 : is_u64 4) by by_compute.
  assert (H63 : is_u64 (2 ^ 63)) by by_compute.
  destruct (new_table_is_well_formed (V := Z) 6 H6) as (Hnone & _).
  destruct (new_table_is_well_formed (V := Z) (2 ^ 63) H63)
    as (_ & Hbig & _).
  destruct (new_table_is_well_formed (V := Z) 4 H4) as (_ & _ & Hsome & _).
  split; [apply Hnone; by_compute|]. split; [apply Hbig; by_compute|].
  destruct Hsome as (ht & Hnew & Hwf & _); [by_compute..|].
  exists ht. by split.
Defined.

(** X17.  The ring buffer: [Put] on a buffer whose mask is within its slots
    returns; it fails, leaving the buffer unchanged, exactly when the slot
    [index & mask] is taken; after a successful [Put], [Get] with any index of
    the same slot returns the stored packet and [Remove] returns it and
    restores the buffer. *)
Theorem ring_put_get_remove (rb : LockFree.LockFreeRingBuffer) (index : Z)
    (data : Packet) :
  ring_wf rb ->
  exists ok rb',
    LockFree.Ring.Put index data rb = Some (ok, rb')
    /\ ring_wf rb'
    /\ (ok = false ->
        rb' = rb
        /\ exists other, LockFree.Ring.Get index rb = Some (Some other))
    /\ (ok = true ->
        LockFree.Ring.Get index rb = Some None
        /\ forall index',
             Z.land index' (LockFree.rb_mask rb)
             = Z.land index (LockFree.rb_mask rb) ->
             LockFree.Ring.Get index' rb' = Some (Some data)
             /\ LockFree.Ring.Remove index' rb' = Some (Some data, rb)).
Proof.
  intros Hwf. destruct rb as [bs sz mk hd tl]. unfold ring_wf in *.
  cbn [LockFree.rb_buffer LockFree.rb_mask] in *.
  pose proof (bucket_in_range bs index mk Hwf) as Hi.
  destruct (lookup_lt_is_Some_2 bs _ Hi) as [cur Hcur].
  unfold LockFree.Ring.Put, LockFree.Ring.Get.
  cbn [LockFree.rb_buffer LockFree.rb_mask LockFree.rb_size LockFree.rb_head
       LockFree.rb_tail].
  rewrite Hcur. cbn [mbind option_bind].
  destruct cur as [other|].
  - exists false, (LockFree.mkLockFreeRingBuffer bs sz mk hd tl).
    split; [done|]. split; [done|]. split; [|done].
    intros _. split; [done|]. by exists other.
  - eexists true, _. split; [reflexivity|]. split.
    { cbn. unfold len. by rewrite length_insert. }
    split; [done|].
    intros _. split; [done|]. intros index' Hindex.
    unfold LockFree.Ring.Remove.
    cbn [LockFree.rb_buffer LockFree.rb_mask LockFree.rb_size LockFree.rb_head
         LockFree.rb_tail].
    rewrite Hindex. rewrite list_lookup_insert_eq by exact Hi.
    split; [done|]. cbn [mbind option_bind].
    do 3 f_equal. rewrite list_insert_insert_eq. by apply list_insert_id.
Qed.

Lemma ring_put_get_remove_witness :
  exists rb',
    LockFree.Ring.Put 5 (data_packet 5) ring_of_four = Some (true, rb')
    /\ LockFree.Ring.Get 9 rb' = Some (Some (data_packet 5))
    /\ LockFree.Ring.Remove 1 rb' = Some (Some (data_packet 5), ring_of_four).
Proof.
  assert (Hwf : ring_wf ring_of_four) by by_compute.
  destruct (ring_put_get_remove ring_of_four 5 (data_packet 5) Hwf)
    as (ok & rb' & HP & _ & _ & Htrue).
  assert (Hok : ok = true) by (vm_compute in HP; by injection HP as <- _).
  subst ok. exists rb'. split; [exact HP|].
  destruct (Htrue eq_refl) as [_ Hall].
  destruct (Hall 9) as [HG _]; [reflexivity|].
  destruct (Hall 1) as [_ HR]; [reflexivity|].
  by split.
Defined.

(** ** What the lock-free engine keeps *)

Lemma iter_u64_succ (k : nat) (x : Z) :
  Nat.iter (S k) (fun x => u64 (x + 1)) x = u64 (x + Z.of_nat (S k)).
Proof.
  induction k as [|k IH]; [done|].
  change (Nat.iter (S (S k)) (fun x => u64 (x + 1)) x)
    with (u64 (Nat.iter (S k) (fun x => u64 (x + 1)) x + 1)).
  rewrite IH. unfold u64. rewrite Z.add_mod_idemp_l by lia. f_equal. lia.
Qed.

Lemma loss_steps_more (k : nat) rf :
  LockFree.recvQueue (Nat.iter k LockFree.loss_step rf) = LockFree.recvQueue rf
  /\ LockFree.packetsLost (Nat.iter k LockFree.loss_step rf)
     = LockFree.packetsLost rf
  /\ LockFree.packetsRetr (Nat.iter k LockFree.loss_step rf)
     = Nat.iter k (fun x => u64 (x + 1)) (LockFree.packetsRetr rf)
  /\ LockFree.packetsSent (Nat.iter k LockFree.loss_step rf)
     = LockFree.packetsSent rf
  /\ LockFree.packetsRecv (Nat.iter k LockFree.loss_step rf)
     = LockFree.packetsRecv rf
  /\ (1 <= LockFree.congWindow rf ->
      LockFree.congWindow (Nat.iter k LockFree.loss_step rf)
      <= LockFree.congWindow rf).
Proof.
  induction k as [|k IH]; [by split_and!; try lia|].
  change (Nat.iter (S k) LockFree.loss_step rf)
    with (LockFree.loss_step (Nat.iter k LockFree.loss_step rf)).
  change (Nat.iter (S k) (fun x => u64 (x + 1)) (LockFree.packetsRetr rf))
    with (u64 (Nat.iter k (fun x => u64 (x + 1)) (LockFree.packetsRetr rf) + 1)).
  set (rf' := Nat.iter k LockFree.loss_step rf) in *.
  destruct IH as (H1 & H2 & H3 & H4 & H5 & H6).
  split; [exact H1|]. split; [exact H2|].
  split; [cbn; by rewrite H3|]. split; [exact H4|]. split; [exact H5|].
  intros Hc. specialize (H6 Hc).
  change (LockFree.congWindow (LockFree.loss_step rf'))
    with (if LockFree.congWindow rf' / 2 <? 1 then 1
          else LockFree.congWindow rf' / 2).
  destruct (LockFree.congWindow rf' / 2 <? 1) eqn:Hlt; [lia|].
  apply Z.ltb_ge in Hlt.
  assert (LockFree.congWindow rf' / 2 <= LockFree.congWindow rf')
    by (Z.div_mod_to_equations; lia).
  lia.
Qed.

Lemma LockFree_GetTimedOutPackets_counters now rf timedOut rf' :
  LockFree.ht_size (LockFree.unackedTable rf)
  = len (LockFree.ht_buckets (LockFree.unackedTable rf)) ->
  LockFree.GetTimedOutPackets now rf = Some (timedOut, rf') ->
  LockFree.recvQueue rf' = LockFree.recvQueue rf
  /\ (LockFree.packetsLost rf = LockFree.packetsRetr rf ->
      LockFree.packetsLost rf' = LockFree.packetsRetr rf')
  /\ (1 <= LockFree.congWindow rf ->
      LockFree.congWindow rf' <= LockFree.congWindow rf).
Proof.
  intros Hwf. unfold LockFree.GetTimedOutPackets, LockFree.ForEach.
  destruct (LockFree.unackedTable rf) as [bs sz mk] eqn:Htable.
  cbn [LockFree.ht_buckets LockFree.ht_size LockFree.ht_mask] in *.
  rewrite ForEach_from_scan by (unfold len in Hwf; lia).
  cbn [mbind option_bind take drop app]. change (drop 0 bs) with bs.
  set (out := LockFree.expired_packets now (LockFree.timeoutBase rf) bs).
  destruct (loss_steps_more (length out) rf) as (H1 & H2 & H3 & H4 & H5 & H6).
  intros H. injection H as _ <-. clearbody out.
  destruct out as [|p ps].
  - cbn. by split_and!.
  - change (0 <? len (p :: ps)) with (0 <? Z.of_nat (S (length ps))).
    rewrite (proj2 (Z.ltb_lt _ _)) by lia.
    cbn [LockFree.recvQueue LockFree.packetsLost LockFree.packetsRetr
         LockFree.set_counters LockFree.set_unackedTable LockFree.congWindow].
    split; [exact H1|]. split; [|exact H6].
    intros Heq. rewrite H2, H3, Heq. cbn [length].
    rewrite iter_u64_succ. reflexivity.
Qed.

Lemma updateRTTAtomic_bounds sample rf :
  let rf' := LockFree.updateRTTAtomic sample rf in
  100 * Millisecond <= LockFree.timeoutBase rf' <= 5 * Second
  /\ 0 <= LockFree.rttEstimate rf' < 2 ^ 61
  /\ LockFree.congWindow rf' = LockFree.congWindow rf
  /\ LockFree.windowSize rf' = LockFree.windowSize rf
  /\ LockFree.unackedTable rf' = LockFree.unackedTable rf
  /\ LockFree.recvQueue rf' = LockFree.recvQueue rf
  /\ LockFree.packetsLost rf' = LockFree.packetsLost rf
  /\ LockFree.packetsRetr rf' = LockFree.packetsRetr rf.
Proof.
  intros rf'. subst rf'. unfold LockFree.updateRTTAtomic. cbv zeta.
  cbn [LockFree.timeoutBase LockFree.rttEstimate LockFree.set_timeoutBase
       LockFree.set_rttEstimate LockFree.congWindow LockFree.windowSize
       LockFree.unackedTable LockFree.recvQueue LockFree.packetsLost
       LockFree.packetsRetr].
  change (u64 (100 * Millisecond)) with 100000000.
  change (u64 (5 * Second)) with 5000000000.
  change (100 * Millisecond) with 100000000.
  change (5 * Second) with 5000000000.
  set (new := u64 (LockFree.rttEstimate rf * 7 + sample) / 8).
  assert (Hnew : 0 <= new < 2 ^ 61).
  { subst new. unfold u64.
    pose proof (Z.mod_pos_bound (LockFree.rttEstimate rf * 7 + sample) (2 ^ 64)
                  ltac:(lia)) as Hb.
    change (2 ^ 64) with (8 * 2 ^ 61) in *.
    split; [apply Z.div_pos; lia|apply Z.div_lt_upper_bound; lia]. }
  split_and!; try done; try lia.
  - destruct (u64 (new * 4) <? 100000000) eqn:H1.
    + by_compute.
    + apply Z.ltb_ge in H1.
      destruct (5000000000 <? u64 (new * 4)); lia.
  - destruct (u64 (new * 4) <? 100000000) eqn:H1.
    + by_compute.
    + destruct (5000000000 <? u64 (new * 4)) eqn:H2; [lia|].
      by apply Z.ltb_ge in H2.
Qed.

Lemma updateCongestionWindow_more success rf rf' :
  LockFree.updateCongestionWindow success rf = Some rf' ->
  LockFree.recvQueue rf' = LockFree.recvQueue rf
  /\ LockFree.packetsLost rf' = LockFree.packetsLost rf
  /\ LockFree.packetsRetr rf' = LockFree.packetsRetr rf.
Proof.
  unfold LockFree.updateCongestionWindow. intros H.
  destruct success; [|by injection H as <-].
  destruct (_ : option Z); cbn in H; [|discriminate]. by injection H as <-.
Qed.

Ltac keep_safe items :=
  split_and!;
  first [ assumption | lia | by exists items
        | cbn [LockFree.congWindow LockFree.timeoutBase LockFree.rttEstimate
               LockFree.set_nextSeqNum LockFree.set_unackedTable
               LockFree.set_counters LockFree.GetNextSeqNum snd] in *; lia ].

Lemma lockfree_step_safe rf rf' :
  lockfree_safe rf -> lockfree_step rf rf' -> lockfree_safe rf'.
Proof.
  intros (Hinv & Hcw & Hmask & Hlen & Hto & Hrtt & Hcnt & items & Hq) Hstep.
  split; [by apply (lockfree_step_inv rf)|].
  destruct Hinv as (Hws & Hcw1 & Hwf & Hrtt0).
  destruct Hstep as [rf|now packet rf ok rf' H|now ack rf ok rf' H
                    |packet rf ok rf' H|now rf timedOut rf' H
                    |rf ordered rf' H].
  - keep_safe items.
  - unfold LockFree.SendPacket, LockFree.Insert in H.
    destruct (negb (IsDataPacket packet));
      [simplify_eq; keep_safe items|].
    destruct (LockFree.ht_buckets (LockFree.unackedTable rf) !! _)
      as [[e|]|] eqn:Hb; cbn [mbind option_bind] in H; [| |discriminate];
      injection H as _ <-.
    + destruct (LockFree.unackedTable rf) eqn:Ht. keep_safe items.
    + assert (Hlen' : len (<[Z.to_nat (Z.land (SeqNum packet)
                                 (LockFree.ht_mask (LockFree.unackedTable rf)))
                             := Some (LockFree.mkUnackedEntry packet now 0)]>
                             (LockFree.ht_buckets (LockFree.unackedTable rf)))
                      = 16384)
        by (unfold len in *; by rewrite length_insert).
      keep_safe items.
  - unfold LockFree.HandleAck, LockFree.Remove in H.
    destruct (negb (HasAck ack));
      [simplify_eq; keep_safe items|].
    destruct (LockFree.ht_buckets (LockFree.unackedTable rf) !! _)
      as [[e|]|] eqn:Hb; cbn [mbind option_bind] in H; [| |discriminate].
    + set (rf0 := LockFree.set_unackedTable _ rf) in H.
      set (rf1 := LockFree.updateRTTAtomic _ rf0) in H.
      destruct (LockFree.updateCongestionWindow true rf1) as [rf2|] eqn:Hup;
        cbn [mbind option_bind] in H; [|discriminate].
      injection H as _ <-.
      destruct (updateRTTAtomic_bounds (u64 (now - LockFree.SendTime e)) rf0)
        as (B1 & B2 & B3 & B4 & B5 & B6 & B7 & B8).
      fold rf1 in B1, B2, B3, B4, B5, B6, B7, B8.
      destruct (updateCongestionWindow_rtt _ _ _ Hup) as (U1 & U2 & U3 & U4).
      destruct (updateCongestionWindow_more _ _ _ Hup) as (U5 & U6 & U7).
      destruct (lockfree_window_growth rf1) as (rf2' & Hup' & Hslow & Havoid).
      { rewrite B3, B4. exact Hcw1. }
      { rewrite B4. change (LockFree.windowSize rf0) with (LockFree.windowSize rf).
        rewrite Hws. by_compute. }
      rewrite Hup in Hup'. injection Hup' as <-.
      rewrite B4 in Hslow, Havoid.
      change (LockFree.windowSize rf0) with (LockFree.windowSize rf) in *.
      rewrite Hws in Hslow, Havoid. change (32 / 2) with 16 in *.
      rewrite B3 in Hslow, Havoid.
      change (LockFree.congWindow rf0) with (LockFree.congWindow rf) in *.
      rewrite U1, U2, U4, U5, U6, U7, B5, B6, B7, B8.
      assert (Hc16 : LockFree.congWindow rf2 <= 16).
      { destruct (Z_lt_le_dec (LockFree.congWindow rf) 16) as [Hlt|Hge].
        - rewrite Hslow by exact Hlt. lia.
        - rewrite Havoid by lia. lia. }
      assert (Hlen' : len (LockFree.ht_buckets (LockFree.unackedTable rf0))
                      = 16384)
        by (cbn; unfold len in *; by rewrite length_insert).
      keep_safe items.
    + injection H as _ <-. destruct (LockFree.unackedTable rf) eqn:Ht.
      keep_safe items.
  - destruct (LockFree_ReceivePacket_repr packet rf items Hq)
      as (rf2 & HR & Hq2 & E1 & E2 & E3 & E4 & E5 & E6).
    rewrite HR in H. injection H as _ <-.
    rewrite E1, E2, E3, E4, E5, E6.
    split_and!; first [assumption | lia | by eexists].
  - destruct (LockFree_GetTimedOutPackets_spec now rf Hwf)
      as (rf2 & Hscan & Htable & Hto' & Hw & Hr & Hc).
    destruct (LockFree_GetTimedOutPackets_counters now rf _ _ Hwf H)
      as (C1 & C2 & C3).
    rewrite Hscan in H. injection H as _ <-.
    specialize (C3 ltac:(lia)). specialize (C2 Hcnt).
    assert (Hlen' : len (LockFree.ht_buckets (LockFree.unackedTable rf2))
                    = 16384)
      by (rewrite Htable; cbn; unfold len in *; by rewrite length_fmap).
    assert (Hmask' : LockFree.ht_mask (LockFree.unackedTable rf2) = 16383)
      by (by rewrite Htable).
    rewrite Hto', Hr, C1. keep_safe items.
  - destruct (LockFree_GetOrderedPackets_repr rf items Hq)
      as (rf2 & HG & Hq2 & E1 & E2 & E3 & E4 & E5 & E6).
    rewrite HG in H. injection H as _ <-.
    rewrite E1, E2, E3, E4, E5, E6.
    split_and!; first [assumption | lia | by eexists].
Qed.

Lemma lockfree_new_safe rf :
  LockFree.NewLockFreeReliabilityLayer = Some rf -> lockfree_safe rf.
Proof.
  intros H. split; [by apply lockfree_new_inv|].
  pose proof (NewLockFreeReliabilityLayer_queue rf H) as Hq.
  unfold LockFree.NewLockFreeReliabilityLayer, LockFree.NewLockFreeHashTable,
    LockFree.NewLockFreeRingBuffer in H.
  cbn [negb Z.eqb mbind option_bind] in H.
  change (Z.land 16384 (u64 (16384 - 1)) =? 0) with true in H.
  change (Z.land 4096 (u64 (4096 - 1)) =? 0) with true in H.
  cbn [negb mbind option_bind] in H. injection H as <-.
  cbn [LockFree.congWindow LockFree.unackedTable LockFree.ht_mask
       LockFree.ht_buckets LockFree.timeoutBase LockFree.rttEstimate
       LockFree.packetsLost LockFree.packetsRetr].
  split_and!; first [by exists [] | by_compute].
Qed.

Lemma lockfree_reachable_safe rf : lockfree_reachable rf -> lockfree_safe rf.
Proof.
  induction 1 as [rf Hnew|rf rf' _ IH Hstep].
  - by apply lockfree_new_safe.
  - by apply (lockfree_step_safe rf).
Qed.

(** X18.  What [GetStats] reports in every state the lock-free engine
    reaches from [NewLockFreeReliabilityLayer]: a window size of 32, a
    congestion window between 1 and 16 (half of the window size), as many
    lost packets as retransmissions, a timeout between 100 milliseconds and 5
    seconds, and a round-trip estimate that is not negative and below
    [2^61] nanoseconds. *)
Theorem lockfree_stats_bounds (rf : LockFree.LockFreeReliabilityLayer) :
  lockfree_reachable rf ->
  let stats := LockFree.GetStats rf in
  LockFree.WindowSize stats = 32
  /\ 1 <= LockFree.CongestionWindow stats <= 16
  /\ LockFree.PacketsLost stats = LockFree.PacketsRetransmitted stats
  /\ 100 * Millisecond <= LockFree.TimeoutValue stats <= 5 * Second
  /\ 0 <= LockFree.RTTEstimate stats < 2 ^ 61.
Proof.
  intros Hreach stats.
  destruct (lockfree_reachable_safe rf Hreach)
    as ((Hws & Hcw1 & Hwf & Hrtt0) & Hcw & Hmask & Hlen & Hto & Hrtt & Hcnt & _).
  subst stats. unfold LockFree.GetStats.
  cbn [LockFree.WindowSize LockFree.CongestionWindow LockFree.PacketsLost
       LockFree.PacketsRetransmitted LockFree.TimeoutValue LockFree.RTTEstimate].
  change (100 * Millisecond) with 100000000 in *.
  change (5 * Second) with 5000000000 in *.
  rewrite !i64_small by lia.
  split_and!; first [assumption | lia].
Qed.

Lemma lockfree_stats_bounds_witness :
  exists rf0 rf1,
    LockFree.NewLockFreeReliabilityLayer = Some rf0
    /\ LockFree.SendPacket 0 (data_packet 1) rf0 = Some (true, rf1)
    /\ 1 <= LockFree.CongestionWindow (LockFree.GetStats rf1) <= 16.
Proof.
  destruct LockFree.NewLockFreeReliabilityLayer as [rf0|] eqn:Hnew;
    [|by vm_compute in Hnew].
  destruct (LockFree.SendPacket 0 (data_packet 1) rf0) as [[ok rf1]|] eqn:Hsend;
    [|vm_compute in Hnew; injection Hnew as <-; by vm_compute in Hsend].
  assert (Hok : ok = true).
  { vm_compute in Hnew. injection Hnew as <-. vm_compute in Hsend.
    by injection Hsend as <- _. }
  subst ok. exists rf0, rf1. split; [done|]. split; [done|].
  assert (Hreach : lockfree_reachable rf1).
  { eapply reachable_step; [by apply reachable_new|].
    eapply step_SendPacket. exact Hsend. }
  destruct (lockfree_stats_bounds rf1 Hreach) as (_ & H & _). exact H.
Defined.

(** X19.  In every state the lock-free engine reaches from
    [NewLockFreeReliabilityLayer], each of [SendPacket], [HandleAck],
    [ReceivePacket], [GetTimedOutPackets] and [GetOrderedPackets] returns for
    all arguments: no index leaves the table, the congestion window is never
    zero when [1 / oldWindow] is computed, and the loops of the queue end
    within their fuel. *)
Theorem lockfree_never_panics (rf : LockFree.LockFreeReliabilityLayer) :
  lockfree_reachable rf ->
  (forall now packet, is_Some (LockFree.SendPacket now packet rf))
  /\ (forall now ackPacket, is_Some (LockFree.HandleAck now ackPacket rf))
  /\ (forall packet, is_Some (LockFree.ReceivePacket packet rf))
  /\ (forall now, is_Some (LockFree.GetTimedOutPackets now rf))
  /\ is_Some (LockFree.GetOrderedPackets rf).
Proof.
  intros Hreach.
  destruct (lockfree_reachable_safe rf Hreach)
    as ((Hws & Hcw1 & Hwf & Hrtt0) & Hcw & Hmask & Hlen & Hto & Hrtt & Hcnt
        & items & Hq).
  assert (Hrange : forall key,
             is_Some (LockFree.ht_buckets (LockFree.unackedTable rf)
                        !! Z.to_nat (Z.land key
                             (LockFree.ht_mask (LockFree.unackedTable rf))))).
  { intros key. apply lookup_lt_is_Some_2, bucket_in_range. lia. }
  split_and!.
  - intros now packet. unfold LockFree.SendPacket, LockFree.Insert.
    destruct (negb (IsDataPacket packet)); [done|].
    destruct (Hrange (SeqNum packet)) as [cur ->].
    cbn [mbind option_bind]. by destruct cur.
  - intros now ack. unfold LockFree.HandleAck, LockFree.Remove.
    destruct (negb (HasAck ack)); [done|].
    destruct (Hrange (u32 (AckNum ack - 1))) as [cur ->].
    cbn [mbind option_bind]. destruct cur as [e|]; [|done].
    cbn [mbind option_bind].
    match goal with
    | |- is_Some (?x ≫= _) =>
        assert (Hup : is_Some x) by (apply updateCongestionWindow_returns; cbn; lia)
    end.
    destruct Hup as [rf2 ->]. done.
  - intros packet.
    destruct (LockFree_ReceivePacket_repr packet rf items Hq) as (rf2 & -> & _).
    done.
  - intros now.
    destruct (LockFree_GetTimedOutPackets_spec now rf Hwf) as (rf2 & -> & _).
    done.
  - destruct (LockFree_GetOrderedPackets_repr rf items Hq) as (rf2 & -> & _).
    done.
Qed.

Lemma lockfree_never_panics_witness :
  exists rf0,
    LockFree.NewLockFreeReliabilityLayer = Some rf0
    /\ is_Some (LockFree.HandleAck 0 (ack_packet 2) rf0)
    /\ is_Some (LockFree.GetOrderedPackets rf0).
Proof.
  destruct LockFree.NewLockFreeReliabilityLayer as [rf0|] eqn:Hnew;
    [|by vm_compute in Hnew].
  exists rf0. split; [done|].
  destruct (lockfree_never_panics rf0 (reachable_new rf0 Hnew))
    as (_ & Hack & _ & _ & Hdrain).
  split; [apply Hack|exact Hdrain].
Defined.

(** ** A response and its acknowledgment *)

(** X20.  A response and its acknowledgment, end to end: on a reachable
    engine whose bucket for the next sequence number is free,
    [sendHTTPResponse] produces a datagram that decodes to a DATA packet with
    that sequence number and the response data cut at 1400 bytes, and tracks
    it; the acknowledgment that [handleDataPacket] sends for the decoded
    packet decodes to an ACK packet, and [HandleAck] of it returns true and
    restores the table of unacknowledged packets. *)
Theorem response_acknowledged (now now' : Z) (responseData : list Z)
    (rf : LockFree.LockFreeReliabilityLayer) :
  lockfree_reachable rf ->
  let seqNum := (LockFree.GetNextSeqNum rf).1 in
  LockFree.ht_buckets (LockFree.unackedTable rf)
    !! Z.to_nat (Z.land seqNum (LockFree.ht_mask (LockFree.unackedTable rf)))
  = Some None ->
  exists packetData rf1 packet ackData ack rf2,
    sendHTTPResponse now true responseData rf = Some (packetData, rf1)
    /\ DeserializePacket packetData = Some (Ok packet)
    /\ IsDataPacket packet = true
    /\ SeqNum packet = seqNum
    /\ Payload packet = take (Z.to_nat MAX_PAYLOAD_SIZE) responseData
    /\ LockFree.tracked seqNum (LockFree.mkUnackedEntry packet now 0) rf1
    /\ handleDataPacket_ack packet = Some ackData
    /\ DeserializePacket ackData = Some (Ok ack)
    /\ IsAckPacket ack = true
    /\ LockFree.HandleAck now' ack rf1 = Some (true, rf2)
    /\ LockFree.unackedTable rf2 = LockFree.unackedTable rf.
Proof.
  intros Hreach seqNum Hfree.
  destruct (lockfree_reachable_safe rf Hreach)
    as ((Hws & Hcw1 & Hwf & Hrtt0) & Hcw & Hmask & Hlen & Hto & Hrtt & Hcnt & _).
  assert (Hseq : is_u32 seqNum) by apply u32_range.
  assert (Hzero : is_u32 0) by (unfold is_u32; lia).
  destruct (roundtrip_general DATA_PACKET 0 seqNum 0 responseData Hseq Hzero)
    as (buf & sent & HS & Hsent & HD).
  destruct (NewPacket_payload DATA_PACKET 0 seqNum 0 responseData) as [Hpay _].
  change (Z.land DATA_PACKET 15) with DATA_PACKET in HD.
  assert (Hpkt : mkPacket PROTOCOL_VERSION DATA_PACKET 0 (Length sent) seqNum 0
                          (Checksum sent) (Payload sent) = sent).
  { rewrite Hsent. reflexivity. }
  rewrite Hpkt in HD.
  assert (Hdata : IsDataPacket sent = true) by (rewrite Hsent; reflexivity).
  assert (Hsn : SeqNum sent = seqNum) by (rewrite Hsent; reflexivity).
  assert (Hack1 : is_u32 (u32 (seqNum + 1))) by apply u32_range.
  destruct (roundtrip_general ACK_PACKET ACK_FLAG 0 (u32 (seqNum + 1)) []
              Hzero Hack1) as (abuf & asent & HAS & Hasent & HAD).
  change (Z.land ACK_PACKET 15) with ACK_PACKET in HAD.
  set (ack := mkPacket PROTOCOL_VERSION ACK_PACKET ACK_FLAG (Length asent) 0
                       (u32 (seqNum + 1)) (Checksum asent) (Payload asent))
    in *.
  set (i := Z.to_nat (Z.land seqNum (LockFree.ht_mask (LockFree.unackedTable rf))))
    in *.
  assert (Hi : (i < length (LockFree.ht_buckets (LockFree.unackedTable rf)))%nat)
    by (by apply lookup_lt_Some in Hfree).
  set (entry := LockFree.mkUnackedEntry sent now 0).
  set (rf1 := LockFree.set_counters
                (u64 (LockFree.packetsSent rf + 1)) (LockFree.packetsRecv rf)
                (LockFree.packetsLost rf) (LockFree.packetsRetr rf)
                (LockFree.set_unackedTable
                   (LockFree.mkLockFreeHashTable
                      (<[i := Some entry]>
                         (LockFree.ht_buckets (LockFree.unackedTable rf)))
                      (LockFree.ht_size (LockFree.unackedTable rf))
                      (LockFree.ht_mask (LockFree.unackedTable rf)))
                   (LockFree.GetNextSeqNum rf).2)).
  assert (Hsend : sendHTTPResponse now true responseData rf = Some (buf, rf1)).
  { unfold sendHTTPResponse.
    change (LockFree.GetNextSeqNum rf)
      with (seqNum, (LockFree.GetNextSeqNum rf).2).
    cbv zeta iota beta. rewrite HS. cbn [mbind option_bind negb].
    unfold LockFree.SendPacket. rewrite Hdata. cbn [negb].
    unfold LockFree.Insert. rewrite Hsn.
    change (LockFree.unackedTable (LockFree.GetNextSeqNum rf).2)
      with (LockFree.unackedTable rf).
    fold i. rewrite Hfree. reflexivity. }
  assert (Htracked : LockFree.tracked seqNum entry rf1).
  { unfold LockFree.tracked. cbn. fold i. by apply list_lookup_insert_eq. }
  assert (Htable : exists rf2,
             LockFree.HandleAck now' ack rf1 = Some (true, rf2)
             /\ LockFree.unackedTable rf2 = LockFree.unackedTable rf).
  { unfold LockFree.HandleAck, LockFree.Remove.
    change (HasAck ack) with true. cbn [negb].
    change (AckNum ack) with (u32 (seqNum + 1)).
    rewrite u32_pred_succ by exact Hseq.
    unfold LockFree.tracked in Htracked. rewrite Htracked.
    cbn [mbind option_bind].
    match goal with
    | |- exists _, (?x ≫= _) = _ /\ _ =>
        destruct x as [rf2|] eqn:Hup
    end.
    - exists rf2. split; [reflexivity|].
      destruct (updateCongestionWindow_rtt _ _ _ Hup) as (_ & _ & _ & ->).
      cbn. fold i. rewrite list_insert_insert_eq.
      rewrite list_insert_id by exact Hfree.
      by destruct (LockFree.unackedTable rf).
    - exfalso.
      match type of Hup with
      | ?x = None =>
          assert (His : is_Some x)
            by (apply updateCongestionWindow_returns; cbn; lia)
      end.
      rewrite Hup in His. by destruct His. }
  destruct Htable as (rf2 & HA & Ht).
  exists buf, rf1, sent, abuf, ack, rf2.
  split; [exact Hsend|]. split; [exact HD|]. split; [exact Hdata|].
  split; [exact Hsn|]. split; [by rewrite Hsent|]. split; [exact Htracked|].
  split; [unfold handleDataPacket_ack; rewrite Hsn, HAS; reflexivity|].
  split; [exact HAD|]. split; [reflexivity|]. by split.
Qed.

Lemma response_acknowledged_witness :
  exists rf0 packetData rf1 packet ackData ack rf2,
    LockFree.NewLockFreeReliabilityLayer = Some rf0
    /\ sendHTTPResponse 0 true [72; 105] rf0 = Some (packetData, rf1)
    /\ DeserializePacket packetData = Some (Ok packet)
    /\ handleDataPacket_ack packet = Some ackData
    /\ DeserializePacket ackData = Some (Ok ack)
    /\ LockFree.HandleAck 9 ack rf1 = Some (true, rf2)
    /\ LockFree.unackedTable rf2 = LockFree.unackedTable rf0.
Proof.
  destruct LockFree.NewLockFreeReliabilityLayer as [rf0|] eqn:Hnew;
    [|by vm_compute in Hnew].
  assert (Hfree : LockFree.ht_buckets (LockFree.unackedTable rf0)
                    !! Z.to_nat (Z.land (LockFree.GetNextSeqNum rf0).1
                                   (LockFree.ht_mask (LockFree.unackedTable rf0)))
                  = Some None).
  { vm_compute in Hnew. injection Hnew as <-. vm_compute. reflexivity. }
  destruct (response_acknowledged 0 9 [72; 105] rf0 (reachable_new rf0 Hnew)
              Hfree)
    as (packetData & rf1 & packet & ackData & ack & rf2 & H1 & H2 & _ & _ & _
        & _ & H3 & H4 & _ & H5 & H6).
  exists rf0, packetData, rf1, packet, ackData, ack, rf2. by split_and!.
Defined.

(** X21.  The lock-free engine tracks packets by sequence number modulo
    16384 and never compares sequence numbers: once a DATA packet is tracked,
    [SendPacket] of any other DATA packet whose sequence number has the same
    low 14 bits returns false and tracks nothing, and an acknowledgment for
    any sequence number with the same low 14 bits is accepted and removes the
    tracked packet. *)
Theorem lockfree_sequence_numbers_alias (now now' : Z) (packet ack : Packet)
    (rf : LockFree.LockFreeReliabilityLayer) :
  lockfree_reachable rf ->
  IsDataPacket packet = true ->
  LockFree.ht_buckets (LockFree.unackedTable rf)
    !! Z.to_nat (Z.land (SeqNum packet) 16383) = Some None ->
  HasAck ack = true ->
  Z.land (u32 (AckNum ack - 1)) 16383 = Z.land (SeqNum packet) 16383 ->
  exists rf1 rf2,
    LockFree.SendPacket now packet rf = Some (true, rf1)
    /\ (forall other,
          IsDataPacket other = true ->
          Z.land (SeqNum other) 16383 = Z.land (SeqNum packet) 16383 ->
          exists rf1',
            LockFree.SendPacket now' other rf1 = Some (false, rf1')
            /\ LockFree.unackedTable rf1' = LockFree.unackedTable rf1
            /\ LockFree.packetsSent rf1' = LockFree.packetsSent rf1)
    /\ LockFree.HandleAck now' ack rf1 = Some (true, rf2)
    /\ LockFree.unackedTable rf2 = LockFree.unackedTable rf.
Proof.
  intros Hreach Hdata Hfree Hack Halias.
  destruct (lockfree_reachable_safe rf Hreach)
    as ((Hws & Hcw1 & Hwf & Hrtt0) & Hcw & Hmask & Hlen & Hto & Hrtt & Hcnt & _).
  rewrite <- Hmask in Hfree, Halias.
  set (i := Z.to_nat (Z.land (SeqNum packet)
                        (LockFree.ht_mask (LockFree.unackedTable rf)))) in *.
  assert (Hi : (i < length (LockFree.ht_buckets (LockFree.unackedTable rf)))%nat)
    by (by apply lookup_lt_Some in Hfree).
  set (entry := LockFree.mkUnackedEntry packet now 0).
  set (table1 := LockFree.mkLockFreeHashTable
                   (<[i := Some entry]>
                      (LockFree.ht_buckets (LockFree.unackedTable rf)))
                   (LockFree.ht_size (LockFree.unackedTable rf))
                   (LockFree.ht_mask (LockFree.unackedTable rf))).
  set (rf1 := LockFree.set_counters
                (u64 (LockFree.packetsSent rf + 1)) (LockFree.packetsRecv rf)
                (LockFree.packetsLost rf) (LockFree.packetsRetr rf)
                (LockFree.set_unackedTable table1 rf)).
  assert (Hlook : LockFree.ht_buckets table1 !! i = Some (Some entry))
    by (by apply list_lookup_insert_eq).
  exists rf1.
  assert (Hsend : LockFree.SendPacket now packet rf = Some (true, rf1)).
  { unfold LockFree.SendPacket, LockFree.Insert. rewrite Hdata. cbn [negb].
    fold i. rewrite Hfree. reflexivity. }
  assert (Hrest : exists rf2,
             LockFree.HandleAck now' ack rf1 = Some (true, rf2)
             /\ LockFree.unackedTable rf2 = LockFree.unackedTable rf).
  { unfold LockFree.HandleAck, LockFree.Remove. rewrite Hack. cbn [negb].
    change (LockFree.unackedTable rf1) with table1.
    change (LockFree.ht_mask table1)
      with (LockFree.ht_mask (LockFree.unackedTable rf)).
    rewrite Halias. fold i. rewrite Hlook. cbn [mbind option_bind].
    match goal with
    | |- exists _, (?x ≫= _) = _ /\ _ =>
        destruct x as [rf2|] eqn:Hup
    end.
    - exists rf2. split; [reflexivity|].
      destruct (updateCongestionWindow_rtt _ _ _ Hup) as (_ & _ & _ & ->).
      cbn. rewrite list_insert_insert_eq.
      rewrite list_insert_id by exact Hfree.
      by destruct (LockFree.unackedTable rf).
    - exfalso.
      match type of Hup with
      | ?x = None =>
          assert (His : is_Some x)
            by (apply updateCongestionWindow_returns; cbn; lia)
      end.
      rewrite Hup in His. by destruct His. }
  destruct Hrest as (rf2 & HA & Ht). exists rf2.
  split; [exact Hsend|]. split; [|by split].
  intros other Hother Hsame. rewrite <- Hmask in Hsame.
  unfold LockFree.SendPacket, LockFree.Insert. rewrite Hother. cbn [negb].
  change (LockFree.unackedTable rf1) with table1.
  change (LockFree.ht_mask table1)
    with (LockFree.ht_mask (LockFree.unackedTable rf)).
  rewrite Hsame. fold i. rewrite Hlook. cbn [mbind option_bind].
  eexists. split; [reflexivity|]. by split.
Qed.

Lemma lockfree_sequence_numbers_alias_witness :
  exists rf0 rf1 rf2,
    LockFree.NewLockFreeReliabilityLayer = Some rf0
    /\ LockFree.SendPacket 0 (data_packet 5) rf0 = Some (true, rf1)
    /\ LockFree.HandleAck 9 (ack_packet 16390) rf1 = Some (true, rf2)
    /\ LockFree.unackedTable rf2 = LockFree.unackedTable rf0.
Proof.
  destruct LockFree.NewLockFreeReliabilityLayer as [rf0|] eqn:Hnew;
    [|by vm_compute in Hnew].
  assert (Hfree : LockFree.ht_buckets (LockFree.unackedTable rf0)
                    !! Z.to_nat (Z.land (SeqNum (data_packet 5)) 16383)
                  = Some None).
  { vm_compute in Hnew. injection Hnew as <-. vm_compute. reflexivity. }
  destruct (lockfree_sequence_numbers_alias 0 9 (data_packet 5)
              (ack_packet 16390) rf0 (reachable_new rf0 Hnew))
    as (rf1 & rf2 & Hsend & _ & Hack & Htable).
  - reflexivity.
  - exact Hfree.
  - reflexivity.
  - reflexivity.
  - exists rf0, rf1, rf2. by split_and!.
Defined.

(** ** parseIPv4 *)

Lemma byte_of_digit_char d : 0 <= d <= 9 -> byte_of_char (digit_char d) = 48 + d.
Proof.
  intros Hd. unfold byte_of_char, digit_char.
  rewrite N_ascii_embedding by lia. lia.
Qed.

Lemma parse_digit d rest result octet idx :
  0 <= d <= 9 -> octet * 10 + d <= 255 ->
  parseIPv4_from (digit_char d :: rest) result octet idx
  = parseIPv4_from rest result (octet * 10 + d) idx.
Proof.
  intros Hd Ho. cbn [parseIPv4_from]. rewrite byte_of_digit_char by exact Hd.
  change (byte_of_char "0") with 48. change (byte_of_char "9") with 57.
  rewrite (proj2 (Z.leb_le 48 (48 + d))) by lia.
  rewrite (proj2 (Z.leb_le (48 + d) 57)) by lia. cbn [andb].
  replace (48 + d - 48) with d by lia.
  by rewrite (proj2 (Z.ltb_ge 255 (octet * 10 + d))) by lia.
Qed.

Lemma parse_dot rest result octet idx :
  idx < 3 ->
  parseIPv4_from ("."%char :: rest) result octet idx
  = parseIPv4_from rest (<[Z.to_nat idx := u8 octet]> result) 0 (idx + 1).
Proof.
  intros Hi. cbn [parseIPv4_from].
  change (byte_of_char "0" <=? byte_of_char ".") with false. cbn [andb].
  rewrite bool_decide_eq_true_2 by done.
  by rewrite (proj2 (Z.leb_gt 3 idx)) by lia.
Qed.

Lemma parse_format_byte n rest result idx :
  is_u8 n ->
  parseIPv4_from (format_byte n ++ rest) result 0 idx
  = parseIPv4_from rest result n idx.
Proof.
  intros Hn. unfold is_u8 in Hn. change (2 ^ 8) with 256 in Hn.
  unfold format_byte.
  destruct (n <? 10) eqn:H10; [apply Z.ltb_lt in H10|apply Z.ltb_ge in H10].
  { cbn [app]. rewrite parse_digit by lia. f_equal. }
  destruct (n <? 100) eqn:H100; [apply Z.ltb_lt in H100|apply Z.ltb_ge in H100].
  { cbn [app].
    assert (0 <= n / 10 <= 9) by (Z.div_mod_to_equations; lia).
    assert (0 <= n mod 10 <= 9) by (Z.div_mod_to_equations; lia).
    rewrite !parse_digit by (Z.div_mod_to_equations; lia).
    f_equal. Z.div_mod_to_equations; lia. }
  cbn [app].
  assert (0 <= n / 100 <= 2) by (Z.div_mod_to_equations; lia).
  assert (0 <= n / 10 mod 10 <= 9) by (Z.div_mod_to_equations; lia).
  assert (0 <= n mod 10 <= 9) by (Z.div_mod_to_equations; lia).
  assert (Hv : (0 * 10 + n / 100) * 10 + n / 10 mod 10 = n / 10)
    by (Z.div_mod_to_equations; lia).
  rewrite (parse_digit (n / 100)) by lia.
  rewrite (parse_digit (n / 10 mod 10)) by (Z.div_mod_to_equations; lia).
  rewrite Hv.
  rewrite (parse_digit (n mod 10)) by (Z.div_mod_to_equations; lia).
  f_equal. Z.div_mod_to_equations; lia.
Qed.

(** X22.  [parseIPv4] reads back the text that [Bind] and [RecvFrom] print
    for an address: for all bytes [a], [b], [c], [d] the dotted-decimal text
    of [fmt.Sprintf("%d.%d.%d.%d", a, b, c, d)] parses to the four bytes
    [a], [b], [c], [d]. *)
Theorem parseIPv4_reads_dotted_decimal (a b c d : Z) :
  is_u8 a -> is_u8 b -> is_u8 c -> is_u8 d ->
  parseIPv4 (format_ipv4 a b c d) = Some [a; b; c; d].
Proof.
  intros Ha Hb Hc Hd. unfold parseIPv4, format_ipv4.
  rewrite parse_format_byte by exact Ha. rewrite parse_dot by lia.
  rewrite parse_format_byte by exact Hb. rewrite parse_dot by lia.
  rewrite parse_format_byte by exact Hc. rewrite parse_dot by lia.
  rewrite <- (app_nil_r (format_byte d)).
  rewrite parse_format_byte by exact Hd.
  cbn. unfold u8. by rewrite !Z.mod_small by assumption.
Qed.

Lemma parseIPv4_reads_dotted_decimal_witness :
  parseIPv4 (String.list_ascii_of_string "127.0.0.1") = Some [127; 0; 0; 1].
Proof.
  assert (H127 : is_u8 127) by by_compute. assert (H0 : is_u8 0) by by_compute.
  assert (H1 : is_u8 1) by by_compute.
  exact (parseIPv4_reads_dotted_decimal 127 0 0 1 H127 H0 H0 H1).
Defined.

Lemma parseIPv4_from_accepts (ip : list ascii) :
  forall (result : list Z) (octet idx : Z) (r : list Z),
    length result = 4%nat -> Forall is_u8 result -> 0 <= idx ->
    parseIPv4_from ip result octet idx = Some r ->
    length r = 4%nat
    /\ Forall is_u8 r
    /\ Forall (fun c => is_digit c \/ c = "."%char) ip
    /\ idx + len (filter (fun c => c = "."%char) ip) = 3.
Proof.
  induction ip as [|c ip IH]; intros result octet idx r Hlen Hbytes Hidx H.
  - cbn in H. destruct (idx =? 3) eqn:H3; [|discriminate].
    apply Z.eqb_eq in H3. cbn in H. injection H as <-.
    split_and!.
    + by rewrite length_insert.
    + apply Forall_insert; [exact Hbytes|]. unfold is_u8, u8.
      apply Z.mod_pos_bound. lia.
    + constructor.
    + rewrite filter_nil. unfold len. cbn [length]. lia.
  - cbn [parseIPv4_from] in H.
    change (byte_of_char "0") with 48 in H.
    change (byte_of_char "9") with 57 in H.
    destruct ((48 <=? byte_of_char c) && (byte_of_char c <=? 57)) eqn:Hd.
    + apply andb_true_iff in Hd as [Hd1 Hd2].
      apply Z.leb_le in Hd1, Hd2.
      destruct (255 <? _); [discriminate|].
      destruct (IH _ _ _ _ Hlen Hbytes Hidx H) as (R1 & R2 & R3 & R4).
      split_and!; try done.
      * constructor; [|exact R3]. left. unfold is_digit. lia.
      * rewrite filter_cons_False; [exact R4|].
        intros ->. change (byte_of_char ".") with 46 in Hd1. lia.
    + destruct (bool_decide (c = "."%char)) eqn:Hdot; [|discriminate].
      apply bool_decide_eq_true in Hdot.
      destruct (3 <=? idx) eqn:H3; [discriminate|]. apply Z.leb_gt in H3.
      apply IH in H as (R1 & R2 & R3 & R4);
        [|by rewrite length_insert
         |apply Forall_insert; [exact Hbytes|];
          unfold is_u8, u8; apply Z.mod_pos_bound; lia
         |lia].
      split_and!; try done.
      * constructor; [by right|exact R3].
      * rewrite filter_cons_True by exact Hdot. unfold len in *. cbn [length].
        lia.
Qed.

(** X23.  Whatever [parseIPv4] accepts consists of decimal digits and
    exactly three dots, and the result has four bytes; a text with any other
    character, or with fewer or more than three dots, is rejected
    ([nil]). *)
Theorem parseIPv4_accepts_only (ip : list ascii) (r : list Z) :
  parseIPv4 ip = Some r ->
  length r = 4%nat
  /\ Forall is_u8 r
  /\ Forall (fun c => is_digit c \/ c = "."%char) ip
  /\ length (filter (fun c => c = "."%char) ip) = 3%nat.
Proof.
  intros H. unfold parseIPv4 in H.
  apply parseIPv4_from_accepts in H as (R1 & R2 & R3 & R4);
    [|done|repeat constructor; unfold is_u8; lia|lia].
  split_and!; try done. unfold len in R4. lia.
Qed.

Lemma parseIPv4_accepts_only_witness :
  length (filter (fun c => c = "."%char)
            (String.list_ascii_of_string "10.0.0.255")) = 3%nat.
Proof.
  assert (H : parseIPv4 (String.list_ascii_of_string "10.0.0.255")
              = Some [10; 0; 0; 255]) by (vm_compute; reflexivity).
  destruct (parseIPv4_accepts_only _ _ H) as (_ & _ & _ & Hdots). exact Hdots.
Defined.

(** X24.  [parseIPv4] does not ask an octet to have digits: an octet that
    is left empty is read as 0, so that ["1.2.3."] parses to 1.2.3.0 and
    ["..."] to 0.0.0.0. *)
Theorem parseIPv4_empty_octets_are_zero (a b c d : option Z) :
  from_option is_u8 True a -> from_option is_u8 True b ->
  from_option is_u8 True c -> from_option is_u8 True d ->
  parseIPv4 (format_octet a ++ "."%char :: format_octet b ++ "."%char
               :: format_octet c ++ "."%char :: format_octet d)
  = Some (default 0 <$> [a; b; c; d]).
Proof.
  intros Ha Hb Hc Hd.
  assert (Hoct : forall o rest result idx,
             from_option is_u8 True o ->
             parseIPv4_from (format_octet o ++ rest) result 0 idx
             = parseIPv4_from rest result (default 0 o) idx).
  { intros [n|] rest result idx Ho; [by apply parse_format_byte|done]. }
  assert (Hu8 : forall o, from_option is_u8 True o -> u8 (default 0 o) = default 0 o).
  { intros [n|] Ho; [|done]. unfold u8. by apply Z.mod_small. }
  unfold parseIPv4.
  rewrite Hoct by exact Ha. rewrite parse_dot by lia.
  rewrite Hoct by exact Hb. rewrite parse_dot by lia.
  rewrite Hoct by exact Hc. rewrite parse_dot by lia.
  rewrite <- (app_nil_r (format_octet d)). rewrite Hoct by exact Hd.
  cbn. by rewrite !Hu8.
Qed.

Lemma parseIPv4_empty_octets_are_zero_witness :
  parseIPv4 (String.list_ascii_of_string "1.2.3.") = Some [1; 2; 3; 0]
  /\ parseIPv4 (String.list_ascii_of_string "...") = Some [0; 0; 0; 0].
Proof.
  assert (H1 : is_u8 1) by by_compute. assert (H2 : is_u8 2) by by_compute.
  assert (H3 : is_u8 3) by by_compute.
  split.
  - exact (parseIPv4_empty_octets_are_zero (Some 1) (Some 2) (Some 3) None
             H1 H2 H3 I).
  - exact (parseIPv4_empty_octets_are_zero None None None None I I I I).
Defined.

(** ** The string helpers of the server *)

Lemma slice_Some {A : Type} (s : list A) (lo hi : Z) :
  0 <= lo <= hi -> hi <= len s ->
  slice s lo hi = Some (take (Z.to_nat (hi - lo)) (drop (Z.to_nat lo) s)).
Proof.
  intros H1 H2. unfold slice.
  rewrite (proj2 (Z.leb_le 0 lo)), (proj2 (Z.leb_le lo hi)),
    (proj2 (Z.leb_le hi (len s))) by lia.
  reflexivity.
Qed.

Lemma fold_join (sep : list ascii) (rest : list (list ascii)) :
  forall x,
    fold_left (fun result str => result ++ (sep ++ str)) rest x
    = x ++ concat ((fun str => sep ++ str) <$> rest).
Proof.
  induction rest as [|y rest IH]; intros x; cbn.
  - by rewrite app_nil_r.
  - rewrite IH. by rewrite <- !app_assoc.
Qed.

Lemma joinStrings_cons x rest sep :
  joinStrings (x :: rest) sep
  = x ++ concat ((fun str => sep ++ str) <$> rest).
Proof.
  destruct rest as [|y rest]; [cbn; by rewrite app_nil_r|].
  unfold joinStrings. apply fold_join.
Qed.

Lemma concat_sep_shift (sep : list ascii) (r : list (list ascii)) :
  concat ((fun str => sep ++ str) <$> r) ++ sep = sep ++ pieces_with_sep r sep.
Proof.
  induction r as [|y r IH]; cbn; [by rewrite app_nil_r|].
  rewrite <- !app_assoc. by rewrite IH.
Qed.

Lemma joinStrings_snoc (result : list (list ascii)) (last sep : list ascii) :
  joinStrings (result ++ [last]) sep = pieces_with_sep result sep ++ last.
Proof.
  destruct result as [|x r]; [done|].
  cbn [app]. rewrite joinStrings_cons, fmap_app, concat_app. cbn.
  rewrite app_nil_r. rewrite !app_assoc. f_equal.
  rewrite <- !app_assoc. f_equal. apply concat_sep_shift.
Qed.

Lemma pieces_with_sep_snoc result piece sep :
  pieces_with_sep (result ++ [piece]) sep
  = pieces_with_sep result sep ++ piece ++ sep.
Proof.
  induction result as [|x r IH]; cbn; [by rewrite app_nil_r|].
  rewrite IH. by rewrite <- !app_assoc.
Qed.

Lemma splitString_loop_spec (s sep : list ascii) :
  sep <> [] ->
  forall (fuel : nat) (i start : Z) (result : list (list ascii)),
    0 <= start <= i -> start <= len s ->
    len s - i < Z.of_nat fuel ->
    pieces_with_sep result sep = take (Z.to_nat start) s ->
    exists parts,
      splitString_loop fuel s sep i start result = Some parts
      /\ joinStrings parts sep = s.
Proof.
  intros Hsep.
  assert (Hm : 1 <= len sep).
  { destruct sep; [done|]. unfold len. cbn. lia. }
  assert (Hexit : forall fuel i start result,
             0 <= start <= i -> start <= len s ->
             pieces_with_sep result sep = take (Z.to_nat start) s ->
             (i <=? len s - len sep) = false ->
             exists parts,
               splitString_loop fuel s sep i start result = Some parts
               /\ joinStrings parts sep = s).
  { intros fuel i start result Hs Hl Hinv Hcond.
    assert (Hloop : splitString_loop fuel s sep i start result
                    = (piece ← slice s start (len s); Some (result ++ [piece])))
      by (destruct fuel; cbn [splitString_loop]; by rewrite Hcond).
    rewrite Hloop, slice_Some by lia. cbn [mbind option_bind].
    eexists. split; [reflexivity|].
    rewrite joinStrings_snoc, Hinv.
    assert (Hd : (length (drop (Z.to_nat start) s)
                  <= Z.to_nat (len s - start))%nat)
      by (rewrite length_drop; unfold len; lia).
    rewrite (take_ge _ _ Hd). apply take_drop. }
  induction fuel as [|fuel IH]; intros i start result Hs Hl Hfuel Hinv.
  - apply Hexit; try done. apply Z.leb_gt. lia.
  - destruct (i <=? len s - len sep) eqn:Hcond; [|by apply Hexit].
    apply Z.leb_le in Hcond.
    cbn [splitString_loop]. rewrite (proj2 (Z.leb_le _ _) Hcond).
    rewrite (slice_Some s i (i + len sep)) by lia.
    rewrite (slice_Some s start i) by lia. cbn [mbind option_bind].
    case_bool_decide as Hmatch.
    + apply IH; try lia.
      replace (i + len sep - i) with (len sep) in Hmatch by lia.
      rewrite pieces_with_sep_snoc, Hinv.
      replace (Z.to_nat (i + len sep))
        with (Z.to_nat start + Z.to_nat (i - start) + Z.to_nat (len sep))%nat
        by lia.
      rewrite <- !take_take_drop.
      replace (Z.to_nat start + Z.to_nat (i - start))%nat with (Z.to_nat i)
        by lia.
      rewrite Hmatch. by rewrite <- app_assoc.
    + apply IH; try lia. exact Hinv.
Qed.

(** X25.  [joinStrings] undoes [splitString]: for every string and every
    separator that is not empty, [splitString] returns, joining its pieces
    with the separator gives the string back, and the list of pieces is empty
    only for the empty string. *)
Theorem split_then_join (s sep : list ascii) :
  sep <> [] ->
  exists parts,
    splitString s sep = Some parts
    /\ joinStrings parts sep = s
    /\ (s = [] <-> parts = []).
Proof.
  intros Hsep. unfold splitString.
  destruct (bool_decide (s = [])) eqn:Hs.
  - apply bool_decide_eq_true in Hs. subst s. by exists [].
  - apply bool_decide_eq_false in Hs.
    destruct (splitString_loop_spec s sep Hsep (S (length s)) 0 0 [])
      as (parts & Hrun & Hjoin); try (unfold len; lia); [done|].
    exists parts. split; [exact Hrun|]. split; [exact Hjoin|].
    split; [done|]. intros ->. by cbn in Hjoin.
Qed.

Lemma split_then_join_witness :
  exists parts,
    splitString (String.list_ascii_of_string "GET / HTTP/1.1")
                (String.list_ascii_of_string " ") = Some parts
    /\ joinStrings parts (String.list_ascii_of_string " ")
       = String.list_ascii_of_string "GET / HTTP/1.1".
Proof.
  assert (Hsep : String.list_ascii_of_string " " <> []) by discriminate.
  destruct (split_then_join (String.list_ascii_of_string "GET / HTTP/1.1")
              (String.list_ascii_of_string " ") Hsep)
    as (parts & Hsplit & Hjoin & _).
  exists parts. by split.
Defined.

(** X26.  With the empty separator [splitString] never returns on a string
    that is not empty: the loop index stays at 0, one empty piece is appended
    in every round, and no amount of fuel lets the loop end. *)
Theorem split_on_empty_separator_diverges (s : list ascii) :
  s <> [] ->
  (forall (fuel : nat) (result : list (list ascii)),
      splitString_loop fuel s [] 0 0 result = None)
  /\ splitString s [] = None.
Proof.
  intros Hs.
  assert (Hloop : forall fuel result, splitString_loop fuel s [] 0 0 result = None).
  { assert (Hle : (0 <=? len s - 0) = true)
      by (apply Z.leb_le; unfold len; lia).
    induction fuel as [|fuel IH]; intros result.
    - cbn [splitString_loop]. change (len (@nil ascii)) with 0.
      by rewrite Hle.
    - cbn [splitString_loop]. change (len (@nil ascii)) with 0.
      rewrite Hle. change (0 + 0) with 0. change (0 + (0 - 1) + 1) with 0.
      rewrite (slice_Some s 0 0) by (unfold len; lia).
      cbn [mbind option_bind].
      change (take (Z.to_nat (0 - 0)) (drop (Z.to_nat 0) s)) with (@nil ascii).
      rewrite bool_decide_eq_true_2 by done. cbn [mbind option_bind].
      apply IH. }
  split; [exact Hloop|]. unfold splitString.
  rewrite bool_decide_eq_false_2 by exact Hs. apply Hloop.
Qed.

Lemma split_on_empty_separator_diverges_witness :
  splitString (String.list_ascii_of_string "a") [] = None.
Proof.
  assert (Hs : String.list_ascii_of_string "a" <> []) by discriminate.
  destruct (split_on_empty_separator_diverges
              (String.list_ascii_of_string "a") Hs) as [_ H].
  exact H.
Defined.

Lemma findChar_from_spec (s : list ascii) (c : ascii) :
  forall i,
    ((c ∉ s) /\ findChar_from s c i = -1)
    \/ (exists k : nat,
          findChar_from s c i = i + Z.of_nat k
          /\ s !! k = Some c /\ (c ∉ take k s)).
Proof.
  induction s as [|x s IH]; intros i; cbn [findChar_from].
  - left. split; [apply not_elem_of_nil|done].
  - case_bool_decide as Hx.
    + right. exists 0%nat. subst x. split; [lia|]. split; [done|].
      cbn. apply not_elem_of_nil.
    + destruct (IH (i + 1)) as [[Hnot ->]|(k & -> & Hk & Hpre)].
      * left. split; [|done]. apply not_elem_of_cons. by split.
      * right. exists (S k). split; [lia|]. split; [done|].
        cbn. apply not_elem_of_cons. by split.
Qed.

(** X27.  [findChar] returns the index of the first occurrence of the
    character, and -1 exactly when the character does not occur. *)
Theorem findChar_first_occurrence (s : list ascii) (c : ascii) :
  ((c ∉ s) /\ findChar s c = -1)
  \/ (exists k : nat,
        findChar s c = Z.of_nat k /\ s !! k = Some c /\ (c ∉ take k s)).
Proof.
  unfold findChar. destruct (findChar_from_spec s c 0) as [H|(k & H1 & H2)].
  - by left.
  - right. exists k. by rewrite H1.
Qed.

Lemma char_at_Some (s : list ascii) (i : Z) :
  0 <= i < len s -> exists c, char_at s i = Some c /\ s !! Z.to_nat i = Some c.
Proof.
  intros Hi. unfold char_at. rewrite (proj2 (Z.ltb_ge i 0)) by lia.
  destruct (lookup_lt_is_Some_2 s (Z.to_nat i)) as [c Hc];
    [unfold len in Hi; lia|].
  by exists c.
Qed.

Lemma trimSpace_start_spec (s : list ascii) :
  forall (n : nat) (start : Z),
    0 <= start -> start + Z.of_nat n = len s ->
    exists start',
      trimSpace_start n s start = Some start'
      /\ start <= start' <= len s
      /\ (forall k c, start <= Z.of_nat k < start' -> s !! k = Some c ->
                      is_blank c = true)
      /\ (forall c, s !! Z.to_nat start' = Some c -> is_blank c = false).
Proof.
  induction n as [|n IH]; intros start H0 Hn.
  - exists start. cbn. split_and!; try done; try lia.
    intros c Hc. apply lookup_lt_Some in Hc. unfold len in Hn. lia.
  - destruct (char_at_Some s start) as (c & Hc & Hc'); [lia|].
    cbn [trimSpace_start]. rewrite Hc. cbn [mbind option_bind].
    destruct (is_blank c) eqn:Hb.
    + destruct (IH (start + 1)) as (start' & Hrun & Hr & Hbl & Hnb); [lia..|].
      exists start'. split_and!; try done; try lia.
      intros k d Hk Hd.
      destruct (Z.eq_dec (Z.of_nat k) start) as [Hks|Hks].
      * replace (Z.to_nat start) with k in Hc' by lia. congruence.
      * apply (Hbl k); [lia|done].
    + exists start. split_and!; try done; try lia.
      intros d Hd. congruence.
Qed.

Lemma trimSpace_end_spec (s : list ascii) (start : Z) :
  0 <= start ->
  forall (n : nat) (end_ : Z),
    end_ <= len s -> end_ - Z.of_nat n = start ->
    exists end',
      trimSpace_end n s end_ = Some end'
      /\ start <= end' <= end_
      /\ (forall k c, end' <= Z.of_nat k < end_ -> s !! k = Some c ->
                      is_blank c = true)
      /\ (start < end' ->
          forall c, s !! Z.to_nat (end' - 1) = Some c -> is_blank c = false).
Proof.
  intros H0. induction n as [|n IH]; intros end_ Hle Hn.
  - exists end_. cbn. split_and!; try done; lia.
  - destruct (char_at_Some s (end_ - 1)) as (c & Hc & Hc'); [lia|].
    cbn [trimSpace_end]. rewrite Hc. cbn [mbind option_bind].
    destruct (is_blank c) eqn:Hb.
    + destruct (IH (end_ - 1)) as (end' & Hrun & Hr & Hbl & Hnb); [lia..|].
      exists end'. split_and!; try done; try lia.
      intros k d Hk Hd.
      destruct (Z.eq_dec (Z.of_nat k) (end_ - 1)) as [Hks|Hks].
      * replace (Z.to_nat (end_ - 1)) with k in Hc' by lia. congruence.
      * apply (Hbl k); [lia|done].
    + exists end_. split_and!; try done; try lia.
      intros _ d Hd. congruence.
Qed.

(** X28.  [trimSpace] always returns; its result is the string without a
    prefix and a suffix that consist of spaces and tabs, and the result
    neither begins nor ends with a space or a tab. *)
Theorem trimSpace_strips_blanks (s : list ascii) :
  exists l t r,
    trimSpace s = Some t
    /\ s = l ++ t ++ r
    /\ Forall (fun c => is_blank c = true) l
    /\ Forall (fun c => is_blank c = true) r
    /\ (forall c, head t = Some c -> is_blank c = false)
    /\ (forall c, last t = Some c -> is_blank c = false).
Proof.
  destruct (trimSpace_start_spec s (Z.to_nat (len s - 0)) 0)
    as (a & Ha & Hra & Hbla & Hnba); [lia|unfold len; lia|].
  destruct (trimSpace_end_spec s a (proj1 Hra) (Z.to_nat (len s - a)) (len s))
    as (b & Hb & Hrb & Hblb & Hnbb); [lia|lia|].
  exists (take (Z.to_nat a) s),
         (take (Z.to_nat (b - a)) (drop (Z.to_nat a) s)),
         (drop (Z.to_nat b) s).
  split_and!.
  - unfold trimSpace. rewrite Ha. cbn [mbind option_bind]. rewrite Hb.
    cbn [mbind option_bind]. apply slice_Some; lia.
  - rewrite app_assoc, take_take_drop.
    replace (Z.to_nat a + Z.to_nat (b - a))%nat with (Z.to_nat b) by lia.
    by rewrite take_drop.
  - apply Forall_lookup. intros k c Hk.
    apply lookup_take_Some in Hk as [Hk Hlt]. apply (Hbla k); [lia|done].
  - apply Forall_lookup. intros k c Hk. rewrite lookup_drop in Hk.
    pose proof (lookup_lt_Some _ _ _ Hk) as Hlt. unfold len in *.
    apply (Hblb (Z.to_nat b + k)%nat); [lia|done].
  - intros c Hc. rewrite head_lookup in Hc.
    apply lookup_take_Some in Hc as [Hc Hlt]. rewrite lookup_drop in Hc.
    rewrite Nat.add_0_r in Hc. by apply Hnba.
  - intros c Hc. rewrite last_lookup in Hc.
    apply lookup_take_Some in Hc as [Hc Hlt]. rewrite lookup_drop in Hc.
    rewrite length_take, length_drop in Hc, Hlt. unfold len in *.
    apply Hnbb; [lia|].
    replace (Z.to_nat (b - 1))
      with (Z.to_nat a
            + Init.Nat.pred (Z.to_nat (b - a) `min` (length s - Z.to_nat a)))%nat
      by lia.
    exact Hc.
Qed.

(** ** The packets delivered over a run *)

Lemma consecutive_app (n m : nat) :
  forall a,
    consecutive a (n + m)
    = consecutive a n
      ++ consecutive (Nat.iter n (fun s => u32 (s + 1)) a) m.
Proof.
  induction n as [|n IH]; intros a; [done|].
  cbn [Nat.add consecutive app]. rewrite IH. by rewrite Nat.iter_succ_r.
Qed.

Lemma collect_ordered_next :
  forall (fuel : nat) (buf : gmap Z Packet) (next : Z) (acc out : list Packet)
         (buf' : gmap Z Packet) (next' : Z),
    (forall k p, buf !! k = Some p -> SeqNum p = k) ->
    Locked.collect_ordered fuel buf next acc = Some (out, buf', next') ->
    exists released,
      out = acc ++ released
      /\ SeqNum <$> released = consecutive next (length released)
      /\ next' = Nat.iter (length released) (fun s => u32 (s + 1)) next.
Proof.
  induction fuel as [|fuel IH]; intros buf next acc out buf' next' Hkeys Hrun;
    cbn [Locked.collect_ordered] in Hrun;
    destruct (buf !! next) as [p|] eqn:Hnext; try discriminate.
  - injection Hrun as <- <- <-. exists []. by rewrite app_nil_r.
  - apply IH in Hrun as (released & -> & Hseq & Hstop).
    + exists (p :: released). rewrite <- app_assoc. split; [done|].
      split.
      * cbn. by rewrite (Hkeys next p Hnext), Hseq.
      * cbn [length]. by rewrite Nat.iter_succ_r.
    + intros k q Hq. apply lookup_delete_Some in Hq as [_ Hq]. by apply Hkeys.
  - injection Hrun as <- <- <-. exists []. by rewrite app_nil_r.
Qed.

Lemma locked_run_in_order (first : Z) (ops : list ReceiveOp) :
  forall (r r' : Locked.ReliabilityLayer) (delivered delivered' : list Packet),
    (forall k p, Locked.orderingBuffer r !! k = Some p -> SeqNum p = k) ->
    SeqNum <$> delivered = consecutive first (length delivered) ->
    Locked.nextExpectedSeq r
    = Nat.iter (length delivered) (fun s => u32 (s + 1)) first ->
    locked_run ops r delivered = Some (r', delivered') ->
    SeqNum <$> delivered' = consecutive first (length delivered').
Proof.
  induction ops as [|[packet|] ops IH];
    intros r r' delivered delivered' Hkeys Hseq Hnext Hrun.
  - cbn in Hrun. by simplify_eq.
  - cbn [locked_run] in Hrun. eapply IH; [| |  |exact Hrun]; [|done|].
    + intros k p. unfold Locked.ReceivePacket. cbv zeta.
      destruct (Locked.maxBufferSize r <=? _); [apply Hkeys|].
      destruct (Locked.IsPacketDuplicate packet r); [apply Hkeys|].
      cbn. intros Hk. destruct (decide (SeqNum packet = k)) as [<-|Hne].
      * rewrite lookup_insert_eq in Hk. by simplify_eq.
      * rewrite lookup_insert_ne in Hk by done. by apply Hkeys.
    + rewrite <- Hnext. unfold Locked.ReceivePacket. cbv zeta.
      destruct (Locked.maxBufferSize r <=? _); [done|].
      by destruct (Locked.IsPacketDuplicate packet r).
  - cbn [locked_run] in Hrun. unfold Locked.GetOrderedPackets in Hrun.
    destruct (Locked.collect_ordered _ _ _ _) as [[[out buf'] next']|] eqn:Hcol;
      [|discriminate].
    cbn [mbind option_bind] in Hrun.
    destruct (collect_ordered_next _ _ _ _ _ _ _ Hkeys Hcol)
      as (released & Hout & Hrel & Hnext').
    cbn [app] in Hout. subst out.
    destruct (collect_ordered_shrinks _ _ _ _ _ _ _ Hcol) as [Hsub _].
    eapply IH; [| | |exact Hrun].
    + cbn. intros k p Hk. by apply Hkeys, Hsub.
    + rewrite fmap_app, length_app, consecutive_app, Hseq, Hrel.
      by rewrite Hnext.
    + cbn. rewrite Hnext', Hnext, length_app, Nat.add_comm.
      by rewrite Nat.iter_add.
Qed.

(** X29.  Over every run of [ReceivePacket] and [GetOrderedPackets] calls
    on a fresh lock-protected engine, every call returns and the packets
    delivered to the application carry the sequence numbers 1, 2, 3, ... in
    this order: no gap, no reordering and no sequence number twice. *)
Theorem locked_delivers_in_sequence (ops : list ReceiveOp) :
  exists r delivered,
    locked_run ops Locked.NewReliabilityLayer [] = Some (r, delivered)
    /\ SeqNum <$> delivered = consecutive 1 (length delivered)
    /\ NoDup (SeqNum <$> delivered).
Proof.
  destruct (locked_run_at_most_once ops Locked.NewReliabilityLayer []
              ordering_inv_new) as (r & delivered & Hrun & Hnd).
  exists r, delivered. split; [exact Hrun|]. split; [|exact Hnd].
  apply (locked_run_in_order 1 ops Locked.NewReliabilityLayer r [] delivered);
    first [done | intros k p Hk; cbn in Hk; by rewrite lookup_empty in Hk].
Qed.

(** ** The congestion window after a timeout scan *)

Lemma loss_steps_halve (k : nat) rf :
  1 <= LockFree.congWindow rf ->
  LockFree.congWindow (Nat.iter k LockFree.loss_step rf)
  = Z.max 1 (LockFree.congWindow rf / 2 ^ Z.of_nat k).
Proof.
  intros Hw. induction k as [|k IH].
  - cbn [Nat.iter nat_rect]. change (2 ^ Z.of_nat 0) with 1.
    rewrite Z.div_1_r. lia.
  - change (Nat.iter (S k) LockFree.loss_step rf)
      with (LockFree.loss_step (Nat.iter k LockFree.loss_step rf)).
    set (rf' := Nat.iter k LockFree.loss_step rf) in *.
    change (LockFree.congWindow (LockFree.loss_step rf'))
      with (if LockFree.congWindow rf' / 2 <? 1 then 1
            else LockFree.congWindow rf' / 2).
    rewrite IH. set (w := LockFree.congWindow rf) in *.
    replace (2 ^ Z.of_nat (S k)) with (2 ^ Z.of_nat k * 2)
      by (rewrite Nat2Z.inj_succ, Z.pow_succ_r by lia; lia).
    assert (Hp : 0 < 2 ^ Z.of_nat k) by (apply Z.pow_pos_nonneg; lia).
    rewrite <- Z.div_div by lia.
    assert (Hq : 0 <= w / 2 ^ Z.of_nat k) by (apply Z.div_pos; lia).
    destruct (Z_lt_le_dec (w / 2 ^ Z.of_nat k) 1) as [Hsmall|Hbig].
    + rewrite (Z.max_l 1 (w / 2 ^ Z.of_nat k)) by lia.
      change (1 / 2) with 0. change (0 <? 1) with true. cbv iota.
      replace (w / 2 ^ Z.of_nat k) with 0 by lia. change (0 / 2) with 0. lia.
    + rewrite (Z.max_r 1 (w / 2 ^ Z.of_nat k)) by lia.
      destruct (w / 2 ^ Z.of_nat k / 2 <? 1) eqn:Hlt.
      * apply Z.ltb_lt in Hlt. lia.
      * apply Z.ltb_ge in Hlt. lia.
Qed.

(** X30.  A timeout scan of the lock-free engine halves the congestion
    window once for every packet it returns: after a scan that returns [k]
    packets the window is [max(1, window / 2^k)], and the count of lost
    packets has grown by [k]. *)
Theorem timeout_scan_halves_per_packet (now : Z)
    (rf rf' : LockFree.LockFreeReliabilityLayer) (timedOut : list Packet) :
  LockFree.ht_size (LockFree.unackedTable rf)
  = len (LockFree.ht_buckets (LockFree.unackedTable rf)) ->
  1 <= LockFree.congWindow rf ->
  LockFree.GetTimedOutPackets now rf = Some (timedOut, rf') ->
  LockFree.congWindow rf'
  = Z.max 1 (LockFree.congWindow rf / 2 ^ len timedOut)
  /\ (0 < len timedOut ->
      LockFree.packetsLost rf'
      = u64 (LockFree.packetsLost rf + len timedOut)).
Proof.
  intros Hwf Hw Hscan.
  destruct (LockFree_GetTimedOutPackets_spec now rf Hwf)
    as (rf2 & Hspec & _ & _ & _ & _ & Hc).
  rewrite Hscan in Hspec. injection Hspec as -> <-.
  split; [rewrite Hc; by apply loss_steps_halve|].
  intros Hpos. revert Hscan.
  unfold LockFree.GetTimedOutPackets, LockFree.ForEach.
  destruct (LockFree.unackedTable rf) as [bs sz mk] eqn:Htable.
  cbn [LockFree.ht_buckets LockFree.ht_size LockFree.ht_mask] in *.
  rewrite ForEach_from_scan by (unfold len in Hwf; lia).
  cbn [mbind option_bind take drop app]. change (drop 0 bs) with bs.
  set (out := LockFree.expired_packets now (LockFree.timeoutBase rf) bs) in *.
  destruct (loss_steps_more (length out) rf) as (_ & H2 & _).
  rewrite (proj2 (Z.ltb_lt 0 (len out)) Hpos).
  intros H. injection H as <-. cbn. by rewrite H2.
Qed.

Lemma timeout_scan_halves_per_packet_witness :
  exists rf',
    LockFree.GetTimedOutPackets (1500 * Millisecond) (lockfree_small 20)
    = Some ([data_packet 1], rf')
    /\ LockFree.congWindow rf' = 10.
Proof.
  destruct (LockFree.GetTimedOutPackets (1500 * Millisecond) (lockfree_small 20))
    as [[timedOut rf']|] eqn:Hscan; [|by vm_compute in Hscan].
  assert (Hout : timedOut = [data_packet 1])
    by (vm_compute in Hscan; by injection Hscan as <- _).
  subst timedOut. exists rf'. split; [done|].
  destruct (timeout_scan_halves_per_packet (1500 * Millisecond)
              (lockfree_small 20) rf' [data_packet 1]) as [H _].
  - reflexivity.
  - by_compute.
  - exact Hscan.
  - rewrite H. reflexivity.
Defined.
